(** * The witness lock-order verifier (sys/dev/hme/if_hme.c, lines 1729-2908)

    A shallow embedding of the `witness' code and the properties stated of
    it.  Pointers into the static arrays are indices: a [struct witness *]
    is an index into [w_data], a [struct lock_object *] is the address of the
    lock in the lock heap.  The free lists of child chunks and of lock-list
    chunks are kept as the number of free chunks: a chunk is cleared by
    [bzero] when it is handed out and nothing depends on which chunk it is.
    The internal spin mutex [w_mtx], the [critical_enter]/[critical_exit]
    pair and the DDB hooks are scheduling matters and are left out; the
    [MPASS]/[KASSERT] assertions are compiled out of a production kernel and
    are not modelled.  *)

From stdpp Require Import base option list strings gmap relations.
From Stdlib Require Import ZArith Lia.

Local Open Scope string_scope.
Local Open Scope list_scope.
Local Open Scope Z_scope.

(** ** Data model *)

(** [lc_flags] of [struct lock_class] (sys/lock.h): one field per [LC_*] bit
    the code tests. *)
Record class_flags := ClassFlags {
  LC_SLEEPLOCK : bool;
  LC_SPINLOCK : bool;
  LC_SLEEPABLE : bool;
  LC_RECURSABLE : bool
}.

Record lock_class := LockClass {
  lc_name : string;
  lc_flags : class_flags
}.

(** [lo_flags] of [struct lock_object]: one field per [LO_*] bit. *)
Record object_flags := ObjectFlags {
  LO_INITIALIZED : bool;
  LO_WITNESS : bool;
  LO_RECURSABLE : bool;
  LO_SLEEPABLE : bool;
  LO_LOCKED : bool;
  LO_RECURSED : bool
}.

(** The [flags] argument of [witness_lock] and [witness_unlock]. *)
Record op_flags := OpFlags {
  LOP_TRYLOCK : bool;
  LOP_NOSWITCH : bool
}.

(** [struct lock_object]; [lo_witness] is [None] for NULL. *)
Record lock_object := LockObject {
  lo_class : lock_class;
  lo_name : string;
  lo_file : option string;
  lo_line : Z;
  lo_flags : object_flags;
  lo_witness : option nat
}.

(** [struct witness].  [w_children] is the chain of
    [witness_child_list_entry] chunks, each chunk the first [wcl_count]
    slots of its [wcl_children] array.  The two list links are kept in the
    global lists below. *)
Record witness := Witness {
  w_name : string;
  w_class : lock_class;
  w_children : list (list nat);
  w_file : option string;
  w_line : Z;
  w_level : Z;
  w_refcount : Z;
  w_Giant_squawked : bool;
  w_other_squawked : bool;
  w_same_squawked : bool
}.

#[global] Instance class_flags_eq_dec : EqDecision class_flags.
Proof. solve_decision. Defined.
#[global] Instance lock_class_eq_dec : EqDecision lock_class.
Proof. solve_decision. Defined.
#[global] Instance object_flags_eq_dec : EqDecision object_flags.
Proof. solve_decision. Defined.
#[global] Instance lock_object_eq_dec : EqDecision lock_object.
Proof. solve_decision. Defined.
#[global] Instance witness_eq_dec : EqDecision witness.
Proof. solve_decision. Defined.

Definition WITNESS_COUNT : nat := 200.
Definition WITNESS_CHILDCOUNT : nat := WITNESS_COUNT * 4.
Definition WITNESS_NCHILDREN : nat := 6.

(** What [bzero] leaves in a [struct witness]. *)
Definition zero_class : lock_class :=
  LockClass "" (ClassFlags false false false false).
Definition zero_witness : witness :=
  Witness "" zero_class [] None 0 0 0 false false false.
Definition zero_lock : lock_object :=
  LockObject zero_class "" None 0
    (ObjectFlags false false false false false false) None.

#[global] Instance witness_inhabited : Inhabited witness := populate zero_witness.
#[global] Instance lock_object_inhabited : Inhabited lock_object := populate zero_lock.

(** The address of [Giant.mtx_object]. *)
Definition Giant : nat := 0%nat.

(** What the code prints, one constructor per [printf] group. *)
Inductive event :=
| EvDuplicate (w : nat) (name : string) (file1 : option string) (line1 : Z)
    (file2 : string) (line2 : Z)
| EvReversal (w w1 : nat) (lock1 lock : nat) (file : string) (line : Z)
| EvExhausted (func : string)
| EvSleep (check_only : bool) (lock1 : nat) (file : string) (line : Z).

Inductive outcome (A : Type) :=
| Ok (a : A)
| Panic (msg : string)
| Fault (what : string)
| Diverge.
Arguments Ok {A} a.
Arguments Panic {A} msg.
Arguments Fault {A} what.
Arguments Diverge {A}.

(** [Panic] is a call of [panic]; [Fault] is a store through a NULL pointer
    or past the end of an array; [Diverge] is a recursion that does not
    come back (the descent of the child graph on a cycle). *)

#[global] Instance outcome_ret : MRet outcome := λ A a, Ok a.
#[global] Instance outcome_bind : MBind outcome := λ A B k m,
  match m with
  | Ok a => k a
  | Panic msg => Panic msg
  | Fault what => Fault what
  | Diverge => Diverge
  end.

(** The global variables of the verifier, the lock heap and the per-process
    and per-CPU lists of held locks. *)
Record state := State {
  witness_watch : Z;
  witness_skipspin : Z;
  witness_cold : bool;
  witness_dead : bool;
  panicstr : bool;
  w_data : list witness;
  w_free : list nat;
  w_all : list nat;
  w_spin : list nat;
  w_sleep : list nat;
  w_child_free : nat;
  w_lock_list_free : nat;
  recursed : bool;
  locks : gmap nat lock_object;
  all_locks : list nat;
  lock_cur_cnt : Z;
  lock_max_cnt : Z;
  p_sleeplocks : gmap nat (list (list nat));
  spinlocks : gmap nat (list (list nat));
  console : list event
}.

Definition wit (st : state) (w : nat) : witness := w_data st !!! w.
Definition lock_at (st : state) (l : nat) : lock_object :=
  default zero_lock (locks st !! l).
Definition sleeplocks_of (st : state) (p : nat) : list (list nat) :=
  default [] (p_sleeplocks st !! p).
Definition spinlocks_of (st : state) (cpu : nat) : list (list nat) :=
  default [] (spinlocks st !! cpu).

(** Field updates. *)
Definition set_dead (st : state) : state :=
  State (witness_watch st) (witness_skipspin st) (witness_cold st) true
    (panicstr st) (w_data st) (w_free st) (w_all st) (w_spin st) (w_sleep st)
    (w_child_free st) (w_lock_list_free st) (recursed st) (locks st)
    (all_locks st) (lock_cur_cnt st) (lock_max_cnt st) (p_sleeplocks st)
    (spinlocks st) (console st).
Definition set_cold (b : bool) (st : state) : state :=
  State (witness_watch st) (witness_skipspin st) b (witness_dead st)
    (panicstr st) (w_data st) (w_free st) (w_all st) (w_spin st) (w_sleep st)
    (w_child_free st) (w_lock_list_free st) (recursed st) (locks st)
    (all_locks st) (lock_cur_cnt st) (lock_max_cnt st) (p_sleeplocks st)
    (spinlocks st) (console st).
Definition set_w_data (d : list witness) (st : state) : state :=
  State (witness_watch st) (witness_skipspin st) (witness_cold st)
    (witness_dead st) (panicstr st) d (w_free st) (w_all st) (w_spin st)
    (w_sleep st) (w_child_free st) (w_lock_list_free st) (recursed st)
    (locks st) (all_locks st) (lock_cur_cnt st) (lock_max_cnt st)
    (p_sleeplocks st) (spinlocks st) (console st).
Definition set_w_free (l : list nat) (st : state) : state :=
  State (witness_watch st) (witness_skipspin st) (witness_cold st)
    (witness_dead st) (panicstr st) (w_data st) l (w_all st) (w_spin st)
    (w_sleep st) (w_child_free st) (w_lock_list_free st) (recursed st)
    (locks st) (all_locks st) (lock_cur_cnt st) (lock_max_cnt st)
    (p_sleeplocks st) (spinlocks st) (console st).
Definition set_w_all (l : list nat) (st : state) : state :=
  State (witness_watch st) (witness_skipspin st) (witness_cold st)
    (witness_dead st) (panicstr st) (w_data st) (w_free st) l (w_spin st)
    (w_sleep st) (w_child_free st) (w_lock_list_free st) (recursed st)
    (locks st) (all_locks st) (lock_cur_cnt st) (lock_max_cnt st)
    (p_sleeplocks st) (spinlocks st) (console st).
Definition set_w_spin (l : list nat) (st : state) : state :=
  State (witness_watch st) (witness_skipspin st) (witness_cold st)
    (witness_dead st) (panicstr st) (w_data st) (w_free st) (w_all st) l
    (w_sleep st) (w_child_free st) (w_lock_list_free st) (recursed st)
    (locks st) (all_locks st) (lock_cur_cnt st) (lock_max_cnt st)
    (p_sleeplocks st) (spinlocks st) (console st).
Definition set_w_sleep (l : list nat) (st : state) : state :=
  State (witness_watch st) (witness_skipspin st) (witness_cold st)
    (witness_dead st) (panicstr st) (w_data st) (w_free st) (w_all st)
    (w_spin st) l (w_child_free st) (w_lock_list_free st) (recursed st)
    (locks st) (all_locks st) (lock_cur_cnt st) (lock_max_cnt st)
    (p_sleeplocks st) (spinlocks st) (console st).
Definition set_w_child_free (n : nat) (st : state) : state :=
  State (witness_watch st) (witness_skipspin st) (witness_cold st)
    (witness_dead st) (panicstr st) (w_data st) (w_free st) (w_all st)
    (w_spin st) (w_sleep st) n (w_lock_list_free st) (recursed st)
    (locks st) (all_locks st) (lock_cur_cnt st) (lock_max_cnt st)
    (p_sleeplocks st) (spinlocks st) (console st).
Definition set_w_lock_list_free (n : nat) (st : state) : state :=
  State (witness_watch st) (witness_skipspin st) (witness_cold st)
    (witness_dead st) (panicstr st) (w_data st) (w_free st) (w_all st)
    (w_spin st) (w_sleep st) (w_child_free st) n (recursed st)
    (locks st) (all_locks st) (lock_cur_cnt st) (lock_max_cnt st)
    (p_sleeplocks st) (spinlocks st) (console st).
Definition set_recursed (b : bool) (st : state) : state :=
  State (witness_watch st) (witness_skipspin st) (witness_cold st)
    (witness_dead st) (panicstr st) (w_data st) (w_free st) (w_all st)
    (w_spin st) (w_sleep st) (w_child_free st) (w_lock_list_free st) b
    (locks st) (all_locks st) (lock_cur_cnt st) (lock_max_cnt st)
    (p_sleeplocks st) (spinlocks st) (console st).
Definition set_locks (m : gmap nat lock_object) (st : state) : state :=
  State (witness_watch st) (witness_skipspin st) (witness_cold st)
    (witness_dead st) (panicstr st) (w_data st) (w_free st) (w_all st)
    (w_spin st) (w_sleep st) (w_child_free st) (w_lock_list_free st)
    (recursed st) m (all_locks st) (lock_cur_cnt st) (lock_max_cnt st)
    (p_sleeplocks st) (spinlocks st) (console st).
Definition set_all_locks (l : list nat) (cur mx : Z) (st : state) : state :=
  State (witness_watch st) (witness_skipspin st) (witness_cold st)
    (witness_dead st) (panicstr st) (w_data st) (w_free st) (w_all st)
    (w_spin st) (w_sleep st) (w_child_free st) (w_lock_list_free st)
    (recursed st) (locks st) l cur mx (p_sleeplocks st) (spinlocks st)
    (console st).
Definition set_p_sleeplocks (m : gmap nat (list (list nat))) (st : state)
    : state :=
  State (witness_watch st) (witness_skipspin st) (witness_cold st)
    (witness_dead st) (panicstr st) (w_data st) (w_free st) (w_all st)
    (w_spin st) (w_sleep st) (w_child_free st) (w_lock_list_free st)
    (recursed st) (locks st) (all_locks st) (lock_cur_cnt st)
    (lock_max_cnt st) m (spinlocks st) (console st).
Definition set_spinlocks (m : gmap nat (list (list nat))) (st : state)
    : state :=
  State (witness_watch st) (witness_skipspin st) (witness_cold st)
    (witness_dead st) (panicstr st) (w_data st) (w_free st) (w_all st)
    (w_spin st) (w_sleep st) (w_child_free st) (w_lock_list_free st)
    (recursed st) (locks st) (all_locks st) (lock_cur_cnt st)
    (lock_max_cnt st) (p_sleeplocks st) m (console st).
Definition print (e : event) (st : state) : state :=
  State (witness_watch st) (witness_skipspin st) (witness_cold st)
    (witness_dead st) (panicstr st) (w_data st) (w_free st) (w_all st)
    (w_spin st) (w_sleep st) (w_child_free st) (w_lock_list_free st)
    (recursed st) (locks st) (all_locks st) (lock_cur_cnt st)
    (lock_max_cnt st) (p_sleeplocks st) (spinlocks st) (console st ++ [e]).

(** [*w = v] and [*lock = v]. *)
Definition set_wit (w : nat) (v : witness) (st : state) : state :=
  set_w_data (<[w := v]> (w_data st)) st.
Definition set_lock (l : nat) (v : lock_object) (st : state) : state :=
  set_locks (<[l := v]> (locks st)) st.

Definition with_children (c : list (list nat)) (w : witness) : witness :=
  Witness (w_name w) (w_class w) c (w_file w) (w_line w) (w_level w)
    (w_refcount w) (w_Giant_squawked w) (w_other_squawked w)
    (w_same_squawked w).
Definition with_site (file : option string) (line : Z) (w : witness)
    : witness :=
  Witness (w_name w) (w_class w) (w_children w) file line (w_level w)
    (w_refcount w) (w_Giant_squawked w) (w_other_squawked w)
    (w_same_squawked w).
Definition with_level (n : Z) (w : witness) : witness :=
  Witness (w_name w) (w_class w) (w_children w) (w_file w) (w_line w) n
    (w_refcount w) (w_Giant_squawked w) (w_other_squawked w)
    (w_same_squawked w).
Definition with_refcount (n : Z) (w : witness) : witness :=
  Witness (w_name w) (w_class w) (w_children w) (w_file w) (w_line w)
    (w_level w) n (w_Giant_squawked w) (w_other_squawked w)
    (w_same_squawked w).
Definition with_name (s : string) (w : witness) : witness :=
  Witness s (w_class w) (w_children w) (w_file w) (w_line w) (w_level w)
    (w_refcount w) (w_Giant_squawked w) (w_other_squawked w)
    (w_same_squawked w).
Definition with_Giant_squawked (w : witness) : witness :=
  Witness (w_name w) (w_class w) (w_children w) (w_file w) (w_line w)
    (w_level w) (w_refcount w) true (w_other_squawked w) (w_same_squawked w).
Definition with_other_squawked (w : witness) : witness :=
  Witness (w_name w) (w_class w) (w_children w) (w_file w) (w_line w)
    (w_level w) (w_refcount w) (w_Giant_squawked w) true (w_same_squawked w).
Definition with_same_squawked (w : witness) : witness :=
  Witness (w_name w) (w_class w) (w_children w) (w_file w) (w_line w)
    (w_level w) (w_refcount w) (w_Giant_squawked w) (w_other_squawked w) true.

Definition lock_with_site (file : option string) (line : Z)
    (l : lock_object) : lock_object :=
  LockObject (lo_class l) (lo_name l) file line (lo_flags l) (lo_witness l).
Definition lock_with_witness (w : option nat) (l : lock_object)
    : lock_object :=
  LockObject (lo_class l) (lo_name l) (lo_file l) (lo_line l) (lo_flags l) w.
Definition lock_with_flags (f : object_flags) (l : lock_object)
    : lock_object :=
  LockObject (lo_class l) (lo_name l) (lo_file l) (lo_line l) f (lo_witness l).

(** Unsigned 32-bit arithmetic of the [u_int] fields. *)
Definition u_int (z : Z) : Z := z mod 2 ^ 32.

(** ** Pools *)

(** [witness_get]. *)
Definition witness_get (st : state) : option nat * state :=
  match w_free st with
  | [] => (None, print (EvExhausted "witness_get") (set_dead st))
  | w :: rest => (Some w, set_wit w zero_witness (set_w_free rest st))
  end.

(** [witness_free]. *)
Definition witness_free (w : nat) (st : state) : state :=
  set_w_free (w :: w_free st) st.

(** [witness_child_get]: [true] for a chunk, [false] for NULL. *)
Definition witness_child_get (st : state) : bool * state :=
  match w_child_free st with
  | O => (false, print (EvExhausted "witness_child_get") (set_dead st))
  | S n => (true, set_w_child_free n st)
  end.

(** [witness_child_free]. *)
Definition witness_child_free (st : state) : state :=
  set_w_child_free (S (w_child_free st)) st.

(** [witness_lock_list_get]: [true] for a chunk, [false] for NULL. *)
Definition witness_lock_list_get (st : state) : bool * state :=
  match w_lock_list_free st with
  | O => (false, print (EvExhausted "witness_lock_list_get") (set_dead st))
  | S n => (true, set_w_lock_list_free n st)
  end.

(** [witness_lock_list_free]. *)
Definition witness_lock_list_free (st : state) : state :=
  set_w_lock_list_free (S (w_lock_list_free st)) st.

(** ** The child graph *)

(** [isitmychild]: the two loops over the chunks and their slots. *)
Definition isitmychild (st : state) (parent child : nat) : bool :=
  existsb (λ wcl, existsb (Nat.eqb child) wcl) (w_children (wit st parent)).

(** The loop `for each child slot: if (f(slot)) return 1' with a callee
    that may not come back. *)
Fixpoint first_true (f : nat → outcome bool) (l : list nat) : outcome bool :=
  match l with
  | [] => Ok false
  | x :: l' => b ← f x; if b : bool then Ok true else first_true f l'
  end.

(** [isitmydescendant], by recursion on the depth of the descent. *)
Fixpoint isitmydescendant_rec (depth : nat) (st : state) (parent child : nat)
    : outcome bool :=
  match depth with
  | O => Diverge
  | S d =>
      if isitmychild st parent child then Ok true
      else first_true (λ c, isitmydescendant_rec d st c child)
             (concat (w_children (wit st parent)))
  end.

(** A descent through distinct witnesses is at most [WITNESS_COUNT] deep; a
    deeper one is on a cycle, where the C recursion does not end. *)
Definition isitmydescendant (st : state) (parent child : nat) : outcome bool :=
  isitmydescendant_rec WITNESS_COUNT st parent child.

(** The index of the first slot of a chunk that holds [x]. *)
Fixpoint slot_of (x : nat) (wcl : list nat) : option nat :=
  match wcl with
  | [] => None
  | y :: wcl' => if Nat.eqb y x then Some O else S <$> slot_of x wcl'
  end.

(** [removechild] at the chunk found: the count goes down by one and the
    last slot moves into the hole. *)
Definition remove_slot (i : nat) (wcl : list nat) : list nat :=
  let count := (length wcl - 1)%nat in
  if (i <? count)%nat
  then <[i := default O (wcl !! count)]> (take count wcl)
  else take count wcl.

(** The search of [removechild] along the chain; the flag tells that the
    chunk became empty and was unlinked. *)
Fixpoint removechild_chain (child : nat) (chain : list (list nat))
    : option (list (list nat) * bool) :=
  match chain with
  | [] => None
  | wcl :: rest =>
      match slot_of child wcl with
      | Some i =>
          let wcl' := remove_slot i wcl in
          if (length wcl' =? 0)%nat then Some (rest, true)
          else Some (wcl' :: rest, false)
      | None =>
          match removechild_chain child rest with
          | Some (rest', freed) => Some (wcl :: rest', freed)
          | None => None
          end
      end
  end.

(** [removechild]. *)
Definition removechild (st : state) (parent child : nat) : state :=
  match removechild_chain child (w_children (wit st parent)) with
  | None => st
  | Some (chain, freed) =>
      let st1 := set_wit parent (with_children chain (wit st parent)) st in
      if freed then witness_child_free st1 else st1
  end.

(** The walk of [itismychild] to the first chunk that is not full, and the
    store into it; [None] when the walk ends at the NULL link. *)
Fixpoint insert_chain (child : nat) (chain : list (list nat))
    : outcome (option (list (list nat))) :=
  match chain with
  | [] => Ok None
  | wcl :: rest =>
      if (length wcl =? WITNESS_NCHILDREN)%nat then
        r ← insert_chain child rest;
        Ok (option_map (cons wcl) r)
      else if (WITNESS_NCHILDREN <? length wcl)%nat then
        Fault "wcl_children"
      else Ok (Some ((wcl ++ [child]) :: rest))
  end.

Definition same_lock_type (a b : lock_class) : bool :=
  bool_decide
    ((LC_SLEEPLOCK (lc_flags a), LC_SPINLOCK (lc_flags a)) =
     (LC_SLEEPLOCK (lc_flags b), LC_SPINLOCK (lc_flags b))).

(** A C loop over a list whose body may panic or not come back. *)
Fixpoint for_each {A} (l : list A) (body : A → state → outcome state)
    (st : state) : outcome state :=
  match l with
  | [] => Ok st
  | x :: l' => s ← body x st; for_each l' body s
  end.

(** [witness_leveldescendents]. *)
Fixpoint witness_leveldescendents_rec (depth : nat) (parent : nat)
    (level : Z) (st : state) : outcome state :=
  match depth with
  | O => Diverge
  | S d =>
      let p := wit st parent in
      let st1 :=
        if w_level p <? level then set_wit parent (with_level level p) st
        else st in
      for_each (concat (w_children p))
        (λ c, witness_leveldescendents_rec d c (level + 1)) st1
  end.

Definition witness_leveldescendents (parent : nat) (level : Z) (st : state)
    : outcome state :=
  witness_leveldescendents_rec WITNESS_COUNT parent level st.

(** [witness_levelall]. *)
Definition witness_levelall (st : state) : outcome state :=
  let st1 :=
    foldl (λ s w, set_wit w (with_level 0 (wit s w)) s) st (w_all st) in
  for_each (w_all st)
    (λ w s,
      let list :=
        if LC_SLEEPLOCK (lc_flags (w_class (wit s w)))
        then w_sleep s else w_spin s in
      if existsb (λ w1, isitmychild s w1 w) list then Ok s
      else witness_leveldescendents w 0 s)
    st1.

(** One step of the pruning pass of [itismychild]; [self] is the nested
    call of [itismychild]. *)
Definition prune_pair (self : nat → nat → state → outcome (Z * state))
    (child parent : nat) (st : state) : outcome state :=
  if negb (isitmychild st parent child) then Ok st
  else
    let st1 := removechild st parent child in
    b ← isitmydescendant st1 parent child;
    if b : bool then Ok st1
    else r ← self parent child st1; Ok r.2.

(** The first part of [itismychild]: the store of [child] into the first
    chunk of [parent] that is not full, or into a new chunk at the end of
    the chain; [None] when the pool of chunks is empty. *)
Definition insert_child (parent child : nat) (st : state)
    : outcome (option state) :=
  r ← insert_chain child (w_children (wit st parent));
  match r with
  | Some chain =>
      Ok (Some (set_wit parent (with_children chain (wit st parent)) st))
  | None =>
      let '(got, st') := witness_child_get st in
      if got : bool
      then Ok (Some (set_wit parent
                 (with_children (w_children (wit st' parent) ++ [[child]])
                    (wit st' parent)) st'))
      else Ok None
  end.

(** The body of [itismychild]. *)
Definition itismychild_at (self : nat → nat → state → outcome (Z * state))
    (parent child : nat) (st : state) : outcome (Z * state) :=
  if negb (same_lock_type (w_class (wit st parent)) (w_class (wit st child)))
  then Panic "itismychild: parent and child are not the same lock type"
  else
    inserted ← insert_child parent child st;
    match inserted with
    | None => Ok (1, (witness_child_get st).2)
    | Some st1 =>
        if recursed st1 then Ok (0, st1)
        else
          let st2 := set_recursed true st1 in
          let list :=
            if LC_SLEEPLOCK (lc_flags (w_class (wit st2 parent)))
            then w_sleep st2 else w_spin st2 in
          st3 ← for_each list
                  (λ child, for_each list (prune_pair self child)) st2;
          st4 ← witness_levelall (set_recursed false st3);
          Ok (0, st4)
    end.

(** [itismychild].  The nested call runs with [recursed] set and returns
    before the pruning pass, so that two levels of the body are the whole
    recursion. *)
Definition itismychild_nested : nat → nat → state → outcome (Z * state) :=
  itismychild_at (λ _ _ _, Diverge).
Definition itismychild : nat → nat → state → outcome (Z * state) :=
  itismychild_at itismychild_nested.

(** The [STAILQ_FOREACH] of [enroll] over [w_all]. *)
Definition find_witness (st : state) (description : string) : option nat :=
  List.find (λ w, String.eqb description (w_name (wit st w))) (w_all st).

(** [enroll]. *)
Definition enroll (description : string) (lock_class : lock_class)
    (st : state) : outcome (option nat * state) :=
  if witness_watch st =? 0 then Ok (None, st)
  else if LC_SPINLOCK (lc_flags lock_class) && negb (witness_skipspin st =? 0)
  then Ok (None, st)
  else
    match find_witness st description with
    | Some w =>
        let st1 :=
          set_wit w
            (with_refcount (u_int (w_refcount (wit st w) + 1)) (wit st w)) st in
        if bool_decide (lock_class ≠ w_class (wit st1 w))
        then Panic "lock does not match earlier lock"
        else Ok (Some w, st1)
    | None =>
        if LC_SPINLOCK (lc_flags lock_class) && negb (witness_cold st)
        then Panic "spin lock not in order list"
        else
          match witness_get st with
          | (None, st1) => Ok (None, st1)
          | (Some w, st1) =>
              let st2 :=
                set_wit w
                  (with_refcount 1
                    (Witness description lock_class (w_children (wit st1 w))
                       (w_file (wit st1 w)) (w_line (wit st1 w))
                       (w_level (wit st1 w)) (w_refcount (wit st1 w))
                       (w_Giant_squawked (wit st1 w))
                       (w_other_squawked (wit st1 w))
                       (w_same_squawked (wit st1 w)))) st1 in
              let st3 := set_w_all (w :: w_all st2) st2 in
              if LC_SPINLOCK (lc_flags lock_class)
              then Ok (Some w, set_w_spin (w :: w_spin st3) st3)
              else if LC_SLEEPLOCK (lc_flags lock_class)
              then Ok (Some w, set_w_sleep (w :: w_sleep st3) st3)
              else Panic "lock class is not sleep or spin"
          end
    end.

(** [dup_list] and [dup_ok]. *)
Definition dup_list : list string := ["process lock"].

Definition dup_ok (st : state) (w : nat) : bool :=
  existsb (String.eqb (w_name (wit st w))) dup_list.

(** The loop of [blessed] over a table of blessed pairs. *)
Fixpoint blessed_in (tbl : list (string * string)) (n1 n2 : string) : bool :=
  match tbl with
  | [] => false
  | (b_lock1, b_lock2) :: tbl' =>
      if String.eqb n1 b_lock1 then
        if String.eqb n2 b_lock2 then true else blessed_in tbl' n1 n2
      else if String.eqb n1 b_lock2 && String.eqb n2 b_lock1 then true
      else blessed_in tbl' n1 n2
  end.

(** The order in which [witness_lock], [witness_sleep] and
    [witness_list_locks] visit a list of held locks: chunk after chunk from
    the head, each chunk from its last slot down. *)
Definition held_scan (chain : list (list nat)) : list nat :=
  concat (map reverse chain).

(** The search of [witness_unlock]: chunk after chunk from the head, each
    chunk from slot 0 up; the slots above the match move down by one; the
    flag tells that the chunk became empty and was unlinked. *)
Fixpoint unlock_chain (lock : nat) (chain : list (list nat))
    : option (list (list nat) * bool) :=
  match chain with
  | [] => None
  | lle :: rest =>
      match slot_of lock lle with
      | Some i =>
          let lle' := delete i lle in
          if (length lle' =? 0)%nat then Some (rest, true)
          else Some (lle' :: rest, false)
      | None =>
          match unlock_chain lock rest with
          | Some (rest', freed) => Some (lle :: rest', freed)
          | None => None
          end
      end
  end.

(** Modelled from the spec: the three lock classes that the order list
    names are defined outside these sources (kern_mutex.c, kern_sx.c).  The
    two mutex classes are blockable and non-blockable and allow recursion;
    the sx class is blockable and may be held across a sleep. *)
Definition lock_class_mtx_sleep : lock_class :=
  LockClass "mutex-sleep" (ClassFlags true false false true).
Definition lock_class_mtx_spin : lock_class :=
  LockClass "mutex-spin" (ClassFlags false true false true).
Definition lock_class_sx : lock_class :=
  LockClass "sx" (ClassFlags true false true false).

(** [order_lists], one list for each run of entries up to a NULL entry;
    [i386] and [smp] stand for the preprocessor conditions. *)
Definition order_lists (i386 smp : bool)
    : list (list (string * lock_class)) :=
  [ [ ("Giant", lock_class_mtx_sleep);
      ("proctree", lock_class_sx);
      ("allproc", lock_class_sx);
      ("process lock", lock_class_mtx_sleep);
      ("uidinfo hash", lock_class_mtx_sleep);
      ("uidinfo struct", lock_class_mtx_sleep) ];
    (if i386 && smp then [("com", lock_class_mtx_spin)] else [])
    ++ [("sio", lock_class_mtx_spin)]
    ++ (if i386 then [("cy", lock_class_mtx_spin)] else [])
    ++ [ ("ng_node", lock_class_mtx_spin);
         ("ng_worklist", lock_class_mtx_spin);
         ("ithread table lock", lock_class_mtx_spin);
         ("ithread list lock", lock_class_mtx_spin);
         ("sched lock", lock_class_mtx_spin) ]
    ++ (if i386 then [("clk", lock_class_mtx_spin)] else [])
    ++ [("callout", lock_class_mtx_spin)]
    ++ (if smp
        then (if i386
              then [("ap boot", lock_class_mtx_spin);
                    ("imen", lock_class_mtx_spin)]
              else [])
             ++ [("smp rendezvous", lock_class_mtx_spin)]
        else []) ].

(** The addresses of [all_mtx.mtx_object] and [w_mtx.mtx_object]. *)
Definition all_mtx : nat := 1%nat.
Definition w_mtx : nat := 2%nat.

(** The four stores of [witness_lock] after the label [out]: the site of
    the acquisition goes into the witness and into the lock. *)
Definition sited (lock w : nat) (file : string) (line : Z) (st : state)
    : state :=
  let st1 := set_wit w (with_site (Some file) line (wit st w)) st in
  set_lock lock (lock_with_site (Some file) line (lock_at st1 lock)) st1.

(** The held locks that [witness_sleep] counts: not the lock passed in, not
    [Giant], not marked [LO_SLEEPABLE]. *)
Definition unsafe_held (st : state) (lock : option nat) (held : list nat)
    : list nat :=
  filter (λ lock1, Some lock1 ≠ lock ∧ lock1 ≠ Giant
                   ∧ LO_SLEEPABLE (lo_flags (lock_at st lock1)) = false) held.

(** The held locks that are not the lock passed in and are not marked
    [LO_SLEEPABLE], [Giant] among them. *)
Definition unsafe_held_with_Giant (st : state) (lock : option nat)
    (held : list nat) : list nat :=
  filter (λ lock1, Some lock1 ≠ lock
                   ∧ LO_SLEEPABLE (lo_flags (lock_at st lock1)) = false) held.

(** ** The order graph *)

(** The children of a witness, chunk after chunk, and the relation
    `[child] is a direct child of [parent]'. *)
Definition kids (st : state) (parent : nat) : list nat :=
  concat (w_children (wit st parent)).

Definition edge (st : state) : relation nat :=
  λ parent child, child ∈ kids st parent.

(** No witness is its own descendant. *)
Definition acyclic (st : state) : Prop := ∀ x, ¬ tc (edge st) x x.

(** No direct child of a witness is also reached through another of its
    children: no edge is made redundant by a longer path. *)
Definition reduced (st : state) : Prop :=
  ∀ parent other child,
    edge st parent child → edge st parent other →
    ¬ tc (edge st) other child.

(** Every descent from [x] along the children [g] ends within [n] calls. *)
Fixpoint height_ok (g : nat → list nat) (n : nat) (x : nat) : Prop :=
  match n with
  | O => False
  | S n' => ∀ c, c ∈ g x → height_ok g n' c
  end.

(** ** Well-formed states *)

(** A lock class is a sleep class or a spin class, not both. *)
Definition class_ok (c : lock_class) : Prop :=
  LC_SLEEPLOCK (lc_flags c) ≠ LC_SPINLOCK (lc_flags c).

(** The lists of witnesses and the lock heap: the free list and [w_all]
    hold distinct slots of [w_data]; [w_sleep] and [w_spin] hold witnesses
    of [w_all] of a sleep class and of a spin class; the witness of a lock
    is in [w_all]. *)
Record registry_ok (st : state) : Prop := {
  reg_length : length (w_data st) = WITNESS_COUNT;
  reg_nodup : NoDup (w_free st ++ w_all st);
  reg_valid : ∀ w, w ∈ w_free st ++ w_all st → (w < WITNESS_COUNT)%nat;
  reg_typelists : ∀ w, w ∈ w_sleep st ∨ w ∈ w_spin st ↔ w ∈ w_all st;
  reg_sleep : ∀ w, w ∈ w_sleep st →
    LC_SLEEPLOCK (lc_flags (w_class (wit st w))) = true;
  reg_spin : ∀ w, w ∈ w_spin st →
    LC_SLEEPLOCK (lc_flags (w_class (wit st w))) = false;
  reg_locks : ∀ l obj w,
    locks st !! l = Some obj → lo_witness obj = Some w → w ∈ w_all st;
  reg_lock_class : ∀ l obj,
    locks st !! l = Some obj → LO_WITNESS (lo_flags obj) = true →
    class_ok (lo_class obj)
}.

(** The order graph: every edge is inside [w_sleep] or inside [w_spin], no
    child is listed twice, there is no cycle. *)
Record graph_ok (st : state) : Prop := {
  gr_edges : ∀ p c, edge st p c →
    (p ∈ w_sleep st ∧ c ∈ w_sleep st) ∨ (p ∈ w_spin st ∧ c ∈ w_spin st);
  gr_nodup : ∀ p, NoDup (kids st p);
  gr_acyclic : acyclic st
}.

(** The edge from [p] to [c], if there is one, is not redundant. *)
Definition irredundant (st : state) (p c : nat) : Prop :=
  edge st p c → ∀ other, edge st p other → ¬ tc (edge st) other c.

Record wf (st : state) : Prop := {
  wf_registry : registry_ok st;
  wf_graph : graph_ok st;
  wf_reduced : reduced st;
  wf_recursed : recursed st = false
}.

(** [st'] differs from [st] at most in fields of witnesses other than the
    class and the squawk flags, in the pool of child chunks, in
    [witness_dead] and [recursed], and in lines of the console that report
    an empty pool. *)
Record frame (st st' : state) : Prop := {
  fr_length : length (w_data st') = length (w_data st);
  fr_class : ∀ x, w_class (wit st' x) = w_class (wit st x);
  fr_name : ∀ x, w_name (wit st' x) = w_name (wit st x);
  fr_free : w_free st' = w_free st;
  fr_all : w_all st' = w_all st;
  fr_sleep : w_sleep st' = w_sleep st;
  fr_spin : w_spin st' = w_spin st;
  fr_locks : locks st' = locks st;
  fr_Giant : ∀ x, w_Giant_squawked (wit st' x) = w_Giant_squawked (wit st x);
  fr_other : ∀ x, w_other_squawked (wit st' x) = w_other_squawked (wit st x);
  fr_same : ∀ x, w_same_squawked (wit st' x) = w_same_squawked (wit st x);
  fr_console : ∃ evs, console st' = console st ++ evs
                      ∧ Forall (λ e, ∃ f, e = EvExhausted f) evs;
  fr_sleeplocks : p_sleeplocks st' = p_sleeplocks st;
  fr_spinlocks : spinlocks st' = spinlocks st;
  fr_lock_pool : w_lock_list_free st' = w_lock_list_free st;
  fr_config : (witness_watch st', witness_skipspin st', witness_cold st',
               panicstr st')
              = (witness_watch st, witness_skipspin st, witness_cold st,
                 panicstr st)
}.

(** [v] is [w] up to its children, site, level and reference count. *)
Definition keeps (v w : witness) : Prop :=
  w_class v = w_class w ∧ w_name v = w_name w
  ∧ w_Giant_squawked v = w_Giant_squawked w
  ∧ w_other_squawked v = w_other_squawked w
  ∧ w_same_squawked v = w_same_squawked w.

(** From [st] to [st'] a witness that is in use stays in use and keeps its
    squawk flags, and the console gets at most lines that report an empty
    pool. *)
Definition flags_kept (st st' : state) : Prop :=
  (∀ x, x ∉ w_free st →
        (x ∉ w_free st')
        ∧ w_Giant_squawked (wit st' x) = w_Giant_squawked (wit st x)
        ∧ w_other_squawked (wit st' x) = w_other_squawked (wit st x)
        ∧ w_same_squawked (wit st' x) = w_same_squawked (wit st x))
  ∧ ∃ evs, console st' = console st ++ evs
           ∧ Forall (λ e, ∃ f, e = EvExhausted f) evs.

(** [st'] is [st] with other sites, levels or reference counts in some
    witnesses. *)
Definition relabel (st st' : state) : Prop :=
  st' = set_w_data (w_data st') st
  ∧ length (w_data st') = length (w_data st)
  ∧ ∀ x, keeps (wit st' x) (wit st x)
         ∧ w_children (wit st' x) = w_children (wit st x).

(** ** Reports on the console *)

(** The lines that report a duplicate acquisition or an order reversal. *)
Definition is_report (e : event) : bool :=
  match e with
  | EvDuplicate _ _ _ _ _ _ | EvReversal _ _ _ _ _ _ => true
  | _ => false
  end.

(** The duplicate reports about the witness [w]. *)
Definition is_duplicate (w : nat) (e : event) : bool :=
  match e with
  | EvDuplicate w' _ _ _ _ _ => bool_decide (w' = w)
  | _ => false
  end.


(** The reversal reports against the held witness [w1]; [giant] tells
    whether the held lock is [Giant]. *)
Definition is_reversal (w1 : nat) (giant : bool) (e : event) : bool :=
  match e with
  | EvReversal _ w1' lock1 _ _ _ =>
      bool_decide (w1' = w1) && bool_decide (bool_decide (lock1 = Giant) = giant)
  | _ => false
  end.

(** The reversal reports about the pair of the acquired witness [w] and
    the held witness [w1]. *)
Definition is_reversal_of_pair (w w1 : nat) (e : event) : bool :=
  match e with
  | EvReversal w' w1' _ _ _ _ => bool_decide (w' = w) && bool_decide (w1' = w1)
  | _ => false
  end.

Definition count (f : event → bool) (evs : list event) : nat :=
  length (List.filter f evs).

(** The squawk flag that a reversal against a held lock tests. *)
Definition reversal_squawked (giant : bool) (x : witness) : bool :=
  if giant then w_Giant_squawked x else w_other_squawked x.

(** The reports that a flag of the witness [w] still allows: none once the
    flag of a witness in use is set. *)
Definition budget (flag : witness → bool) (st : state) (w : nat) : nat :=
  if bool_decide (w ∉ w_free st) && flag (wit st w) then 0 else 1.

(** From [st] to [st'] no witness is put back on the free list, no squawk
    flag of a witness in use changes and nothing is reported. *)
Definition quiet (st st' : state) : Prop :=
  (∀ x, x ∉ w_free st →
        (x ∉ w_free st')
        ∧ w_Giant_squawked (wit st' x) = w_Giant_squawked (wit st x)
        ∧ w_other_squawked (wit st' x) = w_other_squawked (wit st x)
        ∧ w_same_squawked (wit st' x) = w_same_squawked (wit st x))
  ∧ ∃ evs, console st' = console st ++ evs
           ∧ Forall (λ e, is_report e = false) evs.

(** From [st] to [st'] every report is paid for by a squawk flag. *)
Definition accounted (st st' : state) : Prop :=
  ∃ evs, console st' = console st ++ evs
    ∧ (∀ w, (count (is_duplicate w) evs + budget w_same_squawked st' w
             ≤ budget w_same_squawked st w)%nat)
    ∧ (∀ w1 giant,
         (count (is_reversal w1 giant) evs
          + budget (reversal_squawked giant) st' w1
          ≤ budget (reversal_squawked giant) st w1)%nat).

Section Witness.

(** [MAXCPU] (machine/param.h) and the length [LOCK_NCHILDREN] of the
    [ll_children] array of [struct lock_list_entry] (sys/lock.h) are
    declared outside these sources; the table of blessed pairs is empty in
    this file and is kept as a table. *)
Variable MAXCPU : nat.
Variable LOCK_NCHILDREN : nat.
Variable blessed_list : list (string * string).

Definition LOCK_CHILDCOUNT : nat := (MAXCPU + 1024) * 2.

(** [blessed]. *)
Definition blessed (st : state) (w1 w2 : nat) : bool :=
  blessed_in blessed_list (w_name (wit st w1)) (w_name (wit st w2)).

(** Which list of held locks a lock of the class goes to, and the store
    back into it. *)
Definition lock_list_of (class : lock_class) (p cpu : nat) (st : state)
    : list (list nat) :=
  if LC_SLEEPLOCK (lc_flags class) then sleeplocks_of st p
  else spinlocks_of st cpu.

Definition set_lock_list (class : lock_class) (p cpu : nat)
    (chain : list (list nat)) (st : state) : state :=
  if LC_SLEEPLOCK (lc_flags class)
  then set_p_sleeplocks (<[p := chain]> (p_sleeplocks st)) st
  else set_spinlocks (<[cpu := chain]> (spinlocks st)) st.

(** The part of [witness_lock] after the label [out].  The result of
    [witness_lock_list_get] is stored into the head of the list before it is
    tested: when the pool is empty the list is cut off. *)
Definition witness_lock_out (lock : nat) (w : nat) (class : lock_class)
    (file : string) (line : Z) (p cpu : nat) (st : state) : outcome state :=
  let st2 := sited lock w file line st in
  let chain := lock_list_of class p cpu st2 in
  let fresh :=
    match chain with
    | [] => true
    | lle :: _ => (length lle =? LOCK_CHILDCOUNT)%nat
    end in
  if fresh then
    let '(got, st3) := witness_lock_list_get st2 in
    if got : bool then
      if (LOCK_NCHILDREN <=? 0)%nat then Fault "ll_children"
      else Ok (set_lock_list class p cpu ([lock] :: chain) st3)
    else Ok (set_lock_list class p cpu [] st3)
  else
    match chain with
    | [] => Ok st2
    | lle :: rest =>
        if (LOCK_NCHILDREN <=? length lle)%nat then Fault "ll_children"
        else Ok (set_lock_list class p cpu ((lle ++ [lock]) :: rest) st2)
    end.

(** The loop of [witness_lock] over the held locks: the first entry, in the
    order of the scan, whose witness is a descendant of [w]. *)
Fixpoint find_reversal (st : state) (w : nat) (held : list nat)
    : outcome (option (nat * nat)) :=
  match held with
  | [] => Ok None
  | lock1 :: held' =>
      match lo_witness (lock_at st lock1) with
      | None => find_reversal st w held'
      | Some w1 =>
          b ← isitmydescendant st w w1;
          if b : bool then Ok (Some (lock1, w1)) else find_reversal st w held'
      end
  end.

(** The check of [witness_lock] between the test of the first lock and the
    label [out]: duplicate, known order, reversal, new order. *)
Definition witness_lock_check (lock : nat) (w : nat) (file : string)
    (line : Z) (chain : list (list nat)) (st : state) : outcome state :=
  match chain with
  | [] => Ok st
  | lle :: _ =>
      match last lle with
      | None => Fault "ll_children"
      | Some lock1 =>
          match lo_witness (lock_at st lock1) with
          | None =>
              (* [w1 == w] is false and [w1->w_level] is read through NULL *)
              Fault "lock1->lo_witness"
          | Some w1 =>
              if bool_decide (w1 = w) then
                if w_same_squawked (wit st w) || dup_ok st w then Ok st
                else
                  let st1 := set_wit w (with_same_squawked (wit st w)) st in
                  Ok (print (EvDuplicate w (lo_name (lock_at st1 lock))
                               (w_file (wit st1 w)) (w_line (wit st1 w))
                               file line) st1)
              else if (1 <? witness_watch st)
                      && (w_level (wit st w1) <? w_level (wit st w))
              then Ok st
              else
                known ← isitmydescendant st w1 w;
                if known : bool then Ok st
                else
                  found ← find_reversal st w (held_scan chain);
                  match found with
                  | Some (lock1, w1) =>
                      if blessed st w w1 then Ok st
                      else if bool_decide (lock1 = Giant) then
                        if w_Giant_squawked (wit st w1) then Ok st
                        else
                          let st1 :=
                            set_wit w1 (with_Giant_squawked (wit st w1)) st in
                          Ok (print (EvReversal w w1 lock1 lock file line) st1)
                      else
                        if w_other_squawked (wit st w1) then Ok st
                        else
                          let st1 :=
                            set_wit w1 (with_other_squawked (wit st w1)) st in
                          Ok (print (EvReversal w w1 lock1 lock file line) st1)
                  | None => r ← itismychild w1 w st; Ok r.2
                  end
          end
      end
  end.

(** What a line on the console tells about the acquisition that printed
    it: of [lock], with the witness [w], while the locks of [chain] were
    held, in the state [st]. *)
Definition report_ok (lock w : nat) (chain : list (list nat)) (st : state)
    (e : event) : Prop :=
  match e with
  | EvDuplicate w' _ _ _ _ _ =>
      w' = w ∧ w_same_squawked (wit st w) = false ∧ dup_ok st w = false
      ∧ ∃ lle rest lock1,
          chain = lle :: rest ∧ last lle = Some lock1
          ∧ lo_witness (lock_at st lock1) = Some w
  | EvReversal w' w1 lock1 lock' _ _ =>
      w' = w ∧ lock' = lock ∧ lock1 ∈ held_scan chain
      ∧ lo_witness (lock_at st lock1) = Some w1
      ∧ tc (edge st) w w1 ∧ blessed st w w1 = false
      ∧ reversal_squawked (bool_decide (lock1 = Giant)) (wit st w1) = false
  | _ => True
  end.

(** [witness_lock], called by process [p] running on [cpu]. *)
Definition witness_lock (lock : nat) (flags : op_flags) (file : string)
    (line : Z) (p cpu : nat) (st : state) : outcome state :=
  match lo_witness (lock_at st lock) with
  | None => Ok st
  | Some w =>
      if witness_cold st || witness_dead st || panicstr st then Ok st
      else
        let class := lo_class (lock_at st lock) in
        if negb (LO_LOCKED (lo_flags (lock_at st lock)))
        then Panic "witness_lock: lock is not locked"
        else if LO_RECURSED (lo_flags (lock_at st lock)) then
          if negb (LO_RECURSABLE (lo_flags (lock_at st lock)))
          then Panic "witness_lock: recursed on non-recursive lock"
          else Ok st
        else if LC_SLEEPLOCK (lc_flags class)
                && negb (bool_decide (spinlocks_of st cpu = []))
        then Panic "blockable sleep lock"
        else
          st1 ← (if LOP_TRYLOCK flags then Ok st
                 else witness_lock_check lock w file line
                        (lock_list_of class p cpu st) st);
          witness_lock_out lock w class file line p cpu st1
  end.

(** [witness_unlock]. *)
Definition witness_unlock (lock : nat) (flags : op_flags) (file : string)
    (line : Z) (p cpu : nat) (st : state) : outcome state :=
  match lo_witness (lock_at st lock) with
  | None => Ok st
  | Some _ =>
      if witness_cold st || witness_dead st || panicstr st then Ok st
      else
        let class := lo_class (lock_at st lock) in
        if LO_RECURSED (lo_flags (lock_at st lock)) then
          if negb (LO_LOCKED (lo_flags (lock_at st lock)))
          then Panic "witness_unlock: recursed lock is not locked"
          else Ok st
        else if LC_SLEEPLOCK (lc_flags class) && negb (LOP_NOSWITCH flags)
                && negb (bool_decide (spinlocks_of st cpu = []))
        then Panic "switchable sleep unlock"
        else
          match unlock_chain lock (lock_list_of class p cpu st) with
          | None => Ok st
          | Some (chain, freed) =>
              let st1 := set_lock_list class p cpu chain st in
              Ok (if freed then witness_lock_list_free st1 else st1)
          end
  end.

(** The loop of [witness_sleep] over one list of held locks. *)
Fixpoint sleep_scan (st : state) (check_only : bool) (lock : option nat)
    (file : string) (line : Z) (held : list nat) (n : Z) (out : list event)
    : Z * list event :=
  match held with
  | [] => (n, out)
  | lock1 :: held' =>
      if bool_decide (Some lock1 = lock) || bool_decide (lock1 = Giant)
         || LO_SLEEPABLE (lo_flags (lock_at st lock1))
      then sleep_scan st check_only lock file line held' n out
      else sleep_scan st check_only lock file line held' (n + 1)
             (out ++ [EvSleep check_only lock1 file line])
  end.

(** [witness_sleep]; [lock] is [None] for a NULL argument. *)
Definition witness_sleep (check_only : bool) (lock : option nat)
    (file : string) (line : Z) (p cpu : nat) (st : state) : Z * state :=
  if witness_dead st || panicstr st then (0, st)
  else
    let '(n1, out1) :=
      sleep_scan st check_only lock file line
        (held_scan (sleeplocks_of st p)) 0 [] in
    let '(n2, out2) :=
      sleep_scan st check_only lock file line
        (held_scan (spinlocks_of st cpu)) n1 out1 in
    (n2, foldl (λ s e, print e s) st out2).

(** [witness_init] on the lock object at [lock], whose class, name and
    flags the caller has filled in. *)
Definition witness_init (lock : nat) (st : state) : outcome state :=
  let l := lock_at st lock in
  let class := lo_class l in
  if LO_INITIALIZED (lo_flags l)
  then Panic "witness_init: lock is already initialized"
  else if LO_RECURSABLE (lo_flags l) && negb (LC_RECURSABLE (lc_flags class))
  then Panic "witness_init: lock can not be recursable"
  else if LO_SLEEPABLE (lo_flags l) && negb (LC_SLEEPABLE (lc_flags class))
  then Panic "witness_init: lock can not be sleepable"
  else
    let f := lo_flags l in
    let l1 :=
      lock_with_flags
        (ObjectFlags true (LO_WITNESS f) (LO_RECURSABLE f) (LO_SLEEPABLE f)
           (LO_LOCKED f) (LO_RECURSED f)) l in
    let cur := lock_cur_cnt st + 1 in
    let st1 :=
      set_all_locks (all_locks st ++ [lock]) cur
        (if lock_max_cnt st <? cur then cur else lock_max_cnt st)
        (set_lock lock l1 st) in
    if negb (witness_cold st1) && negb (witness_dead st1) && LO_WITNESS f
    then
      '(w, st2) ← enroll (lo_name l1) class st1;
      Ok (set_lock lock (lock_with_witness w (lock_at st2 lock)) st2)
    else Ok (set_lock lock (lock_with_witness None l1) st1).

(** [witness_destroy]. *)
Definition witness_destroy (lock : nat) (st : state) : outcome state :=
  let l := lock_at st lock in
  if witness_cold st then Panic "lock destroyed while witness_cold"
  else if negb (LO_INITIALIZED (lo_flags l))
  then Panic "witness_destroy: lock is not initialized"
  else if LO_LOCKED (lo_flags l) then Panic "lock destroyed while held"
  else
    let st1 :=
      match lo_witness l with
      | None => st
      | Some w =>
          let w1 := with_refcount (u_int (w_refcount (wit st w) - 1))
                      (wit st w) in
          set_wit w
            (if w_refcount w1 =? 0
             then with_site (Some "(dead)") 0 (with_name "(dead)" w1)
             else w1) st
      end in
    Ok (set_lock lock
          (lock_with_flags
             (ObjectFlags (LO_INITIALIZED (lo_flags l)) false false false
                false false) l)
          (set_all_locks (filter (λ x, x ≠ lock) (all_locks st1))
             (lock_cur_cnt st1 - 1) (lock_max_cnt st1) st1)).

(** [witness_restore]. *)
Definition witness_restore (lock : nat) (file : option string) (line : Z)
    (st : state) : state :=
  match lo_witness (lock_at st lock) with
  | None => st
  | Some w =>
      let st1 := set_wit w (with_site file line (wit st w)) st in
      set_lock lock (lock_with_site file line (lock_at st1 lock)) st1
  end.

(** The inner loop of [witness_initialize] over one run of the order list:
    [w] is the witness of the entry before. *)
Fixpoint order_chain (w : nat) (l : list (string * lock_class)) (st : state)
    : outcome state :=
  match l with
  | [] => Ok st
  | (name, class) :: l' =>
      '(r, st1) ← enroll name class st;
      match r with
      | None => Fault "w1->w_file"
      | Some w1 =>
          let st2 :=
            set_wit w1 (with_site (Some "order list") (w_line (wit st1 w1))
                          (wit st1 w1)) st1 in
          '(_, st3) ← itismychild w w1 st2;
          order_chain w1 l' st3
      end
  end.

(** The outer loop. *)
Definition order_run (l : list (string * lock_class)) (st : state)
    : outcome state :=
  match l with
  | [] => Ok st
  | (name, class) :: l' =>
      '(r, st1) ← enroll name class st;
      match r with
      | None => Fault "w->w_file"
      | Some w =>
          order_chain w l'
            (set_wit w (with_site (Some "order list") (w_line (wit st1 w))
                          (wit st1 w)) st1)
      end
  end.

(** The loop of [witness_initialize] over [all_locks]. *)
Definition enroll_lock (lock : nat) (st : state) : outcome state :=
  if LO_WITNESS (lo_flags (lock_at st lock)) then
    '(w, st1) ← enroll (lo_name (lock_at st lock))
                  (lo_class (lock_at st lock)) st;
    Ok (set_lock lock (lock_with_witness w (lock_at st1 lock)) st1)
  else Ok (set_lock lock (lock_with_witness None (lock_at st lock)) st).

(** [witness_initialize].  The release and the acquisition of [Giant]
    around it go through the mutex code and are steps of their own. *)
Definition witness_initialize (i386 smp : bool) (st : state)
    : outcome state :=
  let st1 :=
    set_all_locks (all_mtx :: all_locks st) (lock_cur_cnt st)
      (lock_max_cnt st)
      (set_lock all_mtx
         (LockObject lock_class_mtx_sleep "All locks list" None 0
            (ObjectFlags true false false false false false) None) st) in
  st2 ← witness_init w_mtx
          (set_lock w_mtx
             (LockObject lock_class_mtx_spin "witness lock" None 0
                (ObjectFlags false false false false false false) None) st1);
  let st3 := foldl (λ s i, witness_free i s) st2 (seq 0 WITNESS_COUNT) in
  let st4 :=
    foldl (λ s _, witness_child_free s) st3 (seq 0 WITNESS_CHILDCOUNT) in
  let st5 :=
    foldl (λ s _, witness_lock_list_free s) st4 (seq 0 LOCK_CHILDCOUNT) in
  st6 ← for_each (order_lists i386 smp) order_run st5;
  st7 ← for_each (all_locks st6) enroll_lock st6;
  Ok (set_cold false st7).

(** ** Runs *)

(** The calls into the verifier.  [OpInit] is a lock primitive that clears
    a lock object at an address that holds no live lock, fills in its
    class, name and flags and calls [witness_init]; [OpHeld] is a lock
    primitive that sets the two state bits of a lock object before it calls
    the verifier. *)
Inductive op :=
| OpInit (lock : nat) (class : lock_class) (name : string)
    (flags : object_flags)
| OpDestroy (lock : nat)
| OpLock (lock : nat) (flags : op_flags) (file : string) (line : Z)
    (p cpu : nat)
| OpUnlock (lock : nat) (flags : op_flags) (file : string) (line : Z)
    (p cpu : nat)
| OpSleep (check_only : bool) (lock : option nat) (file : string) (line : Z)
    (p cpu : nat)
| OpRestore (lock : nat) (file : option string) (line : Z)
| OpHeld (lock : nat) (locked recursed : bool).

Definition step (o : op) (st : state) : outcome state :=
  match o with
  | OpInit lock class name flags =>
      if bool_decide (lock ∈ all_locks st) then witness_init lock st
      else witness_init lock
             (set_lock lock (LockObject class name None 0 flags None) st)
  | OpDestroy lock => witness_destroy lock st
  | OpLock lock flags file line p cpu =>
      witness_lock lock flags file line p cpu st
  | OpUnlock lock flags file line p cpu =>
      witness_unlock lock flags file line p cpu st
  | OpSleep check_only lock file line p cpu =>
      Ok (witness_sleep check_only lock file line p cpu st).2
  | OpRestore lock file line => Ok (witness_restore lock file line st)
  | OpHeld lock locked recursed =>
      let l := lock_at st lock in
      let f := lo_flags l in
      Ok (set_lock lock
            (lock_with_flags
               (ObjectFlags (LO_INITIALIZED f) (LO_WITNESS f)
                  (LO_RECURSABLE f) (LO_SLEEPABLE f) locked recursed) l) st)
  end.

(** A sequence of calls, stopped by the first that does not return. *)
Definition run (ops : list op) (st : state) : outcome state :=
  for_each ops step st.

(** A watched lock is of a sleep class or of a spin class. *)
Definition op_ok (o : op) : Prop :=
  match o with
  | OpInit _ class _ flags => LO_WITNESS flags = true → class_ok class
  | _ => True
  end.

(** The globals of the kernel image before [witness_initialize]: the
    static data are zero, the locks that exist were initialized while
    [witness_cold] and have no witness. *)
Record cold_boot (st : state) : Prop := {
  cb_cold : witness_cold st = true;
  cb_dead : witness_dead st = false;
  cb_data : w_data st = replicate WITNESS_COUNT zero_witness;
  cb_free : w_free st = [];
  cb_all : w_all st = [];
  cb_spin : w_spin st = [];
  cb_sleep : w_sleep st = [];
  cb_pools : w_child_free st = O ∧ w_lock_list_free st = O;
  cb_recursed : recursed st = false;
  cb_held : p_sleeplocks st = ∅ ∧ spinlocks st = ∅;
  cb_witness : ∀ l obj, locks st !! l = Some obj → lo_witness obj = None;
  cb_class : ∀ l obj, locks st !! l = Some obj →
    LO_WITNESS (lo_flags obj) = true → class_ok (lo_class obj)
}.

(** The states of the verifier: [witness_initialize] on the kernel image,
    then any calls that return. *)
Inductive reachable : state → Prop :=
| reachable_boot i386 smp st0 st :
    cold_boot st0 → witness_initialize i386 smp st0 = Ok st → reachable st
| reachable_step o st st' :
    reachable st → op_ok o → step o st = Ok st' → reachable st'.

End Witness.


(** ** Nested acquisitions *)



(** [witness_lock] and [witness_unlock] get as far as the lists of held
    locks: the lock is watched and not marked recursed, the verifier is not
    cold and there was no panic. *)
Definition tracked (st : state) (lock : nat) : bool :=
  match lo_witness (lock_at st lock) with
  | None => false
  | Some _ =>
      negb (witness_cold st) && negb (panicstr st)
      && negb (LO_RECURSED (lo_flags (lock_at st lock)))
  end.

(** The lock objects keep their witness, class and flags. *)
Definition same_locks (st st' : state) : Prop :=
  witness_cold st' = witness_cold st ∧ panicstr st' = panicstr st
  ∧ ∀ l, lo_witness (lock_at st' l) = lo_witness (lock_at st l)
         ∧ lo_class (lock_at st' l) = lo_class (lock_at st l)
         ∧ lo_flags (lock_at st' l) = lo_flags (lock_at st l).

(** The two tunables are as they were. *)
Definition same_config (st st' : state) : Prop :=
  witness_watch st' = witness_watch st
  ∧ witness_skipspin st' = witness_skipspin st.
(** ** Example states *)

(** The globals as the kernel image has them, with checking enabled. *)
Definition boot_state : state :=
  State 1 0 true false false (replicate WITNESS_COUNT zero_witness)
    [] [] [] [] 0 0 false ∅ [] 0 0 ∅ ∅ [].

(** The state after [witness_initialize] on a uniprocessor. *)
Definition booted : state :=
  match witness_initialize 1 false false boot_state with
  | Ok st => st
  | _ => boot_state
  end.

(** A sleep mutex at address [l], initialized, watched, locked. *)
Definition held_mutex (name : string) (w : option nat) : lock_object :=
  LockObject lock_class_mtx_sleep name None 0
    (ObjectFlags true true false false true false) w.

(** A spin mutex likewise. *)
Definition held_spin_mutex (name : string) (w : option nat) : lock_object :=
  LockObject lock_class_mtx_spin name None 0
    (ObjectFlags true true false false true false) w.

(** An sx lock that may be held across a sleep. *)
Definition held_sx (name : string) (w : option nat) : lock_object :=
  LockObject lock_class_sx name None 0
    (ObjectFlags true true false true true false) w.

(** The flags of a new watched lock, and of one that may be held across a
    sleep. *)
Definition new_flags : object_flags :=
  ObjectFlags false true false false false false.
Definition new_sleepable_flags : object_flags :=
  ObjectFlags false true false true false false.

Definition no_flags : op_flags := OpFlags false false.
Definition try_flags : op_flags := OpFlags true false.


(** A watched sleep mutex "foo" at address 10, initialized after boot and
    marked locked by its owner, on no list of held locks. *)
Definition c3_state : state :=
  match run 1 6 []
          [OpInit 10 lock_class_mtx_sleep "foo" new_flags;
           OpHeld 10 true false] booted with
  | Ok st => st
  | _ => booted
  end.

(** The result of a run from [booted], or [booted] if it does not return. *)
Definition after (ops : list op) : state :=
  match run 1 6 [] ops booted with
  | Ok st => st
  | _ => booted
  end.

(** Process 0 on CPU 0 holds the sleep mutex "foo" at address 10. *)
Definition c10_state : state :=
  after [OpInit 10 lock_class_mtx_sleep "foo" new_flags;
         OpHeld 10 true false;
         OpLock 10 no_flags "a.c" 1 0 0].

(** Process 0 on CPU 0 holds the sleepable sx lock "allproc" at address 11
    and the spin mutex "sched lock" at address 12. *)
Definition c6_state : state :=
  after [OpInit 11 lock_class_sx "allproc" new_sleepable_flags;
         OpHeld 11 true false;
         OpLock 11 no_flags "a.c" 1 0 0;
         OpInit 12 lock_class_mtx_spin "sched lock" new_flags;
         OpHeld 12 true false;
         OpLock 12 no_flags "a.c" 2 0 0].

(** Process 0 holds [Giant]. *)
Definition c6_Giant_state : state :=
  after [OpInit Giant lock_class_mtx_sleep "Giant" new_flags;
         OpHeld Giant true false;
         OpLock Giant no_flags "a.c" 1 0 0].

(** The sx lock "allproc" at address 20 is held shared by the processes
    1 to 2050, each of which took a chunk for its list: with [MAXCPU] 1 the
    pool of [LOCK_CHILDCOUNT] = 2050 chunks is empty. *)
Definition c9_ops : list op :=
  [OpInit 20 lock_class_sx "allproc" new_sleepable_flags; OpHeld 20 true false]
  ++ map (λ p, OpLock 20 no_flags "a.c" 1 p 0) (seq 1 2050).
Definition c9_state : state := after c9_ops.

(** The call returns, and its result satisfies [P]. *)
Definition returns {A} (P : A → Prop) (r : outcome A) : Prop :=
  match r with
  | Ok a => P a
  | _ => False
  end.

(** Process 0 takes the sleep mutex "foo" at address 10 and then the sleep
    mutex "bar" at address 11: the order foo before bar is learnt. *)
Definition c1_ops : list op :=
  [OpInit 10 lock_class_mtx_sleep "foo" new_flags;
   OpInit 11 lock_class_mtx_sleep "bar" new_flags;
   OpHeld 10 true false; OpLock 10 no_flags "a.c" 1 0 0;
   OpHeld 11 true false; OpLock 11 no_flags "a.c" 2 0 0].
Definition c1_state : state := after c1_ops.

(** Two sleep mutexes carry the name "Giant", [Giant] itself and the one
    at address 30, and share a witness; "foo" is at address 10.  Process 1
    takes "foo" and then [Giant]: the order foo before Giant is learnt.
    Process 2 takes [Giant] and then "foo"; process 3 takes the mutex at
    address 30 and then "foo". *)
Definition c4_learn : list op :=
  [OpInit Giant lock_class_mtx_sleep "Giant" new_flags;
   OpInit 30 lock_class_mtx_sleep "Giant" new_flags;
   OpInit 10 lock_class_mtx_sleep "foo" new_flags;
   OpHeld 10 true false; OpLock 10 no_flags "a.c" 1 1 0;
   OpHeld Giant true false; OpLock Giant no_flags "a.c" 2 1 0;
   OpUnlock Giant no_flags "a.c" 3 1 0; OpHeld Giant false false;
   OpUnlock 10 no_flags "a.c" 4 1 0; OpHeld 10 false false;
   OpHeld Giant true false; OpLock Giant no_flags "b.c" 1 2 0;
   OpHeld 10 true false].
Definition c4_ops : list op :=
  c4_learn ++
  [OpLock 10 no_flags "b.c" 2 2 0;
   OpUnlock 10 no_flags "b.c" 3 2 0; OpHeld 10 false false;
   OpUnlock Giant no_flags "b.c" 4 2 0; OpHeld Giant false false;
   OpHeld 30 true false; OpLock 30 no_flags "c.c" 1 3 0;
   OpHeld 10 true false; OpLock 10 no_flags "c.c" 2 3 0].
Definition c4_state : state := after c4_learn.





(** The flags of a new watched lock that may be acquired recursively. *)
Definition recursable_flags : object_flags :=
  ObjectFlags false true true false false false.

(** Process 0 holds the recursable sleep mutex "foo" at address 10 and has
    acquired it a second time: the owner marked it recursed. *)
Definition c10_recursed_state : state :=
  after [OpInit 10 lock_class_mtx_sleep "foo" recursable_flags;
         OpHeld 10 true false; OpLock 10 no_flags "a.c" 1 0 0;
         OpHeld 10 true true; OpLock 10 no_flags "a.c" 2 0 0].

(** ** The rest of the verifier *)

(** One line of [witness_list_locks]: the name of the class, the name of
    the lock, the lock, and the site it was last acquired at. *)
Record held_line := HeldLine {
  hl_class : string;
  hl_name : string;
  hl_lock : nat;
  hl_file : option string;
  hl_line : Z
}.

Definition held_line_of (st : state) (lock : nat) : held_line :=
  HeldLine (lc_name (lo_class (lock_at st lock))) (lo_name (lock_at st lock))
    lock (lo_file (lock_at st lock)) (lo_line (lock_at st lock)).

(** The two loops of [witness_list_locks] over one list of held locks, in
    the order of [held_scan]: the count so far and the lines printed so
    far. *)
Fixpoint list_scan (st : state) (held : list nat) (nheld : Z)
    (out : list held_line) : Z * list held_line :=
  match held with
  | [] => (nheld, out)
  | lock :: held' =>
      list_scan st held' (nheld + 1) (out ++ [held_line_of st lock])
  end.

(** [witness_list_locks]: the number of locks and the lines printed. *)
Definition witness_list_locks (st : state) (chain : list (list nat))
    : Z * list held_line :=
  list_scan st (held_scan chain) 0 [].

(** [witness_list] for the process [p], called by [curproc] running on
    [cpu]: the spin locks are listed only for the caller itself. *)
Definition witness_list (p curproc cpu : nat) (st : state)
    : Z * list held_line :=
  let '(n1, out1) := witness_list_locks st (sleeplocks_of st p) in
  if bool_decide (p = curproc) then
    let '(n2, out2) := witness_list_locks st (spinlocks_of st cpu) in
    (n1 + n2, out1 ++ out2)
  else (n1, out1).

(** [witness_save]: the site stored through [filep] and [linep], [None]
    when the lock is not watched and nothing is stored. *)
Definition witness_save (lock : nat) (st : state)
    : option (option string * Z) :=
  match lo_witness (lock_at st lock) with
  | None => None
  | Some _ => Some (lo_file (lock_at st lock), lo_line (lock_at st lock))
  end.

(** The process id that [db_witness_list] makes of the address that DDB
    parsed: [%] is the remainder of the truncating division, [>>] the
    arithmetic shift. *)
Definition db_pid (addr : Z) : Z :=
  Z.rem addr 16 + Z.rem (Z.shiftr addr 4) 16 * 10
  + Z.rem (Z.shiftr addr 8) 16 * 100 + Z.rem (Z.shiftr addr 12) 16 * 1000
  + Z.rem (Z.shiftr addr 16) 16 * 10000.

(** What the command `show locks' does: it reports that the process id is
    not known, or lists the locks of a process. *)
Inductive db_locks :=
| DbNotFound (pid : Z)
| DbLocks (lines : list held_line).

(** [db_witness_list]; [allproc] is the list of all processes, each with
    its [p_pid]. *)
Definition db_witness_list (have_addr : bool) (addr : Z)
    (allproc : list (nat * Z)) (curproc cpu : nat) (st : state) : db_locks :=
  if have_addr then
    let pid := db_pid addr in
    match List.find (λ pp, (pp.2 =? pid)) allproc with
    | Some pp => DbLocks (witness_list pp.1 curproc cpu st).2
    | None => DbNotFound pid
    end
  else DbLocks (witness_list curproc curproc cpu st).2.

(** The number that DDB, which reads numbers in base 16, makes of the
    decimal digits of [n]. *)
Definition typed_in_ddb (n : Z) : Z :=
  n mod 10 + (n / 10) mod 10 * 16 + (n / 100) mod 10 * 256
  + (n / 1000) mod 10 * 4096 + (n / 10000) mod 10 * 65536.

(** [w] has no parent in the order graph. *)
Definition parentless (st : state) (w : nat) : Prop := ∀ p, ¬ edge st p w.

(** [st'] is [st] with other levels in some witnesses. *)
Definition relevelled (st st' : state) : Prop :=
  st' = set_w_data (w_data st') st
  ∧ length (w_data st') = length (w_data st)
  ∧ ∀ x, wit st' x = with_level (w_level (wit st' x)) (wit st x).

(** The parents of [x] among the slots of [w_data]. *)
Definition parents (st : state) (x : nat) : list nat :=
  filter (λ p, x ∈ kids st p) (seq 0 WITNESS_COUNT).

(** ** The display of the order graph *)

(** What [witness_display] prints through [prnt]: the three headings, the
    line of one call of [witness_displaydescendants] (the level, as many
    blanks, the name and, when the witness has a site, the site and the
    end of the line), and the name of a witness that was never acquired. *)
Inductive display_event :=
| DisplaySleepLocks
| DisplaySpinLocks
| DisplayNeverAcquired
| DisplayWitness (level : Z) (name : string) (file : option string) (line : Z)
| DisplayName (name : string).

(** The line that [witness_displaydescendants] prints for [w] itself. *)
Definition display_line (st : state) (w : nat) : display_event :=
  DisplayWitness (w_level (wit st w)) (w_name (wit st w))
    (w_file (wit st w)) (w_line (wit st w)).

(** A loop whose body prints. *)
Fixpoint display_each {A} (l : list A)
    (body : A → outcome (list display_event))
    : outcome (list display_event) :=
  match l with
  | [] => Ok []
  | x :: l' => out ← body x; rest ← display_each l' body; Ok (out ++ rest)
  end.

(** [witness_displaydescendants]. *)
Fixpoint witness_displaydescendants_rec (depth : nat) (st : state)
    (parent : nat) : outcome (list display_event) :=
  match depth with
  | O => Diverge
  | S d =>
      rest ← display_each (concat (w_children (wit st parent)))
                (witness_displaydescendants_rec d st);
      Ok (display_line st parent :: rest)
  end.

Definition witness_displaydescendants (st : state) (parent : nat)
    : outcome (list display_event) :=
  witness_displaydescendants_rec WITNESS_COUNT st parent.

(** [witness_display_list]. *)
Definition witness_display_list (st : state) (list : list nat)
    : outcome (Datatypes.list display_event) :=
  display_each list
    (λ w,
      match w_file (wit st w) with
      | None => Ok []
      | Some _ =>
          if existsb (λ w1, isitmychild st w1 w) list then Ok []
          else witness_displaydescendants st w
      end).

(** [witness_display]: what is printed, and the state with its new
    levels. *)
Definition witness_display (st : state)
    : outcome (list display_event * state) :=
  st1 ← witness_levelall st;
  sleep ← witness_display_list st1 (w_sleep st1);
  spin ← witness_display_list st1 (w_spin st1);
  Ok (DisplaySleepLocks :: sleep
      ++ DisplaySpinLocks :: spin
      ++ DisplayNeverAcquired
         :: map (λ w, DisplayName (w_name (wit st1 w)))
              (filter (λ w, w_file (wit st1 w) = None) (w_all st1)),
      st1).

(** [db_witness_display], the command `show witness' of DDB. *)
Definition db_witness_display (st : state)
    : outcome (list display_event * state) :=
  witness_display st.
(** * Properties *)

Section Properties.

Variable MAXCPU : nat.
Variable LOCK_NCHILDREN : nat.
Variable blessed_list : list (string * string).

Local Abbreviation witness_lock := (witness_lock MAXCPU LOCK_NCHILDREN blessed_list).
Local Abbreviation witness_lock_out := (witness_lock_out MAXCPU LOCK_NCHILDREN).
Local Abbreviation witness_lock_check := (witness_lock_check blessed_list).
Local Abbreviation step := (step MAXCPU LOCK_NCHILDREN blessed_list).
Local Abbreviation run := (run MAXCPU LOCK_NCHILDREN blessed_list).
Local Abbreviation sleeplock st w :=
  (LC_SLEEPLOCK (lc_flags (w_class (wit st w)))).
Local Abbreviation type_list st w :=
  (if sleeplock st w then w_sleep st else w_spin st).

(** *** Pool exhaustion and the dead flag *)

Lemma witness_lock_dead lock flags file line p cpu st :
  witness_dead st = true →
  witness_lock lock flags file line p cpu st = Ok st.
Proof.
  intros Hd. unfold witness_lock. rewrite Hd.
  destruct (lo_witness _); [|done].
  by rewrite orb_true_r.
Qed.

Lemma witness_unlock_dead lock flags file line p cpu st :
  witness_dead st = true →
  witness_unlock lock flags file line p cpu st = Ok st.
Proof.
  intros Hd. unfold witness_unlock. rewrite Hd.
  destruct (lo_witness _); [|done].
  by rewrite orb_true_r.
Qed.

(** C2: each of the three pool acquisitions, on an empty pool, sets
    [witness_dead], prints that the pool is exhausted and returns NULL, and
    changes nothing else; once [witness_dead] is set, [witness_lock] and
    [witness_unlock] return at once with the state (the console included)
    as it was. *)
Theorem C2_exhaustion_sets_dead_and_dead_is_inert (st : state) :
  (w_free st = [] →
     witness_get st = (None, print (EvExhausted "witness_get") (set_dead st)))
  ∧ (w_child_free st = O →
     witness_child_get st
       = (false, print (EvExhausted "witness_child_get") (set_dead st)))
  ∧ (w_lock_list_free st = O →
     witness_lock_list_get st
       = (false, print (EvExhausted "witness_lock_list_get") (set_dead st)))
  ∧ (∀ e, witness_dead (print e (set_dead st)) = true)
  ∧ (witness_dead st = true →
     ∀ lock flags file line p cpu,
       witness_lock lock flags file line p cpu st = Ok st
       ∧ witness_unlock lock flags file line p cpu st = Ok st).
Proof.
  repeat split.
  - intros H. unfold witness_get. by rewrite H.
  - intros H. unfold witness_child_get. by rewrite H.
  - intros H. unfold witness_lock_list_get. by rewrite H.
  - by apply witness_lock_dead.
  - by apply witness_unlock_dead.
Qed.

(** *** Searching a chunk and a chain of chunks *)

Lemma slot_of_None x l : slot_of x l = None ↔ x ∉ l.
Proof.
  induction l as [|y l IH]; simpl.
  - split; [intros _; apply not_elem_of_nil | done].
  - destruct (Nat.eqb_spec y x) as [->|Hne].
    + split; [done | intros H; destruct H; left].
    + rewrite not_elem_of_cons. destruct (slot_of x l); simpl.
      * split; [done | intros [_ H]; by apply IH in H].
      * split; [intros _; split; [congruence | by apply IH] | done].
Qed.

Lemma slot_of_Some x l i :
  slot_of x l = Some i → l !! i = Some x ∧ x ∉ take i l.
Proof.
  revert i. induction l as [|y l IH]; intros i; simpl; [done|].
  destruct (Nat.eqb_spec y x) as [->|Hne].
  - intros [= <-]. split; [done | apply not_elem_of_nil].
  - destruct (slot_of x l) as [j|]; simpl; [|done].
    intros [= <-]. destruct (IH j eq_refl) as [H1 H2]. split; [done|].
    simpl. rewrite not_elem_of_cons. split; [congruence | done].
Qed.

Lemma slot_of_app_l x l1 l2 i :
  slot_of x l1 = Some i → slot_of x (l1 ++ l2) = Some i.
Proof.
  revert i. induction l1 as [|y l1 IH]; intros i; simpl; [done|].
  destruct (Nat.eqb y x); [done|].
  destruct (slot_of x l1) as [j|]; simpl; [|done].
  intros [= <-]. by rewrite (IH j eq_refl).
Qed.

Lemma slot_of_app_r x l1 l2 :
  slot_of x l1 = None →
  slot_of x (l1 ++ l2) = (λ i, (length l1 + i)%nat) <$> slot_of x l2.
Proof.
  induction l1 as [|y l1 IH]; simpl.
  - intros _. by destruct (slot_of x l2).
  - destruct (Nat.eqb y x); [done|].
    destruct (slot_of x l1) as [j|] eqn:E; simpl; [done|].
    intros _. rewrite IH by done. by destruct (slot_of x l2).
Qed.

Lemma delete_app_lt {A} (l1 l2 : list A) i :
  (i < length l1)%nat → delete i (l1 ++ l2) = delete i l1 ++ l2.
Proof.
  revert i. induction l1 as [|a l1 IH]; intros [|i] H; simpl in *;
    [lia | lia | done | f_equal; apply IH; lia].
Qed.

Lemma delete_app_ge {A} (l1 l2 : list A) i :
  delete (length l1 + i)%nat (l1 ++ l2) = l1 ++ delete i l2.
Proof. induction l1 as [|a l1 IH]; simpl; [done | by f_equal]. Qed.

Lemma unlock_chain_None lock chain :
  unlock_chain lock chain = None ↔ lock ∉ concat chain.
Proof.
  induction chain as [|lle rest IH]; simpl.
  - split; [intros _; apply not_elem_of_nil | done].
  - rewrite not_elem_of_app.
    destruct (slot_of lock lle) as [i|] eqn:E.
    + apply slot_of_Some in E as [E _].
      apply list_elem_of_lookup_2 in E.
      split; [by destruct (Nat.eqb _ _) | tauto].
    + apply slot_of_None in E.
      destruct (unlock_chain lock rest) as [[rest' freed]|].
      * split; [done | intros [_ H]; by apply IH in H].
      * split; [intros _; split; [done | by apply IH] | done].
Qed.

(** What a successful search does to the chain. *)
Lemma unlock_chain_Some lock chain chain' freed :
  unlock_chain lock chain = Some (chain', freed) →
  ∃ pre lle post i,
    chain = (pre ++ (lle :: post)) ∧ (lock ∉ concat pre)
    ∧ slot_of lock lle = Some i
    ∧ (if freed then lle = [lock] ∧ chain' = pre ++ post
       else delete i lle ≠ [] ∧ chain' = pre ++ (delete i lle :: post)).
Proof.
  revert chain' freed.
  induction chain as [|lle rest IH]; intros chain' freed; simpl; [done|].
  destruct (slot_of lock lle) as [i|] eqn:E.
  - intros H. exists [], lle, rest, i. simpl.
    split; [done|]. split; [apply not_elem_of_nil|]. split; [done|].
    destruct (length (delete i lle) =? 0)%nat eqn:El.
    + injection H as <- <-. apply Nat.eqb_eq in El.
      apply slot_of_Some in E as [E _].
      destruct lle as [|a [|b lle]]; simpl in *.
      * done.
      * destruct i; simpl in *; [|done]. by injection E as ->.
      * destruct i; simpl in *; lia.
    + injection H as <- <-. apply Nat.eqb_neq in El.
      split; [|done]. by destruct (delete i lle).
  - destruct (unlock_chain lock rest) as [[rest' freed']|]; [|done].
    intros [= <- <-].
    destruct (IH rest' freed' eq_refl) as (pre & lle0 & post & i & -> & Hpre & Hs & Hres).
    exists (lle :: pre), lle0, post, i. simpl.
    split; [done|]. split.
    { rewrite not_elem_of_app. split; [by apply slot_of_None | done]. }
    split; [done|].
    destruct freed'; destruct Hres as [H1 ->]; done.
Qed.

Lemma lock_list_of_set class p cpu chain st :
  lock_list_of class p cpu (set_lock_list class p cpu chain st) = chain.
Proof.
  unfold lock_list_of, set_lock_list, sleeplocks_of, spinlocks_of.
  destruct (LC_SLEEPLOCK _); simpl; by rewrite lookup_insert_eq.
Qed.

(** *** Release *)

(** What [witness_unlock] does once it is past its tests: the search. *)
Lemma witness_unlock_checked lock flags file line p cpu st w :
  lo_witness (lock_at st lock) = Some w →
  witness_cold st = false → witness_dead st = false → panicstr st = false →
  LO_RECURSED (lo_flags (lock_at st lock)) = false →
  (LC_SLEEPLOCK (lc_flags (lo_class (lock_at st lock))) = true →
   LOP_NOSWITCH flags = false → spinlocks_of st cpu = []) →
  witness_unlock lock flags file line p cpu st =
    match unlock_chain lock
            (lock_list_of (lo_class (lock_at st lock)) p cpu st) with
    | None => Ok st
    | Some (chain, freed) =>
        let st1 := set_lock_list (lo_class (lock_at st lock)) p cpu chain st in
        Ok (if freed then witness_lock_list_free st1 else st1)
    end.
Proof.
  intros Hw Hc Hd Hp Hr Hsw. unfold witness_unlock.
  rewrite Hw, Hc, Hd, Hp, Hr. simpl.
  destruct (LC_SLEEPLOCK _) eqn:Es; simpl; [|done].
  destruct (LOP_NOSWITCH flags) eqn:En; simpl; [done|].
  rewrite (Hsw eq_refl eq_refl). by rewrite bool_decide_eq_true_2.
Qed.

(** C3, as the code has it: the release of a watched lock that is not
    recursed and is not on the list of held locks of the caller returns
    with the state as it was: no panic, no report.  (The one panic of a
    release that is not recursed is the `switchable sleep unlock' one, for a
    sleep lock released without [LOP_NOSWITCH] while the CPU holds spin
    locks; this is what the last hypothesis excludes.) *)
Theorem C3_release_not_held_returns lock flags file line p cpu st w :
  lo_witness (lock_at st lock) = Some w →
  LO_RECURSED (lo_flags (lock_at st lock)) = false →
  lock ∉ concat (lock_list_of (lo_class (lock_at st lock)) p cpu st) →
  (LC_SLEEPLOCK (lc_flags (lo_class (lock_at st lock))) = true →
   LOP_NOSWITCH flags = false → spinlocks_of st cpu = []) →
  witness_unlock lock flags file line p cpu st = Ok st.
Proof.
  intros Hw Hr Hn Hsw.
  destruct (witness_cold st || witness_dead st || panicstr st) eqn:E.
  - unfold witness_unlock. by rewrite Hw, E.
  - apply orb_false_elim in E as [E Hp]. apply orb_false_elim in E as [Hc Hd].
    rewrite (witness_unlock_checked _ _ _ _ _ _ _ w) by done.
    apply unlock_chain_None in Hn. by rewrite Hn.
Qed.

(** C10, as the code has it: a release returns before the search when the
    verifier is cold or dead, after a panic, and when the lock is not watched
    or is marked recursed.  A release of a held lock that gets to the search
    takes out the first entry that the search meets (chunks from the head,
    slots upwards), leaves the other entries where they were and in their
    order, and gives the chunk back to the pool exactly when the entry was
    the only one of its chunk; the lock objects, the witnesses and the
    console are not touched. *)
Theorem C10_unlock_removes_first_match lock flags file line p cpu st w :
  lo_witness (lock_at st lock) = Some w →
  witness_cold st = false → witness_dead st = false → panicstr st = false →
  LO_RECURSED (lo_flags (lock_at st lock)) = false →
  (LC_SLEEPLOCK (lc_flags (lo_class (lock_at st lock))) = true →
   LOP_NOSWITCH flags = false → spinlocks_of st cpu = []) →
  lock ∈ concat (lock_list_of (lo_class (lock_at st lock)) p cpu st) →
  ∃ pre lle post i st',
    let class := lo_class (lock_at st lock) in
    witness_unlock lock flags file line p cpu st = Ok st'
    ∧ lock_list_of class p cpu st = (pre ++ (lle :: post))
    ∧ (lock ∉ concat pre) ∧ slot_of lock lle = Some i
    ∧ slot_of lock (concat (lock_list_of class p cpu st))
        = Some (length (concat pre) + i)%nat
    ∧ concat (lock_list_of class p cpu st')
        = delete (length (concat pre) + i)%nat
            (concat (lock_list_of class p cpu st))
    ∧ (if bool_decide (lle = [lock])
       then lock_list_of class p cpu st' = pre ++ post
            ∧ w_lock_list_free st' = S (w_lock_list_free st)
       else lock_list_of class p cpu st' = pre ++ (delete i lle :: post)
            ∧ delete i lle ≠ []
            ∧ w_lock_list_free st' = w_lock_list_free st)
    ∧ locks st' = locks st ∧ w_data st' = w_data st
    ∧ console st' = console st.
Proof.
  intros Hw Hc Hd Hp Hr Hsw Hin.
  rewrite (witness_unlock_checked _ _ _ _ _ _ _ w) by done.
  destruct (unlock_chain lock _) as [[chain' freed]|] eqn:E.
  2: { apply unlock_chain_None in E. done. }
  destruct (unlock_chain_Some _ _ _ _ E) as (pre & lle & post & i & Hch & Hpre & Hs & Hres).
  exists pre, lle, post, i. eexists. simpl. split; [done|].
  split; [done|]. split; [done|]. split; [done|].
  assert (Hslot : slot_of lock (concat (pre ++ (lle :: post)))
                  = Some (length (concat pre) + i)%nat).
  { rewrite concat_app. rewrite slot_of_app_r by by apply slot_of_None.
    simpl. by rewrite (slot_of_app_l _ _ _ _ Hs). }
  rewrite Hch. split; [done|].
  assert (Hdel : ∀ l : list nat,
    concat pre ++ delete i lle ++ l
    = delete (length (concat pre) + i)%nat (concat pre ++ lle ++ l)).
  { intros l. rewrite delete_app_ge. f_equal.
    rewrite delete_app_lt; [done|].
    apply slot_of_Some in Hs as [Hs _]. by apply lookup_lt_Some in Hs. }
  destruct freed.
  - destruct Hres as [-> ->].
    rewrite bool_decide_eq_true_2 by done.
    assert (i = 0%nat) as -> by (simpl in Hs; rewrite Nat.eqb_refl in Hs; congruence).
    assert (Hll : ∀ s, lock_list_of (lo_class (lock_at st lock)) p cpu
                         (witness_lock_list_free s)
                       = lock_list_of (lo_class (lock_at st lock)) p cpu s)
      by done.
    rewrite !Hll, lock_list_of_set, !concat_app. simpl.
    split; [apply (Hdel (concat post))|]. split; [|].
    { split; [done|]. unfold set_lock_list. by destruct (LC_SLEEPLOCK _). }
    unfold set_lock_list. by destruct (LC_SLEEPLOCK _).
  - destruct Hres as [Hne ->].
    rewrite bool_decide_eq_false_2.
    2: { intros ->. simpl in Hs. rewrite Nat.eqb_refl in Hs.
         injection Hs as <-. done. }
    rewrite lock_list_of_set, !concat_app. simpl.
    split; [apply Hdel|]. split; [|].
    { split; [done|]. split; [done|].
      unfold set_lock_list. by destruct (LC_SLEEPLOCK _). }
    unfold set_lock_list. by destruct (LC_SLEEPLOCK _).
Qed.

(** *** About to sleep *)

Lemma sleep_scan_spec st check_only lock file line held n out :
  sleep_scan st check_only lock file line held n out =
    (n + Z.of_nat (length (unsafe_held st lock held)),
     out ++ map (λ lock1, EvSleep check_only lock1 file line)
              (unsafe_held st lock held)).
Proof.
  revert n out. induction held as [|lock1 held IH]; intros n out; simpl.
  - by rewrite Z.add_0_r, app_nil_r.
  - unfold unsafe_held. rewrite filter_cons. fold (unsafe_held st lock held).
    destruct (decide (Some lock1 = lock)) as [He|He].
    { rewrite bool_decide_eq_true_2 by done. simpl. rewrite IH.
      rewrite decide_False by tauto. done. }
    rewrite (bool_decide_eq_false_2 _ He). simpl.
    destruct (decide (lock1 = Giant)) as [Hg|Hg].
    { rewrite bool_decide_eq_true_2 by done. simpl. rewrite IH.
      rewrite decide_False by tauto. done. }
    rewrite (bool_decide_eq_false_2 _ Hg). simpl.
    destruct (LO_SLEEPABLE _) eqn:Es.
    { rewrite IH. rewrite decide_False; [done|]. intros (_ & _ & ?). done. }
    rewrite IH. rewrite decide_True by done. simpl.
    rewrite <- app_assoc. simpl. f_equal. lia.
Qed.

(** C6, as the code has it: when the verifier is not dead and the system
    is not panicking, [witness_sleep] returns the number of entries of the
    sleep-lock list of the process and of the spin-lock list of the CPU
    that are not the lock passed in, are not [Giant] and are not marked
    [LO_SLEEPABLE], and prints one line for each; a context that holds one
    spin lock (not [Giant], not the lock passed in, not sleepable) and one
    sleepable sleep lock gets 1. *)
Theorem C6_sleep_counts_unsafe_locks check_only lock file line p cpu st :
  witness_dead st = false → panicstr st = false →
  let held := held_scan (sleeplocks_of st p) ++ held_scan (spinlocks_of st cpu) in
  (witness_sleep check_only lock file line p cpu st).1
    = Z.of_nat (length (unsafe_held st lock held))
  ∧ console (witness_sleep check_only lock file line p cpu st).2
    = console st ++ map (λ lock1, EvSleep check_only lock1 file line)
                      (unsafe_held st lock held)
  ∧ (∀ s g,
       sleeplocks_of st p = [[g]] → spinlocks_of st cpu = [[s]] →
       LO_SLEEPABLE (lo_flags (lock_at st g)) = true →
       LO_SLEEPABLE (lo_flags (lock_at st s)) = false →
       s ≠ Giant → Some s ≠ lock →
       (witness_sleep check_only lock file line p cpu st).1 = 1).
Proof.
  intros Hd Hp held.
  assert (Hrun : witness_sleep check_only lock file line p cpu st =
    (Z.of_nat (length (unsafe_held st lock held)),
     foldl (λ s e, print e s) st
       (map (λ lock1, EvSleep check_only lock1 file line)
          (unsafe_held st lock held)))).
  { unfold witness_sleep. rewrite Hd, Hp. simpl.
    rewrite !sleep_scan_spec. simpl. subst held.
    unfold unsafe_held. rewrite filter_app, length_app, map_app.
    f_equal. lia. }
  rewrite Hrun. simpl. split; [done|]. split.
  - generalize (map (λ lock1, EvSleep check_only lock1 file line)
                  (unsafe_held st lock held)).
    intros evs. clear. revert st. induction evs as [|e evs IH]; intros st; simpl.
    + by rewrite app_nil_r.
    + rewrite IH. simpl. by rewrite <- app_assoc.
  - intros s g Hs Hc Hg Hns HsG Hsl. subst held. rewrite Hs, Hc.
    unfold held_scan, unsafe_held. simpl.
    rewrite filter_cons, decide_False by (intros (_ & _ & ?); congruence).
    rewrite filter_cons, decide_True by done. done.
Qed.

(** *** Reading and writing witnesses *)

Lemma wit_set_wit_eq w v st :
  (w < length (w_data st))%nat → wit (set_wit w v st) w = v.
Proof.
  intros H. unfold wit, set_wit. simpl.
  apply list_lookup_total_insert_eq. done.
Qed.

Lemma wit_set_wit_ne w w' v st :
  w ≠ w' → wit (set_wit w v st) w' = wit st w'.
Proof.
  intros H. unfold wit, set_wit. simpl.
  by apply list_lookup_total_insert_ne.
Qed.

Lemma wit_set_wit_ge w w' v st :
  (length (w_data st) ≤ w)%nat → wit (set_wit w v st) w' = wit st w'.
Proof.
  intros H. unfold wit, set_wit. simpl. by rewrite list_insert_ge.
Qed.

(** A store that keeps a field keeps it for every witness. *)
Lemma wit_set_wit_field {A} (f : witness → A) w w' v st :
  f v = f (wit st w) → f (wit (set_wit w v st) w') = f (wit st w').
Proof.
  intros H. destruct (decide (w = w')) as [<-|Hne].
  - destruct (decide (w < length (w_data st))%nat).
    + by rewrite wit_set_wit_eq.
    + rewrite wit_set_wit_ge; [done | lia].
  - by rewrite wit_set_wit_ne.
Qed.

(** *** Enrolling a name that is known *)

(** With checking enabled ([witness_watch] not 0) and the class not
    skipped (not a spin class while [witness_skipspin] is set), [enroll] of
    a name found in [w_all] with the class of the witness found adds one to
    its [u_int] reference count, changes nothing else and returns it; with
    another class it panics. *)
Lemma enroll_known_name description class st w :
  witness_watch st ≠ 0 →
  (LC_SPINLOCK (lc_flags class) = true → witness_skipspin st = 0) →
  find_witness st description = Some w →
  (class = w_class (wit st w) →
     enroll description class st
       = Ok (Some w,
             set_wit w
               (with_refcount (u_int (w_refcount (wit st w) + 1)) (wit st w))
               st))
  ∧ (class ≠ w_class (wit st w) →
     enroll description class st = Panic "lock does not match earlier lock").
Proof.
  intros Hw Hs Hf. unfold enroll.
  rewrite (proj2 (Z.eqb_neq _ _) Hw).
  assert (LC_SPINLOCK (lc_flags class) && negb (witness_skipspin st =? 0)
          = false) as ->.
  { destruct (LC_SPINLOCK _); [|done].
    rewrite (Hs eq_refl). done. }
  rewrite Hf.
  rewrite (wit_set_wit_field w_class) by done.
  split; intros Hc.
  - by rewrite bool_decide_eq_false_2 by (intros H; by apply H).
  - by rewrite bool_decide_eq_true_2.
Qed.

(** *** Acquisition: the part after [out] *)

Lemma held_scan_push lle rest (lock : nat) :
  held_scan ((lle ++ [lock]) :: rest) = lock :: held_scan (lle :: rest).
Proof. unfold held_scan. simpl. by rewrite reverse_snoc. Qed.

Lemma lock_list_of_frame class p cpu st st' :
  p_sleeplocks st' = p_sleeplocks st → spinlocks st' = spinlocks st →
  lock_list_of class p cpu st' = lock_list_of class p cpu st.
Proof.
  intros H1 H2. unfold lock_list_of, sleeplocks_of, spinlocks_of.
  by rewrite H1, H2.
Qed.

Lemma witness_lock_out_room lock w class file line p cpu st lle rest :
  lock_list_of class p cpu st = lle :: rest →
  length lle ≠ LOCK_CHILDCOUNT MAXCPU → (length lle < LOCK_NCHILDREN)%nat →
  witness_lock_out lock w class file line p cpu st
    = Ok (set_lock_list class p cpu ((lle ++ [lock]) :: rest)
            (sited lock w file line st)).
Proof.
  intros Hl Hne Hlt. unfold witness_lock_out.
  rewrite (lock_list_of_frame _ _ _ st (sited lock w file line st)) by done.
  rewrite Hl. rewrite (proj2 (Nat.eqb_neq _ _) Hne).
  by rewrite (proj2 (Nat.leb_gt _ _) Hlt).
Qed.

Lemma witness_lock_out_fresh lock w class file line p cpu st n :
  match lock_list_of class p cpu st with
  | [] => True
  | lle :: _ => length lle = LOCK_CHILDCOUNT MAXCPU
  end →
  w_lock_list_free st = S n → (0 < LOCK_NCHILDREN)%nat →
  witness_lock_out lock w class file line p cpu st
    = Ok (set_lock_list class p cpu
            ([lock] :: lock_list_of class p cpu st)
            (set_w_lock_list_free n (sited lock w file line st))).
Proof.
  intros Hl Hn Hlt. unfold witness_lock_out.
  rewrite (lock_list_of_frame _ _ _ st (sited lock w file line st)) by done.
  assert (match lock_list_of class p cpu st with
          | [] => true
          | lle :: _ => (length lle =? LOCK_CHILDCOUNT MAXCPU)%nat
          end = true) as ->.
  { destruct (lock_list_of class p cpu st); [done|]. by apply Nat.eqb_eq. }
  unfold witness_lock_list_get.
  change (w_lock_list_free (sited lock w file line st))
    with (w_lock_list_free st).
  rewrite Hn. by rewrite (proj2 (Nat.leb_gt _ _) Hlt).
Qed.

Lemma witness_lock_out_exhausted lock w class file line p cpu st :
  match lock_list_of class p cpu st with
  | [] => True
  | lle :: _ => length lle = LOCK_CHILDCOUNT MAXCPU
  end →
  w_lock_list_free st = O →
  witness_lock_out lock w class file line p cpu st
    = Ok (set_lock_list class p cpu []
            (print (EvExhausted "witness_lock_list_get")
               (set_dead (sited lock w file line st)))).
Proof.
  intros Hl Hn. unfold witness_lock_out.
  rewrite (lock_list_of_frame _ _ _ st (sited lock w file line st)) by done.
  assert (match lock_list_of class p cpu st with
          | [] => true
          | lle :: _ => (length lle =? LOCK_CHILDCOUNT MAXCPU)%nat
          end = true) as ->.
  { destruct (lock_list_of class p cpu st); [done|]. by apply Nat.eqb_eq. }
  unfold witness_lock_list_get.
  change (w_lock_list_free (sited lock w file line st))
    with (w_lock_list_free st).
  by rewrite Hn.
Qed.

(** [witness_lock] once it is past its tests. *)
Lemma witness_lock_checked lock flags file line p cpu st w :
  lo_witness (lock_at st lock) = Some w →
  witness_cold st = false → witness_dead st = false → panicstr st = false →
  LO_LOCKED (lo_flags (lock_at st lock)) = true →
  LO_RECURSED (lo_flags (lock_at st lock)) = false →
  (LC_SLEEPLOCK (lc_flags (lo_class (lock_at st lock))) = true →
   spinlocks_of st cpu = []) →
  witness_lock lock flags file line p cpu st =
    (st1 ← (if LOP_TRYLOCK flags then Ok st
            else witness_lock_check lock w file line
                   (lock_list_of (lo_class (lock_at st lock)) p cpu st) st);
     witness_lock_out lock w (lo_class (lock_at st lock)) file line p cpu st1).
Proof.
  intros Hw Hc Hd Hp Hl Hr Hs. unfold witness_lock.
  rewrite Hw, Hc, Hd, Hp, Hl, Hr. simpl.
  destruct (LC_SLEEPLOCK _) eqn:E; simpl; [|done].
  by rewrite (Hs eq_refl), bool_decide_eq_true_2.
Qed.

Lemma sited_spec lock w file line st :
  (∀ x, w_children (wit (sited lock w file line st) x)
        = w_children (wit st x))
  ∧ (∀ x, w_Giant_squawked (wit (sited lock w file line st) x)
          = w_Giant_squawked (wit st x))
  ∧ (∀ x, w_other_squawked (wit (sited lock w file line st) x)
          = w_other_squawked (wit st x))
  ∧ (∀ x, w_same_squawked (wit (sited lock w file line st) x)
          = w_same_squawked (wit st x))
  ∧ ((w < length (w_data st))%nat →
     w_file (wit (sited lock w file line st) w) = Some file
     ∧ w_line (wit (sited lock w file line st) w) = line)
  ∧ lo_file (lock_at (sited lock w file line st) lock) = Some file
  ∧ lo_line (lock_at (sited lock w file line st) lock) = line.
Proof.
  unfold sited.
  set (st1 := set_wit w _ st).
  assert (Hw : ∀ x, wit (set_lock lock
                 (lock_with_site (Some file) line (lock_at st1 lock)) st1) x
               = wit st1 x) by done.
  repeat split; try (intros x; rewrite Hw; subst st1;
                     by apply (wit_set_wit_field _)).
  - rewrite Hw. subst st1. by rewrite wit_set_wit_eq.
  - rewrite Hw. subst st1. by rewrite wit_set_wit_eq.
  - unfold lock_at, set_lock. simpl. by rewrite lookup_insert_eq.
  - unfold lock_at, set_lock. simpl. by rewrite lookup_insert_eq.
Qed.

(** C9, as the code has it: an acquisition with [LOP_TRYLOCK] goes
    straight to the label [out]: it stores the site of the acquisition in
    the witness and in the lock and changes no child list and no squawk
    flag and prints no warning; then it pushes the lock on the list of held
    locks of the caller, into the head chunk when that has a free slot, into
    a new chunk when there is no chunk (or the head chunk holds
    [LOCK_CHILDCOUNT] entries) and the pool has one; when a new chunk is
    needed and the pool is empty the verifier goes dead, the lock is not
    pushed and the list of the caller is cut off (its head is overwritten
    with the NULL that [witness_lock_list_get] returned). *)
Theorem C9_trylock_skips_checks lock flags file line p cpu st w :
  lo_witness (lock_at st lock) = Some w →
  witness_cold st = false → witness_dead st = false → panicstr st = false →
  LO_LOCKED (lo_flags (lock_at st lock)) = true →
  LO_RECURSED (lo_flags (lock_at st lock)) = false →
  (LC_SLEEPLOCK (lc_flags (lo_class (lock_at st lock))) = true →
   spinlocks_of st cpu = []) →
  LOP_TRYLOCK flags = true →
  let class := lo_class (lock_at st lock) in
  let chain := lock_list_of class p cpu st in
  let st0 := sited lock w file line st in
  let new_chunk :=
    match chain with
    | [] => True
    | lle :: _ => length lle = LOCK_CHILDCOUNT MAXCPU
    end in
  ((∀ x, w_children (wit st0 x) = w_children (wit st x))
   ∧ (∀ x, w_Giant_squawked (wit st0 x) = w_Giant_squawked (wit st x))
   ∧ (∀ x, w_other_squawked (wit st0 x) = w_other_squawked (wit st x))
   ∧ (∀ x, w_same_squawked (wit st0 x) = w_same_squawked (wit st x))
   ∧ ((w < length (w_data st))%nat →
      w_file (wit st0 w) = Some file ∧ w_line (wit st0 w) = line)
   ∧ lo_file (lock_at st0 lock) = Some file
   ∧ lo_line (lock_at st0 lock) = line)
  ∧ console st0 = console st
  ∧ (∀ lle rest,
       chain = lle :: rest → length lle ≠ LOCK_CHILDCOUNT MAXCPU →
       (length lle < LOCK_NCHILDREN)%nat →
       witness_lock lock flags file line p cpu st
         = Ok (set_lock_list class p cpu ((lle ++ [lock]) :: rest) st0)
       ∧ held_scan ((lle ++ [lock]) :: rest) = lock :: held_scan chain)
  ∧ (∀ n,
       new_chunk → w_lock_list_free st = S n → (0 < LOCK_NCHILDREN)%nat →
       witness_lock lock flags file line p cpu st
         = Ok (set_lock_list class p cpu ([lock] :: chain)
                 (set_w_lock_list_free n st0))
       ∧ held_scan ([lock] :: chain) = lock :: held_scan chain)
  ∧ (new_chunk → w_lock_list_free st = O →
       let dead :=
         set_lock_list class p cpu []
           (print (EvExhausted "witness_lock_list_get") (set_dead st0)) in
       witness_lock lock flags file line p cpu st = Ok dead
       ∧ witness_dead dead = true
       ∧ lock_list_of class p cpu dead = []).
Proof.
  intros Hw Hc Hd Hp Hl Hr Hs Ht class chain st0 new_chunk.
  assert (Hrun : witness_lock lock flags file line p cpu st
                 = witness_lock_out lock w class file line p cpu st).
  { rewrite (witness_lock_checked _ _ _ _ _ _ _ w) by done. by rewrite Ht. }
  split; [apply sited_spec|]. split; [done|].
  split; [|split].
  - intros lle rest Hch Hne Hlt. rewrite Hrun.
    split; [by apply witness_lock_out_room|].
    subst chain. rewrite Hch. apply held_scan_push.
  - intros n Hnew Hn Hlt. rewrite Hrun.
    split; [by apply witness_lock_out_fresh | done].
  - intros Hnew Hn dead. rewrite Hrun.
    split; [by apply witness_lock_out_exhausted|].
    split; [|apply lock_list_of_set].
    unfold dead, set_lock_list. by destruct (LC_SLEEPLOCK _).
Qed.

(** *** Finite graphs without cycles *)

Section Graph.

Variable g : nat → list nat.
Variable N : nat.

Let gedge : relation nat := λ x y, y ∈ g x.

Hypothesis g_valid : ∀ x c, c ∈ g x → (x < N)%nat ∧ (c < N)%nat.
Hypothesis g_acyclic : ∀ x, ¬ tc gedge x x.

Lemma pigeonhole (l : list nat) :
  NoDup l → (∀ x, x ∈ l → (x < N)%nat) → (length l ≤ N)%nat.
Proof.
  intros Hnd Hlt.
  assert (H : l ⊆+ seq 0 N).
  { apply NoDup_submseteq; [done|]. intros x Hx.
    apply elem_of_seq. specialize (Hlt x Hx). lia. }
  apply submseteq_length in H. by rewrite length_seq in H.
Qed.

Lemma height_ok_seen f (seen : list nat) x :
  NoDup seen → (∀ y, y ∈ seen → (y < N)%nat) →
  (∀ y, y ∈ seen → tc gedge y x) → (x < N)%nat →
  (N ≤ length seen + f)%nat →
  height_ok g f x.
Proof.
  revert seen x. induction f as [|f IH]; intros seen x Hnd Hlt Hreach Hx Hlen.
  - exfalso.
    assert (Hx' : x ∉ seen).
    { intros Hin. by apply (g_acyclic x), Hreach. }
    assert (Hle : (length (x :: seen) ≤ N)%nat).
    { apply pigeonhole.
      - by apply NoDup_cons.
      - intros y [->|Hy]%elem_of_cons; auto. }
    simpl in Hle. lia.
  - simpl. intros c Hc.
    assert (Hx' : x ∉ seen).
    { intros Hin. by apply (g_acyclic x), Hreach. }
    apply (IH (x :: seen)).
    + by apply NoDup_cons.
    + intros y [->|Hy]%elem_of_cons; auto.
    + intros y [->|Hy]%elem_of_cons.
      * by apply tc_once.
      * eapply tc_r; [by apply Hreach | done].
    + by apply (g_valid x).
    + simpl. lia.
Qed.

(** With [N] witnesses and no cycle, no descent is deeper than [N]. *)
Lemma acyclic_height_ok x : (0 < N)%nat → height_ok g N x.
Proof.
  intros HN. destruct (decide (x < N)%nat) as [Hx|Hx].
  - apply (height_ok_seen N []); try done.
    + apply NoDup_nil_2.
    + intros y Hy. by apply not_elem_of_nil in Hy.
    + intros y Hy. by apply not_elem_of_nil in Hy.
  - destruct N as [|n]; [lia|]. simpl. intros c Hc.
    apply g_valid in Hc. lia.
Qed.

End Graph.

(** *** The two queries on the order graph *)

Lemma isitmychild_spec st parent child :
  isitmychild st parent child = true ↔ edge st parent child.
Proof.
  unfold isitmychild, edge, kids.
  induction (w_children (wit st parent)) as [|wcl chain IH]; simpl.
  - split; [done | intros H; by apply not_elem_of_nil in H].
  - rewrite orb_true_iff, elem_of_app, IH.
    assert (existsb (Nat.eqb child) wcl = true ↔ child ∈ wcl) as ->; [|done].
    rewrite existsb_exists. split.
    + intros (x & Hx & ->%Nat.eqb_eq). by apply list_elem_of_In.
    + intros H. exists child. split; [by apply list_elem_of_In|].
      apply Nat.eqb_refl.
Qed.

Lemma isitmychild_false st parent child :
  isitmychild st parent child = false ↔ ¬ edge st parent child.
Proof.
  rewrite <- isitmychild_spec. by destruct (isitmychild st parent child).
Qed.

Lemma first_true_spec (f : nat → outcome bool) (P : nat → Prop) l :
  (∀ x, x ∈ l → ∃ b, f x = Ok b ∧ (b = true ↔ P x)) →
  ∃ b, first_true f l = Ok b ∧ (b = true ↔ ∃ x, x ∈ l ∧ P x).
Proof.
  induction l as [|x l IH]; intros H; simpl.
  - exists false. split; [done|]. split; [done|].
    intros (x & Hx & _). by apply not_elem_of_nil in Hx.
  - destruct (H x) as (b & -> & Hb); [left|]. simpl.
    destruct b.
    + exists true. split; [done|]. split; [|done].
      intros _. exists x. split; [left | by apply Hb].
    + destruct IH as (b & -> & Hb').
      { intros y Hy. apply H. by right. }
      exists b. split; [done|]. rewrite Hb'. split.
      * intros (y & Hy & HP). exists y. split; [by right | done].
      * intros (y & [->|Hy]%elem_of_cons & HP).
        -- apply Hb in HP. done.
        -- by exists y.
Qed.

Lemma tc_inv_l {A} (R : relation A) x z :
  tc R x z ↔ R x z ∨ ∃ y, R x y ∧ tc R y z.
Proof.
  split.
  - intros H. destruct H as [x z H|x y z H1 H2]; [by left | right; eauto].
  - intros [H|(y & H1 & H2)]; [by apply tc_once | by eapply tc_l].
Qed.

(** On a descent that ends, [isitmydescendant] returns, and says whether
    [child] is reached from [parent] by one edge or more. *)
Lemma isitmydescendant_rec_spec d st parent child :
  height_ok (kids st) d parent →
  ∃ b, isitmydescendant_rec d st parent child = Ok b
       ∧ (b = true ↔ tc (edge st) parent child).
Proof.
  revert parent. induction d as [|d IH]; intros parent Hh; [done|].
  simpl. destruct (isitmychild st parent child) eqn:E.
  - exists true. split; [done|]. split; [|done].
    intros _. by apply tc_once, isitmychild_spec.
  - apply isitmychild_false in E.
    destruct (first_true_spec
                (λ c, isitmydescendant_rec d st c child)
                (λ c, tc (edge st) c child)
                (concat (w_children (wit st parent)))) as (b & Hb & Hiff).
    { intros x Hx. apply IH. by apply Hh. }
    exists b. split; [done|]. rewrite Hiff, tc_inv_l. split.
    + intros (x & Hx & Ht). right. by exists x.
    + intros [H|(x & Hx & Ht)]; [done | by exists x].
Qed.

(** *** Frames *)

Lemma frame_refl st : frame st st.
Proof.
  split; try done. exists []. split; [by rewrite app_nil_r | done].
Qed.

Lemma frame_trans st1 st2 st3 : frame st1 st2 → frame st2 st3 → frame st1 st3.
Proof.
  intros [? ? ? ? ? ? ? ? ? ? ? (e1 & He1 & Hf1) ? ? ? ?]
         [? ? ? ? ? ? ? ? ? ? ? (e2 & He2 & Hf2) ? ? ? ?].
  split; try congruence.
  exists (e1 ++ e2). split.
  - by rewrite He2, He1, app_assoc.
  - by apply Forall_app.
Qed.

Lemma frame_registry_ok st st' : frame st st' → registry_ok st → registry_ok st'.
Proof.
  intros [Hl Hc _ Hf Ha Hs Hp Hk _ _ _ _ _ _ _ _] [H1 H2 H3 H4 H5 H6 H7 H8].
  split.
  - by rewrite Hl.
  - by rewrite Hf, Ha.
  - by rewrite Hf, Ha.
  - by rewrite Hs, Hp, Ha.
  - rewrite Hs. intros w Hw. rewrite Hc. auto.
  - rewrite Hp. intros w Hw. rewrite Hc. auto.
  - by rewrite Hk, Ha.
  - by rewrite Hk.
Qed.

(** A store into a witness that keeps its class and its flags. *)
Lemma frame_set_wit w v st : keeps v (wit st w) → frame st (set_wit w v st).
Proof.
  intros (H1 & H0 & H2 & H3 & H4). split.
  - unfold set_wit. simpl. apply length_insert.
  - intros x. by apply (wit_set_wit_field w_class).
  - intros x. by apply (wit_set_wit_field w_name).
  - done.
  - done.
  - done.
  - done.
  - done.
  - intros x. by apply (wit_set_wit_field w_Giant_squawked).
  - intros x. by apply (wit_set_wit_field w_other_squawked).
  - intros x. by apply (wit_set_wit_field w_same_squawked).
  - exists []. split; [by rewrite app_nil_r | done].
  - done.
  - done.
  - done.
  - done.
Qed.

(** Stores outside the witnesses, the lists and the lock heap. *)
Lemma frame_fields st st' :
  w_data st' = w_data st → w_free st' = w_free st → w_all st' = w_all st →
  w_sleep st' = w_sleep st → w_spin st' = w_spin st → locks st' = locks st →
  console st' = console st →
  p_sleeplocks st' = p_sleeplocks st → spinlocks st' = spinlocks st →
  w_lock_list_free st' = w_lock_list_free st →
  (witness_watch st', witness_skipspin st', witness_cold st', panicstr st')
    = (witness_watch st, witness_skipspin st, witness_cold st, panicstr st) →
  frame st st'.
Proof.
  intros Hd Hf Ha Hs Hp Hl Hc ? ? ? ?.
  assert (Hw : ∀ x, wit st' x = wit st x).
  { intros x. unfold wit. by rewrite Hd. }
  split; try done.
  - by rewrite Hd.
  - intros x. by rewrite Hw.
  - intros x. by rewrite Hw.
  - intros x. by rewrite Hw.
  - intros x. by rewrite Hw.
  - intros x. by rewrite Hw.
  - exists []. split; [by rewrite Hc, app_nil_r | done].
Qed.

Lemma kids_set_wit w v st x :
  w_children v = w_children (wit st w) → kids (set_wit w v st) x = kids st x.
Proof.
  intros H. unfold kids. f_equal. by apply (wit_set_wit_field w_children).
Qed.

Lemma tc_mono {A} (R1 R2 : relation A) x y :
  (∀ a b, R1 a b → R2 a b) → tc R1 x y → tc R2 x y.
Proof.
  intros H. induction 1 as [x y H1|x y z H1 _ IH].
  - by apply tc_once, H.
  - eapply tc_l; [by apply H | done].
Qed.

(** The graph conditions only read the children and the two type lists. *)
Lemma edge_same_kids st st' :
  (∀ x, kids st' x = kids st x) → ∀ x y, edge st' x y ↔ edge st x y.
Proof. intros Hk x y. unfold edge. by rewrite Hk. Qed.

Lemma tc_same_kids st st' :
  (∀ x, kids st' x = kids st x) →
  ∀ x y, tc (edge st') x y ↔ tc (edge st) x y.
Proof.
  intros Hk x y. split; apply tc_mono; intros ??; by apply (edge_same_kids st st').
Qed.

Lemma graph_ok_same_kids st st' :
  (∀ x, kids st' x = kids st x) →
  w_sleep st' = w_sleep st → w_spin st' = w_spin st →
  graph_ok st → graph_ok st'.
Proof.
  intros Hk Hs Hp [He Hn Ha].
  split.
  - intros p c H. rewrite Hs, Hp. by apply He, (edge_same_kids st st').
  - intros p. by rewrite Hk.
  - intros x H. by apply (Ha x), (tc_same_kids st st').
Qed.

Lemma reduced_same_kids st st' :
  (∀ x, kids st' x = kids st x) → reduced st → reduced st'.
Proof.
  intros Hk Hr p o c H1 H2 H3.
  apply (Hr p o c); [by apply (edge_same_kids st st')..|].
  by apply (tc_same_kids st st').
Qed.

(** Edges join slots of [w_data]. *)
Lemma edge_valid st p c :
  registry_ok st → graph_ok st → edge st p c →
  (p < WITNESS_COUNT)%nat ∧ (c < WITNESS_COUNT)%nat.
Proof.
  intros Hr Hg He. split.
  - destruct (decide (p < WITNESS_COUNT)%nat) as [|Hge]; [done|].
    exfalso. unfold edge, kids, wit in He.
    rewrite list_lookup_total_alt, lookup_ge_None_2 in He.
    + simpl in He. by apply not_elem_of_nil in He.
    + rewrite (reg_length _ Hr). lia.
  - apply (reg_valid _ Hr), elem_of_app. right.
    apply (reg_typelists _ Hr).
    destruct (gr_edges _ Hg _ _ He) as [[_ H]|[_ H]]; auto.
Qed.

(** In a well-formed graph [isitmydescendant] returns, and tells whether
    [child] is reached from [parent]. *)
Lemma isitmydescendant_spec st parent child :
  registry_ok st → graph_ok st →
  ∃ b, isitmydescendant st parent child = Ok b
       ∧ (b = true ↔ tc (edge st) parent child).
Proof.
  intros Hr Hg. apply isitmydescendant_rec_spec.
  apply acyclic_height_ok; [| apply (gr_acyclic _ Hg) | unfold WITNESS_COUNT; lia].
  intros x c Hc. by apply (edge_valid st).
Qed.

(** *** Removing a child *)

Lemma insert_Permutation {A} (l : list A) i x y :
  l !! i = Some x → <[i := y]> l ≡ₚ y :: delete i l.
Proof.
  intros H. apply lookup_lt_Some in H.
  rewrite (delete_Permutation (<[i := y]> l) i y)
    by by apply list_lookup_insert_eq.
  by rewrite !delete_take_drop, take_insert_ge, drop_insert_lt by lia.
Qed.

Lemma remove_slot_Permutation i wcl x :
  wcl !! i = Some x → wcl ≡ₚ x :: remove_slot i wcl.
Proof.
  intros Hi. unfold remove_slot.
  assert (Hlen := lookup_lt_Some _ _ _ Hi).
  destruct (wcl !! (length wcl - 1)%nat) as [z|] eqn:Hz.
  2: { apply lookup_ge_None in Hz. lia. }
  assert (Hsplit : wcl = take (length wcl - 1) wcl ++ [z]).
  { rewrite <- (take_S_r _ _ _ Hz).
    replace (S (length wcl - 1)) with (length wcl) by lia.
    by rewrite firstn_all. }
  set (t := take (length wcl - 1) wcl) in *.
  assert (Hzt : wcl ≡ₚ z :: t).
  { rewrite Hsplit at 1. by rewrite <- Permutation_cons_append. }
  destruct (Nat.ltb_spec i (length wcl - 1)) as [Hlt|Hge]; simpl.
  - assert (Ht : t !! i = Some x) by (subst t; by rewrite lookup_take_lt).
    pose proof (insert_Permutation t i x z Ht) as P1.
    pose proof (delete_Permutation t i x Ht) as P2.
    etrans; [exact Hzt|].
    etrans; [apply perm_skip, P2|].
    etrans; [apply perm_swap|].
    apply perm_skip. by symmetry.
  - assert (i = (length wcl - 1)%nat) as -> by lia.
    rewrite Hz in Hi. by injection Hi as ->.
Qed.

Lemma removechild_chain_None child chain :
  removechild_chain child chain = None ↔ child ∉ concat chain.
Proof.
  induction chain as [|wcl rest IH]; simpl.
  - split; [intros _; apply not_elem_of_nil | done].
  - rewrite not_elem_of_app.
    destruct (slot_of child wcl) as [i|] eqn:E.
    + apply slot_of_Some in E as [E _].
      apply list_elem_of_lookup_2 in E.
      split; [by destruct (Nat.eqb _ _) | tauto].
    + apply slot_of_None in E.
      destruct (removechild_chain child rest) as [[rest' freed]|].
      * split; [done | intros [_ H]; by apply IH in H].
      * split; [intros _; split; [done | by apply IH] | done].
Qed.

Lemma removechild_chain_Some child chain chain' freed :
  removechild_chain child chain = Some (chain', freed) →
  concat chain ≡ₚ child :: concat chain'.
Proof.
  revert chain' freed.
  induction chain as [|wcl rest IH]; intros chain' freed; simpl; [done|].
  destruct (slot_of child wcl) as [i|] eqn:E.
  - apply slot_of_Some in E as [E _].
    pose proof (remove_slot_Permutation _ _ _ E) as Hp.
    destruct (Nat.eqb_spec (length (remove_slot i wcl)) 0) as [Hz|Hz];
      intros [= <- <-].
    + apply nil_length_inv in Hz. rewrite Hz in Hp.
      by apply (Permutation_app Hp).
    + simpl. by apply (Permutation_app Hp).
  - destruct (removechild_chain child rest) as [[rest' freed']|]; [|done].
    intros [= <- <-]. simpl.
    etrans; [apply Permutation_app_head, (IH rest' freed' eq_refl)|].
    by rewrite Permutation_middle.
Qed.

Lemma kids_out_of_range st x :
  (length (w_data st) ≤ x)%nat → kids st x = [].
Proof.
  intros H. unfold kids, wit.
  by rewrite list_lookup_total_alt, lookup_ge_None_2.
Qed.


Lemma removechild_spec st p c :
  edge st p c →
  kids st p ≡ₚ c :: kids (removechild st p c) p
  ∧ (∀ x, x ≠ p → kids (removechild st p c) x = kids st x)
  ∧ frame st (removechild st p c)
  ∧ recursed (removechild st p c) = recursed st.
Proof.
  intros He. unfold removechild.
  destruct (removechild_chain c _) as [[chain freed]|] eqn:E.
  2: { by apply removechild_chain_None in E. }
  apply removechild_chain_Some in E.
  assert (Hp : (p < length (w_data st))%nat).
  { destruct (decide (p < length (w_data st))%nat) as [|Hge]; [done|].
    unfold edge in He. rewrite kids_out_of_range in He by lia.
    by apply not_elem_of_nil in He. }
  set (st1 := set_wit p (with_children chain (wit st p)) st).
  assert (H1 : kids st p ≡ₚ c :: kids st1 p).
  { unfold kids at 2. subst st1. by rewrite wit_set_wit_eq. }
  assert (H2 : ∀ x, x ≠ p → kids st1 x = kids st x).
  { intros x Hx. unfold kids. subst st1. by rewrite wit_set_wit_ne. }
  assert (H3 : frame st st1) by by apply frame_set_wit.
  destruct freed; (split; [exact H1|]; split; [exact H2|]; split; [|done]).
  - apply (frame_trans _ st1); [done|]. by apply frame_fields.
  - exact H3.
Qed.

(** *** Inserting a child *)

Lemma outcome_bind_Ok {A B} (m : outcome A) (k : A → outcome B) b :
  m ≫= k = Ok b → ∃ a, m = Ok a ∧ k a = Ok b.
Proof. destruct m; simpl; try done. intros H. eauto. Qed.

Lemma insert_chain_Some child chain chain' :
  insert_chain child chain = Ok (Some chain') →
  concat chain' ≡ₚ child :: concat chain.
Proof.
  revert chain'. induction chain as [|wcl rest IH]; intros chain'; simpl; [done|].
  destruct (Nat.eqb _ _).
  - intros (r & Hr & Hk)%outcome_bind_Ok.
    destruct r as [rest'|]; simpl in Hk; [|done].
    injection Hk as <-. simpl.
    etrans; [apply Permutation_app_head, (IH rest' Hr)|].
    by rewrite Permutation_middle.
  - destruct (Nat.ltb _ _); [done|]. intros [= <-]. simpl.
    rewrite <- app_assoc. simpl. by rewrite Permutation_middle.
Qed.

Lemma insert_child_Some p c st st1 :
  insert_child p c st = Ok (Some st1) → (p < length (w_data st))%nat →
  kids st1 p ≡ₚ c :: kids st p
  ∧ (∀ x, x ≠ p → kids st1 x = kids st x)
  ∧ frame st st1 ∧ recursed st1 = recursed st.
Proof.
  unfold insert_child. intros (r & Hr & Hk)%outcome_bind_Ok Hp.
  destruct r as [chain|].
  - injection Hk as <-. apply insert_chain_Some in Hr.
    split; [|split; [|split]].
    + unfold kids at 1. by rewrite wit_set_wit_eq.
    + intros x Hx. unfold kids. by rewrite wit_set_wit_ne.
    + by apply frame_set_wit.
    + done.
  - unfold witness_child_get in Hk.
    destruct (w_child_free st) as [|n]; [done|]. injection Hk as <-.
    set (st' := set_w_child_free n st).
    assert (Hw : ∀ x, wit st' x = wit st x) by done.
    split; [|split; [|split]].
    + unfold kids at 1. rewrite wit_set_wit_eq by done. simpl.
      rewrite Hw, concat_app. simpl.
      by rewrite <- Permutation_cons_append.
    + intros x Hx. unfold kids. rewrite wit_set_wit_ne by done. by rewrite Hw.
    + apply (frame_trans _ st'); [by apply frame_fields|].
      by apply frame_set_wit.
    + done.
Qed.

Lemma insert_child_None p c st :
  insert_child p c st = Ok None →
  witness_child_get st
    = (false, print (EvExhausted "witness_child_get") (set_dead st)).
Proof.
  unfold insert_child. intros (r & Hr & Hk)%outcome_bind_Ok.
  destruct r as [chain|]; [done|].
  unfold witness_child_get in *. by destruct (w_child_free st).
Qed.

Lemma frame_exhausted f st : frame st (print (EvExhausted f) (set_dead st)).
Proof.
  split; try done. exists [EvExhausted f]. split; [done|].
  apply Forall_singleton. by exists f.
Qed.

(** The nested call: it stores the child, or finds the pool empty. *)
Lemma itismychild_nested_spec p c st r st' :
  recursed st = true → (p < length (w_data st))%nat →
  itismychild_nested p c st = Ok (r, st') →
  (kids st' p ≡ₚ c :: kids st p ∨ kids st' p = kids st p)
  ∧ (∀ x, x ≠ p → kids st' x = kids st x)
  ∧ frame st st' ∧ recursed st' = true.
Proof.
  intros Hrec Hp. unfold itismychild_nested, itismychild_at.
  destruct (negb _); [done|].
  intros (ins & Hins & Hk)%outcome_bind_Ok.
  destruct ins as [st1|].
  - destruct (insert_child_Some _ _ _ _ Hins Hp) as (H1 & H2 & H3 & H4).
    rewrite H4, Hrec in Hk. injection Hk as <- <-.
    split; [by left|]. split; [done|]. split; [done|]. congruence.
  - injection Hk as <- <-. rewrite (insert_child_None _ _ _ Hins). simpl.
    split; [by right|]. split; [done|]. split; [apply frame_exhausted | done].
Qed.

(** *** One edge more, one edge less *)

Section OneEdge.

Variables (R R' : relation nat) (a b : nat).

Hypothesis R_acyclic : ∀ x, ¬ tc R x x.

(** [R'] is [R] and the edge from [a] to [b]. *)
Lemma tc_add_inv :
  (∀ x y, R' x y → R x y ∨ (x = a ∧ y = b)) →
  ∀ x y, tc R' x y → tc R x y ∨ (rtc R x a ∧ rtc R b y).
Proof.
  intros Hadd x y H. induction H as [x y H|x y z H _ IH].
  - destruct (Hadd _ _ H) as [H'|[-> ->]]; [left; by apply tc_once|].
    right. split; apply rtc_refl.
  - destruct (Hadd _ _ H) as [H'|[-> ->]].
    + destruct IH as [IH|[IH1 IH2]].
      * left. by eapply tc_l.
      * right. split; [by eapply rtc_l | done].
    + destruct IH as [IH|[IH1 IH2]].
      * right. split; [apply rtc_refl | by apply tc_rtc].
      * right. split; [apply rtc_refl | done].
Qed.

Lemma acyclic_add :
  (∀ x y, R' x y → R x y ∨ (x = a ∧ y = b)) →
  a ≠ b → ¬ tc R b a → ∀ x, ¬ tc R' x x.
Proof.
  intros Hadd Hne Hba x H.
  destruct (tc_add_inv Hadd _ _ H) as [H'|[H1 H2]].
  - by apply (R_acyclic x).
  - assert (Hr : rtc R b a) by by etrans.
    apply rtc_tc in Hr as [Hr|Hr]; [by apply Hne | by apply Hba].
Qed.

(** [R'] is [R] without the edge from [a] to [b]: a path of [R] from a
    child of [a] does not use that edge. *)
Lemma tc_avoid other z :
  (∀ x y, R x y → ¬ (x = a ∧ y = b) → R' x y) →
  R a other → tc R other z → tc R' other z.
Proof.
  intros Hsub Ha H.
  assert (Hgen : ∀ x, rtc R other x → tc R x z → tc R' x z).
  { clear H. intros x Hox H. induction H as [x y H|x y z H _ IH].
    - apply tc_once, Hsub; [done|]. intros [-> ->].
      apply (R_acyclic a).
        eapply tc_rtc_r; [apply tc_once, Ha | exact Hox].
    - eapply tc_l.
      + apply Hsub; [done|]. intros [-> ->].
        apply (R_acyclic a).
        eapply tc_rtc_r; [apply tc_once, Ha | exact Hox].
      + apply IH. by eapply rtc_r. }
  apply Hgen; [apply rtc_refl | done].
Qed.

End OneEdge.

Lemma edge_added st st' p c :
  kids st' p ≡ₚ c :: kids st p → (∀ x, x ≠ p → kids st' x = kids st x) →
  ∀ x y, edge st' x y ↔ edge st x y ∨ (x = p ∧ y = c).
Proof.
  intros Hp Ho x y. unfold edge. destruct (decide (x = p)) as [->|Hx].
  - rewrite Hp, elem_of_cons. intuition.
  - rewrite Ho by done. intuition.
Qed.

Lemma edge_removed st st' p c :
  kids st p ≡ₚ c :: kids st' p → NoDup (kids st p) →
  (∀ x, x ≠ p → kids st' x = kids st x) →
  ∀ x y, edge st' x y ↔ edge st x y ∧ ¬ (x = p ∧ y = c).
Proof.
  intros Hp Hnd Ho x y. unfold edge. destruct (decide (x = p)) as [->|Hx].
  - rewrite Hp in Hnd. apply NoDup_cons in Hnd as [Hc _].
    rewrite Hp, elem_of_cons. intuition congruence.
  - rewrite Ho by done. intuition.
Qed.

Lemma edge_in_range st p c : edge st p c → (p < length (w_data st))%nat.
Proof.
  intros He. destruct (decide (p < length (w_data st))%nat) as [|Hge]; [done|].
  unfold edge in He. rewrite kids_out_of_range in He by lia.
  by apply not_elem_of_nil in He.
Qed.

(** A graph with fewer edges, between larger lists. *)
Lemma graph_ok_sub_incl st st' :
  (∀ x y, edge st' x y → edge st x y) → (∀ x, NoDup (kids st' x)) →
  (∀ x, x ∈ w_sleep st → x ∈ w_sleep st') →
  (∀ x, x ∈ w_spin st → x ∈ w_spin st') →
  graph_ok st → graph_ok st'.
Proof.
  intros Hsub Hnd Hs Hp [He _ Ha]. split.
  - intros p c H. destruct (He _ _ (Hsub _ _ H)) as [[]|[]]; auto.
  - done.
  - intros x H. apply (Ha x). by eapply tc_mono.
Qed.

Lemma graph_ok_sub st st' :
  (∀ x y, edge st' x y → edge st x y) → (∀ x, NoDup (kids st' x)) →
  w_sleep st' = w_sleep st → w_spin st' = w_spin st →
  graph_ok st → graph_ok st'.
Proof.
  intros Hsub Hnd Hs Hp. apply graph_ok_sub_incl; try done.
  - intros x. by rewrite Hs.
  - intros x. by rewrite Hp.
Qed.

Lemma reduced_sub st st' :
  (∀ x y, edge st' x y → edge st x y) → reduced st → reduced st'.
Proof.
  intros Hsub Hr p o c H1 H2 H3.
  apply (Hr p o c); [by apply Hsub..|]. by eapply tc_mono.
Qed.

Lemma irredundant_sub st st' p c :
  (∀ x y, edge st' x y → edge st x y) →
  irredundant st p c → irredundant st' p c.
Proof.
  intros Hsub Hi He o Ho Ht.
  apply (Hi (Hsub _ _ He) o (Hsub _ _ Ho)). by eapply tc_mono.
Qed.

(** *** Loops *)

(** A loop that returns keeps what every turn keeps ([I]), relates its
    first and last state by [R], and leaves for each element what its turn
    has established ([Q]) if later turns keep that. *)
Lemma for_each_ind {A} (I : state → Prop) (R : relation state)
    (Q : A → state → Prop) (body : A → state → outcome state) l :
  (∀ st, R st st) → (∀ s1 s2 s3, R s1 s2 → R s2 s3 → R s1 s3) →
  (∀ x st st', x ∈ l → I st → body x st = Ok st' →
               I st' ∧ R st st' ∧ Q x st') →
  (∀ x st st', I st → R st st' → Q x st → Q x st') →
  ∀ st st', I st → for_each l body st = Ok st' →
    I st' ∧ R st st' ∧ ∀ x, x ∈ l → Q x st'.
Proof.
  intros Hrefl Htrans Hbody Hkeep.
  induction l as [|x l IH]; intros st st' HI Hrun; simpl in Hrun.
  - injection Hrun as <-. split; [done|]. split; [done|].
    intros x Hx. by apply not_elem_of_nil in Hx.
  - apply outcome_bind_Ok in Hrun as (s & Hs & Hrun).
    destruct (Hbody x st s) as (HI1 & HR1 & HQ1); [left | done | done |].
    destruct IH with (st := s) (st' := st') as (HI2 & HR2 & HQ2); try done.
    { intros y s1 s2 Hy. apply Hbody. by right. }
    split; [done|]. split; [by eapply Htrans|].
    intros y [->|Hy]%elem_of_cons; [|by apply HQ2].
    by apply (Hkeep _ s).
Qed.

(** *** The pruning pass *)

(** What the pass keeps from one turn to the next. *)
Lemma prune_pair_spec c p st st' :
  registry_ok st → graph_ok st → recursed st = true →
  prune_pair itismychild_nested c p st = Ok st' →
  (registry_ok st' ∧ graph_ok st' ∧ recursed st' = true)
  ∧ (frame st st' ∧ ∀ x y, edge st' x y → edge st x y)
  ∧ irredundant st' p c.
Proof.
  intros Hreg Hg Hrec. unfold prune_pair.
  destruct (isitmychild st p c) eqn:E; simpl.
  2: { intros [= <-]. apply isitmychild_false in E.
       split; [done|]. split; [split; [apply frame_refl | done]|].
       intros He. done. }
  apply isitmychild_spec in E.
  destruct (removechild_spec st p c E) as (Hperm & Hoth & Hfr & Hrec1).
  set (st1 := removechild st p c) in *.
  pose proof (edge_removed st st1 p c Hperm (gr_nodup _ Hg p) Hoth) as Hedge1.
  assert (Hsub1 : ∀ x y, edge st1 x y → edge st x y).
  { intros x y H. by apply Hedge1 in H as [H _]. }
  assert (Hnd1 : ∀ x, NoDup (kids st1 x)).
  { intros x. destruct (decide (x = p)) as [->|Hx].
    - pose proof (gr_nodup _ Hg p) as Hnd. rewrite Hperm in Hnd.
      by apply NoDup_cons in Hnd as [_ Hnd].
    - rewrite Hoth by done. apply (gr_nodup _ Hg). }
  assert (Hreg1 : registry_ok st1) by by eapply frame_registry_ok.
  assert (Hg1 : graph_ok st1).
  { apply (graph_ok_sub st); try done; by destruct Hfr. }
  destruct (isitmydescendant_spec st1 p c Hreg1 Hg1) as (b & -> & Hb). simpl.
  destruct b.
  - intros [= <-]. split; [split; [done|split; [done|congruence]]|].
    split; [done|]. intros He. apply Hedge1 in He as [_ He]. by destruct He.
  - intros (r & Hr & Hk)%outcome_bind_Ok. injection Hk as <-.
    destruct r as [r st2]. simpl.
    assert (Hp : (p < length (w_data st1))%nat).
    { rewrite (fr_length _ _ Hfr). by eapply edge_in_range. }
    destruct (itismychild_nested_spec p c st1 r st2) as (Hk2 & Ho2 & Hfr2 & Hrec2);
      [congruence | done | done |].
    assert (Hfr' : frame st st2) by by eapply frame_trans.
    assert (Hreg2 : registry_ok st2) by by eapply frame_registry_ok.
    destruct Hk2 as [Hadd|Hsame].
    + pose proof (edge_added st1 st2 p c Hadd Ho2) as Hedge2.
      assert (Hsub2 : ∀ x y, edge st2 x y → edge st x y).
      { intros x y [H|[-> ->]]%Hedge2; [by apply Hsub1 | done]. }
      assert (Hg2 : graph_ok st2).
      { apply (graph_ok_sub st); try done; try by destruct Hfr'.
        intros x. destruct (decide (x = p)) as [->|Hx].
        - rewrite Hadd, <- Hperm. apply (gr_nodup _ Hg).
        - rewrite Ho2 by done. apply Hnd1. }
      split; [done|]. split; [done|].
      intros _ o Ho Ht.
      assert (Ht' : tc (edge st) o c) by by eapply tc_mono.
      assert (Hoc : o ≠ c).
      { intros ->. by apply (gr_acyclic _ Hg c). }
      assert (Ho1 : edge st1 p o).
      { apply Hedge2 in Ho as [Ho|[_ ->]]; done. }
      assert (Ht1 : tc (edge st1) o c).
      { apply (tc_avoid (edge st) (edge st1) p c (gr_acyclic _ Hg) o c).
        - intros x y H1 H2. by apply Hedge1.
        - by apply Hsub1.
        - done. }
      assert (tc (edge st1) p c) by by eapply tc_l.
      assert (false = true) by by apply Hb. done.
    + assert (Hk2 : ∀ x, kids st2 x = kids st1 x).
      { intros x. destruct (decide (x = p)) as [->|Hx]; auto. }
      assert (Hsub2 : ∀ x y, edge st2 x y → edge st x y).
      { intros x y H. apply Hsub1. by apply (edge_same_kids st1 st2). }
      split; [|split; [done|]].
      * split; [done|]. split; [|done].
        apply (graph_ok_same_kids st1); try done; by destruct Hfr2.
      * intros He. apply (edge_same_kids st1 st2) in He; [|done].
        apply Hedge1 in He as [_ He]. by destruct He.
Qed.

Lemma prune_pass_spec L st st' :
  registry_ok st → graph_ok st → recursed st = true →
  for_each L (λ child, for_each L (prune_pair itismychild_nested child)) st
    = Ok st' →
  (registry_ok st' ∧ graph_ok st' ∧ recursed st' = true)
  ∧ (frame st st' ∧ ∀ x y, edge st' x y → edge st x y)
  ∧ ∀ c, c ∈ L → ∀ p, p ∈ L → irredundant st' p c.
Proof.
  intros Hreg Hg Hrec Hrun.
  eapply (for_each_ind
            (λ s, registry_ok s ∧ graph_ok s ∧ recursed s = true)
            (λ s s', frame s s' ∧ ∀ x y, edge s' x y → edge s x y)
            (λ c s, ∀ p, p ∈ L → irredundant s p c));
    [| | | | | exact Hrun].
  - intros s. split; [apply frame_refl | done].
  - intros s1 s2 s3 [F1 S1] [F2 S2]. split; [by eapply frame_trans | auto].
  - intros c s s' Hc HI Hinner.
    eapply (for_each_ind
              (λ s, registry_ok s ∧ graph_ok s ∧ recursed s = true)
              (λ s s', frame s s' ∧ ∀ x y, edge s' x y → edge s x y)
              (λ p s, irredundant s p c));
      [| | | | exact HI | exact Hinner].
    + intros s0. split; [apply frame_refl | done].
    + intros s1 s2 s3 [F1 S1] [F2 S2]. split; [by eapply frame_trans | auto].
    + intros p s1 s2 Hp (H1 & H2 & H3) Hpair.
      by apply prune_pair_spec.
    + intros p s1 s2 _ [_ Hsub] Hq. by eapply irredundant_sub.
  - intros c s1 s2 _ [_ Hsub] Hq p Hp.
    eapply irredundant_sub; [done | by apply Hq].
  - done.
Qed.

(** *** Stores that keep the graph *)

Lemma relabel_refl st : relabel st st.
Proof. split; [by destruct st|]. split; [done|]. by intros x. Qed.

Lemma relabel_trans s1 s2 s3 : relabel s1 s2 → relabel s2 s3 → relabel s1 s3.
Proof.
  intros (E1 & L1 & K1) (E2 & L2 & K2). split; [|split].
  - rewrite E2. rewrite E1. done.
  - congruence.
  - intros x. destruct (K1 x) as [(?&?&?&?&?) ?], (K2 x) as [(?&?&?&?&?) ?].
    split; [split; [|split; [|split; [|split]]]|]; congruence.
Qed.

Lemma relabel_set_wit w v st :
  keeps v (wit st w) → w_children v = w_children (wit st w) →
  relabel st (set_wit w v st).
Proof.
  intros Hk Hc. split; [done|]. split; [apply length_insert|].
  intros x. destruct Hk as (H1 & H0 & H2 & H3 & H4).
  split; [split; [|split; [|split; [|split]]]|].
  - by apply (wit_set_wit_field w_class).
  - by apply (wit_set_wit_field w_name).
  - by apply (wit_set_wit_field w_Giant_squawked).
  - by apply (wit_set_wit_field w_other_squawked).
  - by apply (wit_set_wit_field w_same_squawked).
  - by apply (wit_set_wit_field w_children).
Qed.

Lemma relabel_frame st st' : relabel st st' → frame st st'.
Proof.
  intros (E & L & K). rewrite E.
  split; try done; try (intros x; by destruct (K x) as [(?&?&?&?&?) ?]).
  exists []. split; [by rewrite app_nil_r | done].
Qed.

Lemma relabel_kids st st' : relabel st st' → ∀ x, kids st' x = kids st x.
Proof. intros (E & L & K) x. unfold kids. f_equal. apply K. Qed.

Lemma relabel_fields st st' :
  relabel st st' →
  recursed st' = recursed st ∧ witness_dead st' = witness_dead st
  ∧ w_child_free st' = w_child_free st ∧ console st' = console st
  ∧ all_locks st' = all_locks st.
Proof. intros (E & _). rewrite E. done. Qed.

Lemma relabel_for_each {A} (body : A → state → outcome state) l :
  (∀ x st st', body x st = Ok st' → relabel st st') →
  ∀ st st', for_each l body st = Ok st' → relabel st st'.
Proof.
  intros Hbody. induction l as [|x l IH]; intros st st'; simpl.
  - intros [= <-]. apply relabel_refl.
  - intros (s & Hs & Hrun)%outcome_bind_Ok.
    eapply relabel_trans; [by eapply Hbody | by apply IH].
Qed.

Lemma witness_leveldescendents_rec_relabel d p level st st' :
  witness_leveldescendents_rec d p level st = Ok st' → relabel st st'.
Proof.
  revert p level st st'. induction d as [|d IH]; intros p level st st'; [done|].
  simpl. intros Hrun.
  eapply relabel_trans; [|eapply relabel_for_each; [|exact Hrun]].
  - destruct (w_level (wit st p) <? level); [|apply relabel_refl].
    by apply relabel_set_wit.
  - intros c s s'. apply IH.
Qed.

Lemma witness_levelall_relabel st st' :
  witness_levelall st = Ok st' → relabel st st'.
Proof.
  unfold witness_levelall. intros Hrun.
  assert (Hclear : ∀ l s,
    relabel s (foldl (λ s w, set_wit w (with_level 0 (wit s w)) s) s l)).
  { induction l as [|w l IH]; intros s; simpl; [apply relabel_refl|].
    eapply relabel_trans; [|apply IH]. by apply relabel_set_wit. }
  eapply relabel_trans; [|eapply relabel_for_each; [|exact Hrun]].
  - apply Hclear.
  - intros w s s'. cbv beta. destruct (existsb _ _).
    + intros [= <-]. apply relabel_refl.
    + apply witness_leveldescendents_rec_relabel.
Qed.

(** *** The two partitions *)

Lemma in_type_list st w : registry_ok st → w ∈ w_all st → w ∈ type_list st w.
Proof.
  intros Hr Hw. apply (reg_typelists _ Hr) in Hw as [Hw|Hw].
  - by rewrite (reg_sleep _ Hr _ Hw).
  - by rewrite (reg_spin _ Hr _ Hw).
Qed.

Lemma type_list_inv st w x :
  registry_ok st → x ∈ type_list st w → sleeplock st x = sleeplock st w.
Proof.
  intros Hr. destruct (sleeplock st w) eqn:E; intros Hx.
  - by apply (reg_sleep _ Hr).
  - by apply (reg_spin _ Hr).
Qed.

Lemma edge_same_type st x y :
  registry_ok st → graph_ok st → edge st x y →
  sleeplock st x = sleeplock st y ∧ x ∈ w_all st ∧ y ∈ w_all st.
Proof.
  intros Hr Hg He.
  destruct (gr_edges _ Hg _ _ He) as [[Hx Hy]|[Hx Hy]].
  - rewrite (reg_sleep _ Hr _ Hx), (reg_sleep _ Hr _ Hy).
    split; [done|]. split; apply (reg_typelists _ Hr); auto.
  - rewrite (reg_spin _ Hr _ Hx), (reg_spin _ Hr _ Hy).
    split; [done|]. split; apply (reg_typelists _ Hr); auto.
Qed.

Lemma rtc_same_type st x y :
  registry_ok st → graph_ok st → rtc (edge st) x y →
  sleeplock st x = sleeplock st y.
Proof.
  intros Hr Hg H. induction H as [|x y z H _ IH]; [done|].
  rewrite <- IH. by apply edge_same_type.
Qed.

(** *** [itismychild] keeps the state well-formed *)

Lemma same_lock_type_sleeplock a b :
  same_lock_type a b = true →
  LC_SLEEPLOCK (lc_flags a) = LC_SLEEPLOCK (lc_flags b).
Proof.
  unfold same_lock_type. intros H%bool_decide_eq_true. congruence.
Qed.

Lemma w_all_in_range st w :
  registry_ok st → w ∈ w_all st → (w < length (w_data st))%nat.
Proof.
  intros Hr Hw. rewrite (reg_length _ Hr).
  apply (reg_valid _ Hr), elem_of_app. by right.
Qed.

(** The state after the store of a new edge that closes no cycle. *)
Lemma insert_child_graph_ok p c st st1 :
  registry_ok st → graph_ok st →
  p ∈ w_all st → c ∈ w_all st → sleeplock st p = sleeplock st c →
  p ≠ c → ¬ tc (edge st) c p → ¬ edge st p c →
  insert_child p c st = Ok (Some st1) →
  registry_ok st1 ∧ graph_ok st1 ∧ frame st st1
  ∧ recursed st1 = recursed st
  ∧ (∀ x y, edge st1 x y ↔ edge st x y ∨ (x = p ∧ y = c)).
Proof.
  intros Hreg Hg Hp Hc Hsl Hne Hcp Hnpc Hins.
  destruct (insert_child_Some _ _ _ _ Hins (w_all_in_range _ _ Hreg Hp))
    as (Hadd & Hoth & Hfr & Hrec).
  pose proof (edge_added st st1 p c Hadd Hoth) as Hedge.
  split; [by eapply frame_registry_ok|].
  split; [|done]. split.
  - intros x y [H|[-> ->]]%Hedge.
    + rewrite (fr_sleep _ _ Hfr), (fr_spin _ _ Hfr). by apply (gr_edges _ Hg).
    + rewrite (fr_sleep _ _ Hfr), (fr_spin _ _ Hfr).
      pose proof (in_type_list st p Hreg Hp) as H1.
      pose proof (in_type_list st c Hreg Hc) as H2.
      rewrite <- Hsl in H2. destruct (sleeplock st p); auto.
  - intros x. destruct (decide (x = p)) as [->|Hx].
    + rewrite Hadd. apply NoDup_cons. split; [done | apply (gr_nodup _ Hg)].
    + rewrite Hoth by done. apply (gr_nodup _ Hg).
  - intros x.
    eapply (acyclic_add (edge st) (edge st1) p c);
      [apply (gr_acyclic _ Hg) | | done | done].
    intros x' y' H. by apply Hedge.
Qed.

Lemma wf_dead_exhausted f st : wf st → wf (print (EvExhausted f) (set_dead st)).
Proof.
  intros [Hreg Hg Hred Hrec]. split; try done.
  - eapply frame_registry_ok; [apply frame_exhausted | done].
  - by apply (graph_ok_same_kids st).
Qed.

Lemma frame_set_recursed b st : frame st (set_recursed b st).
Proof. by apply frame_fields. Qed.

(** After the pass every edge of the partition of [p] is needed, and the
    other partition is as it was. *)
Lemma reduced_after_pass p c st st1 st3 :
  registry_ok st → graph_ok st → reduced st →
  (∀ x y, edge st1 x y → edge st x y ∨ (x = p ∧ y = c)) →
  frame st st3 → registry_ok st3 → graph_ok st3 →
  (∀ x y, edge st3 x y → edge st1 x y) →
  (∀ y, y ∈ type_list st p → ∀ x, x ∈ type_list st p → irredundant st3 x y) →
  reduced st3.
Proof.
  intros Hreg Hg Hred Hedge Hfr Hreg3 Hg3 Hsub Hirr x o y Hxy Hxo Ht.
  assert (Hcl : ∀ w, sleeplock st3 w = sleeplock st w).
  { intros w. by rewrite (fr_class _ _ Hfr). }
  destruct (edge_same_type st3 x y Hreg3 Hg3 Hxy) as (Hty & Hx & Hy).
  destruct (decide (sleeplock st x = sleeplock st p)) as [Hsame|Hdiff].
  - apply (Hirr y) with (x := x) (other := o); try done.
    + apply (in_type_list st3 y Hreg3) in Hy.
      rewrite <- Hty, !Hcl, Hsame in Hy.
      by rewrite (fr_sleep _ _ Hfr), (fr_spin _ _ Hfr) in Hy.
    + apply (in_type_list st3 x Hreg3) in Hx.
      rewrite !Hcl, Hsame in Hx.
      by rewrite (fr_sleep _ _ Hfr), (fr_spin _ _ Hfr) in Hx.
  - assert (Hxy0 : edge st x y).
    { destruct (Hedge _ _ (Hsub _ _ Hxy)) as [H|[-> _]]; done. }
    assert (Hxo0 : edge st x o).
    { destruct (Hedge _ _ (Hsub _ _ Hxo)) as [H|[-> _]]; done. }
    assert (Ht1 : tc (edge st1) o y) by by eapply tc_mono.
    destruct (tc_add_inv (edge st) (edge st1) p c Hedge _ _ Ht1)
      as [Ht0|[Hop _]].
    + by apply (Hred x o y).
    + apply Hdiff.
      destruct (edge_same_type st x o Hreg Hg Hxo0) as (-> & _).
      by apply rtc_same_type.
Qed.

Lemma itismychild_wf p c st r st' :
  wf st → p ∈ w_all st → c ∈ w_all st →
  p ≠ c → ¬ tc (edge st) c p → ¬ edge st p c →
  itismychild p c st = Ok (r, st') →
  wf st' ∧ frame st st'.
Proof.
  intros Hwf Hp Hc Hne Hcp Hnpc. pose proof Hwf as [Hreg Hg Hred Hrec].
  unfold itismychild, itismychild_at.
  destruct (same_lock_type _ _) eqn:Hsame; simpl; [|done].
  apply same_lock_type_sleeplock in Hsame.
  intros (ins & Hins & Hk)%outcome_bind_Ok.
  destruct ins as [st1|].
  2: { injection Hk as <- <-. rewrite (insert_child_None _ _ _ Hins). simpl.
       split; [by apply wf_dead_exhausted | apply frame_exhausted]. }
  destruct (insert_child_graph_ok p c st st1) as (Hreg1 & Hg1 & Hfr1 & Hrec1 & Hedge1);
    try done.
  rewrite Hrec1, Hrec in Hk.
  apply outcome_bind_Ok in Hk as (st3 & Hpass & Hk).
  apply outcome_bind_Ok in Hk as (st4 & Hlev & Hk). injection Hk as <- <-.
  set (st2 := set_recursed true st1) in *.
  assert (Hfr12 : frame st1 st2) by apply frame_set_recursed.
  destruct (prune_pass_spec
              (if sleeplock st2 p then w_sleep st1 else w_spin st1) st2 st3)
    as ((Hreg3 & Hg3 & Hrec3) & (Hfr3 & Hsub3) & Hirr);
    [by eapply frame_registry_ok | by apply (graph_ok_same_kids st1) | done
    | exact Hpass |].
  apply witness_levelall_relabel in Hlev.
  assert (Hfr03 : frame st st3).
  { eapply frame_trans; [exact Hfr1|]. by eapply frame_trans. }
  assert (Hfr : frame st st4).
  { eapply frame_trans; [exact Hfr03|].
    eapply frame_trans; [apply (frame_set_recursed false)|].
    by apply relabel_frame. }
  assert (Hk4 : ∀ x, kids st4 x = kids st3 x).
  { intros x. by rewrite (relabel_kids _ _ Hlev). }
  split; [|done]. split.
  - by eapply frame_registry_ok.
  - apply (graph_ok_same_kids st3); try done.
    + by rewrite (fr_sleep _ _ Hfr), (fr_sleep _ _ Hfr03).
    + by rewrite (fr_spin _ _ Hfr), (fr_spin _ _ Hfr03).
  - apply (reduced_same_kids st3); [done|].
    apply (reduced_after_pass p c st st1); try done.
    + intros x y H. by apply Hedge1.
    + assert (HL : (if sleeplock st2 p then w_sleep st1 else w_spin st1)
                   = type_list st p).
      { change (wit st2 p) with (wit st1 p).
        by rewrite (fr_class _ _ Hfr1), (fr_sleep _ _ Hfr1),
             (fr_spin _ _ Hfr1). }
      intros y Hy x Hx. apply Hirr; by rewrite HL.
  - destruct (relabel_fields _ _ Hlev) as (-> & _). done.
Qed.

(** *** Relations between states *)

Lemma flags_kept_refl st : flags_kept st st.
Proof.
  split; [by intros x Hx|]. exists []. split; [by rewrite app_nil_r | done].
Qed.

Lemma flags_kept_trans s1 s2 s3 :
  flags_kept s1 s2 → flags_kept s2 s3 → flags_kept s1 s3.
Proof.
  intros [H1 (e1 & He1 & Hf1)] [H2 (e2 & He2 & Hf2)]. split.
  - intros x Hx. destruct (H1 x Hx) as (Hx2 & ? & ? & ?).
    destruct (H2 x Hx2) as (Hx3 & ? & ? & ?).
    split; [done|]. split; [|split]; congruence.
  - exists (e1 ++ e2). split.
    + by rewrite He2, He1, app_assoc.
    + by apply Forall_app.
Qed.

Lemma frame_flags_kept st st' : frame st st' → flags_kept st st'.
Proof.
  intros Hfr. split; [|apply (fr_console _ _ Hfr)].
  intros x Hx. rewrite (fr_free _ _ Hfr).
  split; [done|]. split; [apply (fr_Giant _ _ Hfr)|].
  split; [apply (fr_other _ _ Hfr) | apply (fr_same _ _ Hfr)].
Qed.

Lemma find_witness_Some st description w :
  find_witness st description = Some w →
  w ∈ w_all st ∧ w_name (wit st w) = description.
Proof.
  unfold find_witness. intros [H1 H2]%find_some. split.
  - by apply list_elem_of_In.
  - symmetry. by apply String.eqb_eq.
Qed.

(** *** [enroll] keeps the state well-formed *)

(** The state after [enroll] has taken [w] from the free list;
    [sleep] tells the list it went to. *)
Lemma enroll_new_wf (sleep : bool) st st' w rest v :
  wf st → w_free st = w :: rest →
  w_children v = [] → LC_SLEEPLOCK (lc_flags (w_class v)) = sleep →
  length (w_data st') = length (w_data st) →
  wit st' w = v → (∀ x, x ≠ w → wit st' x = wit st x) →
  w_free st' = rest → w_all st' = w :: w_all st →
  w_sleep st' = (if sleep then w :: w_sleep st else w_sleep st) →
  w_spin st' = (if sleep then w_spin st else w :: w_spin st) →
  locks st' = locks st → recursed st' = recursed st →
  console st' = console st →
  wf st' ∧ flags_kept st st'.
Proof.
  intros [Hreg Hg Hred Hrec] Hfree Hkids Hcl Hlen Hw Hoth Hf' Ha' Hs' Hp'
    Hl' Hr' Hc'.
  pose proof (reg_nodup _ Hreg) as Hnd. rewrite Hfree in Hnd. simpl in Hnd.
  apply NoDup_cons in Hnd as [Hwn Hnd].
  apply not_elem_of_app in Hwn as [Hwrest Hwall].
  assert (Hk : ∀ x, kids st' x = if decide (x = w) then [] else kids st x).
  { intros x. unfold kids. destruct (decide (x = w)) as [->|Hx].
    - by rewrite Hw, Hkids.
    - by rewrite Hoth. }
  assert (Hsub : ∀ x y, edge st' x y → edge st x y).
  { intros x y. unfold edge. rewrite Hk. destruct (decide (x = w)); [|done].
    intros H. by apply not_elem_of_nil in H. }
  split; [split|].
  - split.
    + rewrite Hlen. apply Hreg.
    + rewrite Hf', Ha'. by rewrite <- Permutation_middle, NoDup_cons, not_elem_of_app.
    + intros x Hx. apply (reg_valid _ Hreg). rewrite Hfree.
      rewrite Hf', Ha' in Hx. by rewrite <- Permutation_middle in Hx.
    + intros x. rewrite Ha', Hs', Hp', elem_of_cons.
      rewrite <- (reg_typelists _ Hreg x).
      destruct sleep; rewrite elem_of_cons; tauto.
    + intros x. rewrite Hs'. destruct sleep.
      * intros [->|Hx]%elem_of_cons; [by rewrite Hw|].
        rewrite Hoth; [by apply (reg_sleep _ Hreg)|].
        intros ->. apply Hwall, (reg_typelists _ Hreg). auto.
      * intros Hx. rewrite Hoth; [by apply (reg_sleep _ Hreg)|].
        intros ->. apply Hwall, (reg_typelists _ Hreg). auto.
    + intros x. rewrite Hp'. destruct sleep.
      * intros Hx. rewrite Hoth; [by apply (reg_spin _ Hreg)|].
        intros ->. apply Hwall, (reg_typelists _ Hreg). auto.
      * intros [->|Hx]%elem_of_cons; [by rewrite Hw|].
        rewrite Hoth; [by apply (reg_spin _ Hreg)|].
        intros ->. apply Hwall, (reg_typelists _ Hreg). auto.
    + intros l obj x. rewrite Hl', Ha'. intros H1 H2. right.
      by apply (reg_locks _ Hreg l obj).
    + rewrite Hl'. apply Hreg.
  - apply (graph_ok_sub_incl st); try done.
    + intros x. rewrite Hk. destruct (decide (x = w)); [apply NoDup_nil_2|].
      apply (gr_nodup _ Hg).
    + intros x Hx. rewrite Hs'. destruct sleep; [by right | done].
    + intros x Hx. rewrite Hp'. destruct sleep; [done | by right].
  - by apply (reduced_sub st).
  - congruence.
  - split.
    + intros x Hx. rewrite Hfree in Hx. apply not_elem_of_cons in Hx as [Hxw Hxr].
      rewrite Hf', Hoth by done. done.
    + exists []. split; [by rewrite Hc', app_nil_r | done].
Qed.

Lemma relabel_wf st st' : wf st → relabel st st' → wf st'.
Proof.
  intros [Hreg Hg Hred Hrec] Hrel.
  pose proof (relabel_frame _ _ Hrel) as Hfr.
  pose proof (relabel_kids _ _ Hrel) as Hk.
  split.
  - by eapply frame_registry_ok.
  - apply (graph_ok_same_kids st); try done; by destruct Hfr.
  - by apply (reduced_same_kids st).
  - destruct (relabel_fields _ _ Hrel) as (-> & _). done.
Qed.

Lemma enroll_wf description class st r st' :
  wf st → class_ok class →
  enroll description class st = Ok (r, st') →
  wf st' ∧ flags_kept st st' ∧ locks st' = locks st
  ∧ (∀ w, r = Some w → w ∈ w_all st')
  ∧ (∀ w, find_witness st description = None → r = Some w →
       (w ∉ w_all st) ∧ w_all st' = w :: w_all st
       ∧ w_name (wit st' w) = description ∧ w_children (wit st' w) = []
       ∧ ∀ x, x ≠ w → wit st' x = wit st x).
Proof.
  intros Hwf Hclass. unfold enroll.
  destruct (witness_watch st =? 0).
  { intros [= <- <-]. split; [done|]. split; [apply flags_kept_refl|]. done. }
  destruct (_ && _).
  { intros [= <- <-]. split; [done|]. split; [apply flags_kept_refl|]. done. }
  destruct (find_witness st description) as [w|] eqn:Hfind.
  - destruct (bool_decide _); [done|]. intros [= <- <-].
    apply find_witness_Some in Hfind as [Hw _].
    assert (Hrel : relabel st (set_wit w
              (with_refcount (u_int (w_refcount (wit st w) + 1)) (wit st w)) st))
      by by apply relabel_set_wit.
    split; [by eapply relabel_wf|].
    split; [by apply frame_flags_kept, relabel_frame|]. split; [done|].
    split; [|done]. intros ? [= <-]. done.
  - destruct (LC_SPINLOCK (lc_flags class) && negb (witness_cold st)); [done|].
    unfold witness_get. destruct (w_free st) as [|w rest] eqn:Hfree.
    { intros [= <- <-]. split; [by apply wf_dead_exhausted|].
      split; [apply frame_flags_kept, frame_exhausted|]. done. }
    assert (Hin : (w < length (w_data st))%nat).
    { rewrite (reg_length _ (wf_registry _ Hwf)).
      apply (reg_valid _ (wf_registry _ Hwf)). rewrite Hfree. by left. }
    assert (Hwall : w ∉ w_all st).
    { pose proof (reg_nodup _ (wf_registry _ Hwf)) as Hnd.
      rewrite Hfree in Hnd. simpl in Hnd.
      apply NoDup_cons in Hnd as [Hnd _]. by apply not_elem_of_app in Hnd as [_ ?]. }
    set (st1 := set_wit w zero_witness (set_w_free rest st)).
    set (v := with_refcount 1 _).
    set (st2 := set_wit w v st1).
    assert (Hlen : length (w_data st2) = length (w_data st)).
    { unfold st2, st1, set_wit. simpl. by rewrite !length_insert. }
    assert (Hw2 : wit st2 w = v).
    { unfold st2. apply wit_set_wit_eq. unfold st1, set_wit. simpl.
      by rewrite length_insert. }
    assert (Ho2 : ∀ x, x ≠ w → wit st2 x = wit st x).
    { intros x Hx. unfold st2. rewrite wit_set_wit_ne by done.
      unfold st1. by rewrite wit_set_wit_ne. }
    assert (Hkv : w_children v = []).
    { unfold v. simpl. unfold st1. by rewrite wit_set_wit_eq. }
    assert (Hcv : w_class v = class) by done.
    assert (Hnv : w_name v = description) by done.
    destruct (LC_SPINLOCK (lc_flags class)) eqn:Hspin.
    + intros [= <- <-].
      destruct (enroll_new_wf false st
                  (set_w_spin (w :: w_spin st) (set_w_all (w :: w_all st) st2))
                  w rest v) as [H1 H2]; try done.
      { rewrite Hcv. unfold class_ok in Hclass. rewrite Hspin in Hclass.
        by destruct (LC_SLEEPLOCK (lc_flags class)). }
      split; [done|]. split; [done|]. split; [done|]. split.
      * intros ? [= <-]. simpl. by left.
      * intros ? _ [= <-]. split; [done|]. split; [done|].
        change (wit (set_w_spin ?a (set_w_all ?b st2))) with (wit st2).
        rewrite Hw2. done.
    + destruct (LC_SLEEPLOCK (lc_flags class)) eqn:Hsleep; [|done].
      intros [= <- <-].
      destruct (enroll_new_wf true st
                  (set_w_sleep (w :: w_sleep st) (set_w_all (w :: w_all st) st2))
                  w rest v) as [H1 H2]; try done.
      split; [done|]. split; [done|]. split; [done|]. split.
      * intros ? [= <-]. simpl. by left.
      * intros ? _ [= <-]. split; [done|]. split; [done|].
        change (wit (set_w_sleep ?a (set_w_all ?b st2))) with (wit st2).
        rewrite Hw2. done.
Qed.

(** *** Stores that keep the state well-formed *)

Lemma wf_fields st st' :
  w_data st' = w_data st → w_free st' = w_free st → w_all st' = w_all st →
  w_sleep st' = w_sleep st → w_spin st' = w_spin st →
  locks st' = locks st → recursed st' = recursed st →
  wf st → wf st'.
Proof.
  intros Hd Hf Ha Hs Hp Hl Hr [Hreg Hg Hred Hrec].
  assert (Hw : ∀ x, wit st' x = wit st x) by (intros x; unfold wit; by rewrite Hd).
  assert (Hk : ∀ x, kids st' x = kids st x) by (intros x; unfold kids; by rewrite Hw).
  split.
  - destruct Hreg as [H1 H2 H3 H4 H5 H6 H7 H8]. split.
    + by rewrite Hd.
    + by rewrite Hf, Ha.
    + by rewrite Hf, Ha.
    + by rewrite Hs, Hp, Ha.
    + rewrite Hs. intros w Hx. rewrite Hw. auto.
    + rewrite Hp. intros w Hx. rewrite Hw. auto.
    + by rewrite Hl, Ha.
    + by rewrite Hl.
  - by apply (graph_ok_same_kids st).
  - by apply (reduced_same_kids st).
  - congruence.
Qed.

(** A store into a witness that keeps its class and its children. *)
Lemma wf_set_wit w v st :
  w_class v = w_class (wit st w) → w_children v = w_children (wit st w) →
  wf st → wf (set_wit w v st).
Proof.
  intros Hc Hch [Hreg Hg Hred Hrec].
  assert (Hcl : ∀ x, w_class (wit (set_wit w v st) x) = w_class (wit st x))
    by (intros x; by apply (wit_set_wit_field w_class)).
  assert (Hk : ∀ x, kids (set_wit w v st) x = kids st x)
    by (intros x; by apply kids_set_wit).
  split.
  - destruct Hreg as [H1 H2 H3 H4 H5 H6 H7 H8]. split; try done.
    + unfold set_wit. simpl. by rewrite length_insert.
    + intros x Hx. rewrite Hcl. by apply H5.
    + intros x Hx. rewrite Hcl. by apply H6.
  - by apply (graph_ok_same_kids st).
  - by apply (reduced_same_kids st).
  - done.
Qed.

Lemma lock_at_witness st l w :
  registry_ok st → lo_witness (lock_at st l) = Some w → w ∈ w_all st.
Proof.
  intros Hreg. unfold lock_at. destruct (locks st !! l) as [obj|] eqn:E; [|done].
  simpl. by apply (reg_locks _ Hreg l obj).
Qed.

Lemma lock_at_class st l :
  registry_ok st → LO_WITNESS (lo_flags (lock_at st l)) = true →
  class_ok (lo_class (lock_at st l)).
Proof.
  intros Hreg. unfold lock_at. destruct (locks st !! l) as [obj|] eqn:E; [|done].
  simpl. by apply (reg_lock_class _ Hreg l obj).
Qed.

(** A store into a lock object whose witness is known. *)
Lemma wf_set_lock l obj st :
  (∀ w, lo_witness obj = Some w → w ∈ w_all st) →
  (LO_WITNESS (lo_flags obj) = true → class_ok (lo_class obj)) →
  wf st → wf (set_lock l obj st).
Proof.
  intros Hw Hc [Hreg Hg Hred Hrec]. split.
  - destruct Hreg as [H1 H2 H3 H4 H5 H6 H7 H8]. split; try done.
    + intros l' obj' w. unfold set_lock. simpl.
      destruct (decide (l = l')) as [->|Hne].
      * rewrite lookup_insert_eq. intros [= <-]. apply Hw.
      * rewrite lookup_insert_ne by done. apply H7.
    + intros l' obj'. unfold set_lock. simpl.
      destruct (decide (l = l')) as [->|Hne].
      * rewrite lookup_insert_eq. intros [= <-]. apply Hc.
      * rewrite lookup_insert_ne by done. apply H8.
  - by apply (graph_ok_same_kids st).
  - by apply (reduced_same_kids st).
  - done.
Qed.

Lemma wf_sited lock w file line st : wf st → wf (sited lock w file line st).
Proof.
  intros Hwf. unfold sited.
  set (st1 := set_wit w _ st).
  assert (Hwf1 : wf st1) by by apply wf_set_wit.
  apply wf_set_lock; [| |done].
  - simpl. intros x Hx.
    apply (lock_at_witness st1 lock); [apply Hwf1 | done].
  - simpl. intros Hx.
    apply (lock_at_class st1 lock); [apply Hwf1 | done].
Qed.

Lemma wf_witness_lock_out lock w class file line p cpu st st' :
  wf st → witness_lock_out lock w class file line p cpu st = Ok st' → wf st'.
Proof.
  intros Hwf. unfold witness_lock_out.
  pose proof (wf_sited lock w file line st Hwf) as Hs.
  set (st2 := sited lock w file line st) in *.
  destruct (match lock_list_of class p cpu st2 with [] => true | _ => _ end).
  - unfold witness_lock_list_get. destruct (w_lock_list_free st2).
    + intros [= <-].
      apply (wf_fields st2); try done; unfold set_lock_list;
        by destruct (LC_SLEEPLOCK _).
    + destruct (Nat.leb _ _); [done|]. intros [= <-].
      apply (wf_fields st2); try done; unfold set_lock_list;
        by destruct (LC_SLEEPLOCK _).
  - destruct (lock_list_of class p cpu st2); [by intros [= <-]|].
    destruct (Nat.leb _ _); [done|]. intros [= <-].
    apply (wf_fields st2); try done; unfold set_lock_list;
      by destruct (LC_SLEEPLOCK _).
Qed.

(** *** The check of an acquisition *)

Lemma find_reversal_spec st w held :
  registry_ok st → graph_ok st →
  ∃ r, find_reversal st w held = Ok r
       ∧ match r with
         | Some (lock1, w1) =>
             lock1 ∈ held ∧ lo_witness (lock_at st lock1) = Some w1
             ∧ tc (edge st) w w1
         | None =>
             ∀ lock1 w1, lock1 ∈ held →
               lo_witness (lock_at st lock1) = Some w1 → ¬ tc (edge st) w w1
         end.
Proof.
  intros Hreg Hg. induction held as [|lock1 held IH]; simpl.
  - exists None. split; [done|]. intros ? ? H. by apply not_elem_of_nil in H.
  - destruct IH as (r & Hr & Hspec).
    destruct (lo_witness (lock_at st lock1)) as [w1|] eqn:Hw1.
    + destruct (isitmydescendant_spec st w w1 Hreg Hg) as (b & -> & Hb). simpl.
      destruct b.
      * exists (Some (lock1, w1)). split; [done|].
        split; [left|]. split; [done | by apply Hb].
      * exists r. split; [done|]. destruct r as [[l1 w1']|].
        -- destruct Hspec as (H1 & H2 & H3). split; [by right | done].
        -- intros l1 w1' [->|Hin]%elem_of_cons Hl.
           ++ rewrite Hw1 in Hl. injection Hl as <-. intros Ht.
              apply Hb in Ht. done.
           ++ by apply (Hspec l1).
    + exists r. split; [done|]. destruct r as [[l1 w1']|].
      * destruct Hspec as (H1 & H2 & H3). split; [by right | done].
      * intros l1 w1' [->|Hin]%elem_of_cons Hl; [congruence|].
        by apply (Hspec l1).
Qed.

Lemma last_in_held_scan lle rest (lock1 : nat) :
  last lle = Some lock1 → lock1 ∈ held_scan (lle :: rest).
Proof.
  intros H. unfold held_scan. simpl. apply elem_of_app. left.
  apply elem_of_reverse. rewrite last_lookup in H.
  by eapply list_elem_of_lookup_2.
Qed.

Lemma wf_print e st : wf st → wf (print e st).
Proof. by apply wf_fields. Qed.

Lemma witness_lock_check_spec lock w file line chain st st1 :
  wf st → w ∈ w_all st →
  witness_lock_check lock w file line chain st = Ok st1 →
  wf st1
  ∧ (frame st st1
     ∨ (∃ lle rest lock1,
          chain = lle :: rest ∧ last lle = Some lock1
          ∧ lo_witness (lock_at st lock1) = Some w
          ∧ w_same_squawked (wit st w) = false ∧ dup_ok st w = false
          ∧ st1 = print (EvDuplicate w (lo_name (lock_at st lock))
                           (w_file (wit st w)) (w_line (wit st w)) file line)
                    (set_wit w (with_same_squawked (wit st w)) st))
     ∨ (∃ lock1 w1,
          lock1 ∈ held_scan chain
          ∧ lo_witness (lock_at st lock1) = Some w1
          ∧ tc (edge st) w w1 ∧ blessed blessed_list st w w1 = false
          ∧ ((lock1 = Giant ∧ w_Giant_squawked (wit st w1) = false
              ∧ st1 = print (EvReversal w w1 lock1 lock file line)
                        (set_wit w1 (with_Giant_squawked (wit st w1)) st))
             ∨ (lock1 ≠ Giant ∧ w_other_squawked (wit st w1) = false
                ∧ st1 = print (EvReversal w w1 lock1 lock file line)
                          (set_wit w1 (with_other_squawked (wit st w1))
                             st))))).
Proof.
  intros Hwf Hw. pose proof Hwf as [Hreg Hg Hred Hrec].
  unfold witness_lock_check.
  destruct chain as [|lle rest].
  { intros [= <-]. split; [done|]. left. apply frame_refl. }
  destruct (last lle) as [lock1|] eqn:Hlast; [|done].
  destruct (lo_witness (lock_at st lock1)) as [w1|] eqn:Hw1; [|done].
  destruct (decide (w1 = w)) as [->|Hne].
  { rewrite bool_decide_eq_true_2 by done.
    destruct (w_same_squawked (wit st w)) eqn:Hsq; simpl.
    { intros [= <-]. split; [done|]. left. apply frame_refl. }
    destruct (dup_ok st w) eqn:Hdup.
    { intros [= <-]. split; [done|]. left. apply frame_refl. }
    intros [= <-]. split.
    - apply wf_print. by apply wf_set_wit.
    - right. left. exists lle, rest, lock1.
      repeat (split; [done|]).
      f_equal. f_equal; by apply (wit_set_wit_field _). }
  rewrite bool_decide_eq_false_2 by done.
  destruct (_ && _).
  { intros [= <-]. split; [done|]. left. apply frame_refl. }
  destruct (isitmydescendant_spec st w1 w Hreg Hg) as (known & -> & Hknown).
  simpl. destruct known.
  { intros [= <-]. split; [done|]. left. apply frame_refl. }
  destruct (find_reversal_spec st w (held_scan (lle :: rest)) Hreg Hg)
    as (found & -> & Hfound). simpl.
  destruct found as [[l1 w1']|].
  - destruct Hfound as (Hin & Hl1 & Ht).
    destruct (blessed blessed_list st w w1') eqn:Hbl.
    { intros [= <-]. split; [done|]. left. apply frame_refl. }
    destruct (decide (l1 = Giant)) as [HG|HG].
    + rewrite bool_decide_eq_true_2 by done.
      destruct (w_Giant_squawked (wit st w1')) eqn:Hsq.
      { intros [= <-]. split; [done|]. left. apply frame_refl. }
      intros [= <-]. split.
      * apply wf_print. by apply wf_set_wit.
      * right. right. exists l1, w1'. repeat (split; [done|]). by left.
    + rewrite bool_decide_eq_false_2 by done.
      destruct (w_other_squawked (wit st w1')) eqn:Hsq.
      { intros [= <-]. split; [done|]. left. apply frame_refl. }
      intros [= <-]. split.
      * apply wf_print. by apply wf_set_wit.
      * right. right. exists l1, w1'. repeat (split; [done|]). by right.
  - intros (r & Hr & Hk)%outcome_bind_Ok. injection Hk as <-.
    destruct r as [r st']. simpl.
    destruct (itismychild_wf w1 w st r st') as [H1 H2]; try done.
    + by apply (lock_at_witness st lock1).
    + apply (Hfound lock1 w1); [|done]. by apply last_in_held_scan.
    + intros He. assert (false = true); [|done].
      apply Hknown. by apply tc_once.
    + split; [done | by left].
Qed.

(** *** Every call keeps the state well-formed *)

Lemma witness_lock_wf lock flags file line p cpu st st' :
  wf st → witness_lock lock flags file line p cpu st = Ok st' → wf st'.
Proof.
  intros Hwf. unfold witness_lock.
  destruct (lo_witness (lock_at st lock)) as [w|] eqn:Hw; [|by intros [= <-]].
  destruct (_ || _); [by intros [= <-]|].
  destruct (negb _); [done|].
  destruct (LO_RECURSED _).
  { destruct (negb _); [done | by intros [= <-]]. }
  destruct (_ && _); [done|].
  intros (st1 & Hcheck & Hout)%outcome_bind_Ok.
  apply (wf_witness_lock_out _ _ _ _ _ _ _ _ _) in Hout; [done|].
  destruct (LOP_TRYLOCK flags); [by injection Hcheck as <-|].
  apply witness_lock_check_spec in Hcheck as [H _]; try done.
  apply (lock_at_witness st lock); [apply Hwf | done].
Qed.

Lemma witness_unlock_wf lock flags file line p cpu st st' :
  wf st → witness_unlock lock flags file line p cpu st = Ok st' → wf st'.
Proof.
  intros Hwf. unfold witness_unlock.
  destruct (lo_witness (lock_at st lock)) as [w|]; [|by intros [= <-]].
  destruct (_ || _); [by intros [= <-]|].
  destruct (LO_RECURSED _).
  { destruct (negb _); [done | by intros [= <-]]. }
  destruct (_ && _); [done|].
  destruct (unlock_chain _ _) as [[chain freed]|]; [|by intros [= <-]].
  intros [= <-].
  destruct freed; apply (wf_fields st); try done; unfold set_lock_list;
    by destruct (LC_SLEEPLOCK _).
Qed.

Lemma foldl_print_fields evs st :
  let st' := foldl (λ s e, print e s) st evs in
  w_data st' = w_data st ∧ w_free st' = w_free st ∧ w_all st' = w_all st
  ∧ w_sleep st' = w_sleep st ∧ w_spin st' = w_spin st
  ∧ locks st' = locks st ∧ recursed st' = recursed st
  ∧ p_sleeplocks st' = p_sleeplocks st ∧ spinlocks st' = spinlocks st
  ∧ witness_dead st' = witness_dead st ∧ console st' = console st ++ evs.
Proof.
  revert st. induction evs as [|e evs IH]; intros st; simpl.
  - by rewrite app_nil_r.
  - destruct (IH (print e st)) as (?&?&?&?&?&?&?&?&?&?&Hc).
    repeat (split; [done|]). rewrite Hc. simpl. by rewrite <- app_assoc.
Qed.

Lemma witness_sleep_wf check_only lock file line p cpu st :
  wf st → wf (witness_sleep check_only lock file line p cpu st).2.
Proof.
  intros Hwf. unfold witness_sleep.
  destruct (_ || _); [done|].
  destruct (sleep_scan _ _ _ _ _ _ _ _) as [n1 out1].
  destruct (sleep_scan _ _ _ _ _ _ _ _) as [n2 out2]. simpl.
  destruct (foldl_print_fields out2 st) as (?&?&?&?&?&?&?&_).
  by apply (wf_fields st).
Qed.

Lemma witness_restore_wf lock file line st :
  wf st → wf (witness_restore lock file line st).
Proof.
  intros Hwf. unfold witness_restore.
  destruct (lo_witness (lock_at st lock)) as [w|]; [|done].
  set (st1 := set_wit w _ st).
  assert (Hwf1 : wf st1) by by apply wf_set_wit.
  apply wf_set_lock; [| |done].
  - simpl. intros x Hx.
    apply (lock_at_witness st1 lock); [apply Hwf1 | done].
  - simpl. intros Hx.
    apply (lock_at_class st1 lock); [apply Hwf1 | done].
Qed.

Lemma wf_set_all_locks l cur mx st : wf st → wf (set_all_locks l cur mx st).
Proof. by apply wf_fields. Qed.

Lemma lock_at_set_lock l obj st : lock_at (set_lock l obj st) l = obj.
Proof. unfold lock_at, set_lock. simpl. by rewrite lookup_insert_eq. Qed.

Lemma witness_init_wf lock st st' :
  wf st → witness_init lock st = Ok st' → wf st'.
Proof.
  intros Hwf. unfold witness_init.
  destruct (LO_INITIALIZED _); [done|].
  destruct (_ && _); [done|]. destruct (_ && _); [done|].
  set (l1 := lock_with_flags _ _).
  set (st1 := set_all_locks _ _ _ _).
  assert (Hwf1 : wf st1).
  { apply wf_set_all_locks, wf_set_lock; [| |done].
    - simpl. intros w Hw. apply (lock_at_witness st lock); [apply Hwf | done].
    - simpl. intros H. apply (lock_at_class st lock); [apply Hwf | done]. }
  destruct (_ && _) eqn:Hcond.
  - apply andb_true_iff in Hcond as [_ HW].
    intros ([w st2] & Henr & Hk)%outcome_bind_Ok. injection Hk as <-.
    destruct (enroll_wf _ _ _ _ _ Hwf1
                (lock_at_class st lock (wf_registry _ Hwf) HW) Henr)
      as (Hwf2 & _ & Hlocks & Hw & _).
    apply wf_set_lock; [| |done].
    + simpl. intros x ->. by apply Hw.
    + unfold lock_at. rewrite Hlocks.
      change (default zero_lock (locks st1 !! lock)) with (lock_at st1 lock).
      unfold st1. change (lock_at (set_all_locks ?a ?b ?c ?s) lock)
        with (lock_at s lock). rewrite lock_at_set_lock. simpl.
      intros H. apply (lock_at_class st lock); [apply Hwf | done].
  - intros [= <-]. apply wf_set_lock; [done| |done].
    simpl. intros H. apply (lock_at_class st lock); [apply Hwf | done].
Qed.

Lemma witness_destroy_wf lock st st' :
  wf st → witness_destroy lock st = Ok st' → wf st'.
Proof.
  intros Hwf. unfold witness_destroy.
  destruct (witness_cold st); [done|].
  destruct (negb _); [done|]. destruct (LO_LOCKED _); [done|].
  intros [= <-].
  set (st1 := match lo_witness (lock_at st lock) with
              | Some w => _ | None => st end).
  assert (Hwf1 : wf st1).
  { unfold st1. destruct (lo_witness (lock_at st lock)) as [w|]; [|done].
    apply wf_set_wit; [|by destruct (_ =? _)|done].
    by destruct (_ =? _). }
  assert (Hall : w_all st1 = w_all st).
  { unfold st1. by destruct (lo_witness (lock_at st lock)). }
  apply wf_set_lock; [| done | by apply wf_set_all_locks].
  simpl. intros w Hw. rewrite Hall. apply (lock_at_witness st lock); [apply Hwf | done].
Qed.

Lemma step_wf o st st' : wf st → op_ok o → step o st = Ok st' → wf st'.
Proof.
  intros Hwf Hok. destruct o as [lock class name flags| | | | | |]; simpl.
  - destruct (bool_decide _); [by apply witness_init_wf|].
    apply witness_init_wf. by apply wf_set_lock.
  - by apply witness_destroy_wf.
  - by apply witness_lock_wf.
  - by apply witness_unlock_wf.
  - intros [= <-]. by apply witness_sleep_wf.
  - intros [= <-]. by apply witness_restore_wf.
  - intros [= <-]. apply wf_set_lock; [| |done].
    + simpl. intros w Hw. apply (lock_at_witness st lock); [apply Hwf | done].
    + simpl. intros H. apply (lock_at_class st lock); [apply Hwf | done].
Qed.

(** *** [witness_initialize] *)

Lemma kids_zero st x :
  w_data st = replicate WITNESS_COUNT zero_witness → kids st x = [].
Proof.
  intros H. unfold kids, wit. rewrite H.
  destruct (decide (x < WITNESS_COUNT)%nat) as [Hx|Hx].
  - by rewrite list_lookup_total_alt, lookup_replicate_2.
  - rewrite list_lookup_total_alt, lookup_ge_None_2; [done|].
    rewrite length_replicate. lia.
Qed.

Lemma no_edges_graph st :
  (∀ x, kids st x = []) → graph_ok st ∧ reduced st.
Proof.
  intros Hk.
  assert (He : ∀ x y, ¬ edge st x y).
  { intros x y. unfold edge. rewrite Hk. apply not_elem_of_nil. }
  split; [split|].
  - intros p c H. by apply He in H.
  - intros p. rewrite Hk. apply NoDup_nil_2.
  - intros x H. apply tc_inv_l in H as [H|(y & H & _)]; by apply He in H.
  - intros p o c H. by apply He in H.
Qed.

Lemma cold_boot_wf st : cold_boot st → wf st.
Proof.
  intros []. destruct (no_edges_graph st) as [Hg Hr].
  { intros x. by apply kids_zero. }
  split; try done. split.
  - rewrite cb_data0. apply length_replicate.
  - rewrite cb_free0, cb_all0. apply NoDup_nil_2.
  - intros w. rewrite cb_free0, cb_all0. intros H. by apply not_elem_of_nil in H.
  - intros w. rewrite cb_sleep0, cb_spin0, cb_all0. split.
    + intros [H|H]; by apply not_elem_of_nil in H.
    + intros H. by apply not_elem_of_nil in H.
  - intros w. rewrite cb_sleep0. intros H. by apply not_elem_of_nil in H.
  - intros w. rewrite cb_spin0. intros H. by apply not_elem_of_nil in H.
  - intros l obj w H1 H2. rewrite (cb_witness0 l obj H1) in H2. done.
  - done.
Qed.

(** The three loops that fill the pools. *)
Lemma fill_witness_pool st l :
  w_free (foldl (λ s i, witness_free i s) st l) = reverse l ++ w_free st
  ∧ ∀ s', s' = foldl (λ s i, witness_free i s) st l →
      s' = set_w_free (w_free s') st.
Proof.
  revert st. induction l as [|i l IH]; intros st; simpl.
  - split; [done|]. intros s' ->. by destruct st.
  - destruct (IH (witness_free i st)) as [H1 H2]. split.
    + rewrite H1. simpl. by rewrite reverse_cons, <- app_assoc.
    + intros s' ->. by rewrite (H2 _ eq_refl) at 1.
Qed.

Lemma fill_child_pool st (l : list nat) :
  foldl (λ s _, witness_child_free s) st l
    = set_w_child_free (length l + w_child_free st) st.
Proof.
  revert st. induction l as [|i l IH]; intros st; simpl.
  - by destruct st.
  - rewrite IH. unfold witness_child_free. simpl.
    by rewrite Nat.add_succ_r.
Qed.

Lemma fill_lock_list_pool st (l : list nat) :
  foldl (λ s _, witness_lock_list_free s) st l
    = set_w_lock_list_free (length l + w_lock_list_free st) st.
Proof.
  revert st. induction l as [|i l IH]; intros st; simpl.
  - by destruct st.
  - rewrite IH. unfold witness_lock_list_free. simpl.
    by rewrite Nat.add_succ_r.
Qed.

Lemma find_witness_None st name :
  (∀ x, x ∈ w_all st → w_name (wit st x) ≠ name) →
  find_witness st name = None.
Proof.
  unfold find_witness. induction (w_all st) as [|x l IH]; intros H; simpl; [done|].
  destruct (String.eqb_spec name (w_name (wit st x))) as [->|Hne].
  - exfalso. apply (H x); [left | done].
  - apply IH. intros y Hy. apply H. by right.
Qed.

(** A name of the order list that is not known yet gets a new witness,
    without children and not a child of any witness. *)
Lemma enroll_order_entry name class st w1 st1 :
  wf st → class_ok class →
  (∀ x, x ∈ w_all st → w_name (wit st x) ≠ name) →
  enroll name class st = Ok (Some w1, st1) →
  let st2 := set_wit w1 (with_site (Some "order list") (w_line (wit st1 w1))
                          (wit st1 w1)) st1 in
  wf st2 ∧ (w1 ∉ w_all st) ∧ w_all st2 = w1 :: w_all st
  ∧ kids st2 w1 = [] ∧ (∀ x, x ≠ w1 → kids st2 x = kids st x)
  ∧ (∀ x, x ≠ w1 → w_name (wit st2 x) = w_name (wit st x))
  ∧ w_name (wit st2 w1) = name.
Proof.
  intros Hwf Hclass Hnames Henr st2.
  destruct (enroll_wf _ _ _ _ _ Hwf Hclass Henr) as (Hwf1 & _ & _ & _ & Hfresh).
  destruct (Hfresh w1 (find_witness_None _ _ Hnames) eq_refl)
    as (Hn & Hall & Hname & Hkids & Hoth).
  assert (Hrel : relabel st1 st2) by by apply relabel_set_wit.
  destruct Hrel as (_ & _ & Hkeep).
  split; [by apply wf_set_wit|]. split; [done|]. split; [done|].
  split; [|split; [|split]].
  - unfold kids. destruct (Hkeep w1) as [_ ->]. by rewrite Hkids.
  - intros x Hx. unfold kids. destruct (Hkeep x) as [_ ->]. by rewrite Hoth.
  - intros x Hx. destruct (Hkeep x) as [(_ & -> & _) _]. by rewrite Hoth.
  - destruct (Hkeep w1) as [(_ & -> & _) _]. done.
Qed.

Lemma order_chain_wf l : ∀ w st st',
  wf st → w ∈ w_all st → NoDup l.*1 →
  (∀ x, x ∈ w_all st → w_name (wit st x) ∉ l.*1) →
  Forall (λ nc, class_ok nc.2) l →
  order_chain w l st = Ok st' →
  wf st'
  ∧ ∀ avoid : list string,
      (∀ n, n ∈ l.*1 → n ∉ avoid) →
      (∀ x, x ∈ w_all st → w_name (wit st x) ∉ avoid) →
      ∀ x, x ∈ w_all st' → w_name (wit st' x) ∉ avoid.
Proof.
  induction l as [|[name class] l IH]; intros w st st' Hwf Hw Hnd Hnames Hcl.
  { simpl. intros [= <-]. split; [done|]. intros avoid _ H. exact H. }
  simpl. intros ([r st1] & Henr & Hk)%outcome_bind_Ok.
  destruct r as [w1|]; [|done].
  apply outcome_bind_Ok in Hk as ([r st3] & Hchild & Hk).
  simpl in Hnd. apply NoDup_cons in Hnd as [Hname Hnd].
  apply Forall_cons in Hcl as [Hclass Hcl]. simpl in Hclass.
  destruct (enroll_order_entry name class st w1 st1) as
    (Hwf2 & Hfresh & Hall2 & Hk1 & Hko & Hno & Hn1); try done.
  { intros x Hx Heq. apply (Hnames x Hx). rewrite Heq. simpl. by left. }
  set (st2 := set_wit w1 _ st1) in *.
  assert (Hw1 : w ≠ w1) by (intros ->; done).
  destruct (itismychild_wf w w1 st2 r st3) as [Hwf3 Hfr3]; try done.
  { rewrite Hall2. by right. }
  { rewrite Hall2. by left. }
  { intros H. apply tc_inv_l in H as [H|(y & H & _)];
      unfold edge in H; rewrite Hk1 in H; by apply not_elem_of_nil in H. }
  { intros H. unfold edge in H. rewrite Hko in H by done.
    apply Hfresh.
    by destruct (edge_same_type st w w1 (wf_registry _ Hwf) (wf_graph _ Hwf) H)
      as (_ & _ & ?). }
  assert (Hall3 : w_all st3 = w1 :: w_all st).
  { by rewrite (fr_all _ _ Hfr3). }
  assert (Hname3 : ∀ x, w_name (wit st3 x)
                        = if decide (x = w1) then name else w_name (wit st x)).
  { intros x. rewrite (fr_name _ _ Hfr3). destruct (decide (x = w1)) as [->|Hx]; auto. }
  destruct (IH w1 st3 st') as [Hwf' Havoid]; try done.
  { rewrite Hall3. by left. }
  { intros x. rewrite Hall3, Hname3. intros [->|Hx]%elem_of_cons.
    - by rewrite decide_True.
    - destruct (decide (x = w1)); [done|].
      intros Hin. apply (Hnames x Hx). simpl. by right. }
  split; [done|]. intros avoid Hav Hold x Hx.
  apply (Havoid avoid); try done.
  - intros n Hn. apply Hav. simpl. by right.
  - intros y. rewrite Hall3, Hname3. intros [->|Hy]%elem_of_cons.
    + rewrite decide_True by done. apply Hav. simpl. by left.
    + destruct (decide (y = w1)); [apply Hav; simpl; by left|]. by apply Hold.
Qed.

Lemma order_run_wf l st st' :
  wf st → NoDup l.*1 →
  (∀ x, x ∈ w_all st → w_name (wit st x) ∉ l.*1) →
  Forall (λ nc, class_ok nc.2) l →
  order_run l st = Ok st' →
  wf st'
  ∧ ∀ avoid : list string,
      (∀ n, n ∈ l.*1 → n ∉ avoid) →
      (∀ x, x ∈ w_all st → w_name (wit st x) ∉ avoid) →
      ∀ x, x ∈ w_all st' → w_name (wit st' x) ∉ avoid.
Proof.
  intros Hwf Hnd Hnames Hcl. destruct l as [|[name class] l]; simpl.
  { intros [= <-]. split; [done|]. intros avoid _ H. exact H. }
  intros ([r st1] & Henr & Hk)%outcome_bind_Ok.
  destruct r as [w|]; [|done].
  simpl in Hnd. apply NoDup_cons in Hnd as [Hname Hnd].
  apply Forall_cons in Hcl as [Hclass Hcl]. simpl in Hclass.
  destruct (enroll_order_entry name class st w st1) as
    (Hwf2 & Hfresh & Hall2 & Hk1 & Hko & Hno & Hn1); try done.
  { intros x Hx Heq. apply (Hnames x Hx). rewrite Heq. simpl. by left. }
  set (st2 := set_wit w _ st1) in *.
  assert (Hname2 : ∀ x, w_name (wit st2 x)
                        = if decide (x = w) then name else w_name (wit st x)).
  { intros x. destruct (decide (x = w)) as [->|Hx]; auto. }
  destruct (order_chain_wf l w st2 st') as [Hwf' Havoid]; try done.
  { rewrite Hall2. by left. }
  { intros x. rewrite Hall2, Hname2. intros [->|Hx]%elem_of_cons.
    - by rewrite decide_True.
    - destruct (decide (x = w)); [done|].
      intros Hin. apply (Hnames x Hx). simpl. by right. }
  split; [done|]. intros avoid Hav Hold x Hx.
  apply (Havoid avoid); try done.
  - intros n Hn. apply Hav. simpl. by right.
  - intros y. rewrite Hall2, Hname2. intros [->|Hy]%elem_of_cons.
    + rewrite decide_True by done. apply Hav. simpl. by left.
    + destruct (decide (y = w)); [apply Hav; simpl; by left|]. by apply Hold.
Qed.

Lemma order_lists_wf groups : ∀ st st',
  wf st → NoDup (concat groups).*1 →
  (∀ x, x ∈ w_all st → w_name (wit st x) ∉ (concat groups).*1) →
  Forall (λ nc, class_ok nc.2) (concat groups) →
  for_each groups order_run st = Ok st' → wf st'.
Proof.
  induction groups as [|l groups IH]; intros st st' Hwf Hnd Hnames Hcl; simpl.
  { by intros [= <-]. }
  intros (st1 & Hrun & Hk)%outcome_bind_Ok.
  simpl in Hnd. rewrite fmap_app in Hnd.
  apply NoDup_app in Hnd as (Hnd1 & Hdisj & Hnd2).
  apply Forall_app in Hcl as [Hcl1 Hcl2].
  destruct (order_run_wf l st st1) as [Hwf1 Havoid]; try done.
  { intros x Hx Hin. apply (Hnames x Hx). simpl.
    rewrite fmap_app, elem_of_app. by left. }
  apply (IH st1 st'); try done.
  apply Havoid.
  - intros n Hn. by apply Hdisj.
  - intros x Hx Hin. apply (Hnames x Hx). simpl.
    rewrite fmap_app, elem_of_app. by right.
Qed.

Lemma order_lists_names i386 smp : NoDup (concat (order_lists i386 smp)).*1.
Proof.
  destruct i386, smp;
    match goal with
    | |- ?P => apply (bool_decide_eq_true_1 P); vm_compute; reflexivity
    end.
Qed.

Lemma order_lists_classes i386 smp :
  Forall (λ nc, class_ok nc.2) (concat (order_lists i386 smp)).
Proof.
  destruct i386, smp; simpl; repeat apply Forall_cons_2; try apply Forall_nil_2;
    by unfold class_ok.
Qed.

Lemma enroll_lock_wf lock st st' : wf st → enroll_lock lock st = Ok st' → wf st'.
Proof.
  intros Hwf. unfold enroll_lock.
  destruct (LO_WITNESS _) eqn:HW.
  - intros ([w st1] & Henr & Hk)%outcome_bind_Ok. injection Hk as <-.
    destruct (enroll_wf _ _ _ _ _ Hwf
                (lock_at_class st lock (wf_registry _ Hwf) HW) Henr)
      as (Hwf1 & _ & Hlocks & Hw & _).
    apply wf_set_lock; [| |done].
    + simpl. intros x ->. by apply Hw.
    + unfold lock_at. rewrite Hlocks. simpl. intros H.
      apply (lock_at_class st lock); [apply Hwf | done].
  - intros [= <-]. apply wf_set_lock; [done| |done].
    simpl. intros H. apply (lock_at_class st lock); [apply Hwf | done].
Qed.

Lemma for_each_wf {A} (body : A → state → outcome state) l :
  (∀ x st st', wf st → body x st = Ok st' → wf st') →
  ∀ st st', wf st → for_each l body st = Ok st' → wf st'.
Proof.
  intros Hbody. induction l as [|x l IH]; intros st st' Hwf; simpl.
  - by intros [= <-].
  - intros (s & Hs & Hrun)%outcome_bind_Ok. eauto.
Qed.

Lemma witness_init_cold lock st st' :
  witness_cold st = true → witness_init lock st = Ok st' →
  w_data st' = w_data st ∧ w_free st' = w_free st ∧ w_all st' = w_all st
  ∧ w_sleep st' = w_sleep st ∧ w_spin st' = w_spin st.
Proof.
  intros Hc. unfold witness_init.
  destruct (LO_INITIALIZED _); [done|].
  destruct (_ && _); [done|]. destruct (_ && _); [done|].
  simpl. rewrite Hc. simpl. by intros [= <-].
Qed.

Lemma wf_filled st st' :
  wf st → w_free st = [] → w_all st = [] →
  w_data st' = w_data st → w_free st' = reverse (seq 0 WITNESS_COUNT) →
  w_all st' = [] → w_sleep st' = w_sleep st → w_spin st' = w_spin st →
  locks st' = locks st → recursed st' = recursed st →
  wf st'.
Proof.
  intros [Hreg Hg Hred Hrec] Hf Ha Hd Hf' Ha' Hs' Hp' Hl' Hr'.
  assert (Hw : ∀ x, wit st' x = wit st x) by (intros x; unfold wit; by rewrite Hd).
  assert (Hk : ∀ x, kids st' x = kids st x) by (intros x; unfold kids; by rewrite Hw).
  split.
  - destruct Hreg as [H1 H2 H3 H4 H5 H6 H7 H8]. split.
    + by rewrite Hd.
    + rewrite Hf', Ha', app_nil_r, reverse_Permutation. apply NoDup_seq.
    + intros w. rewrite Hf', Ha', app_nil_r, elem_of_reverse, elem_of_seq. lia.
    + intros w. rewrite Hs', Hp', Ha', <- Ha. apply H4.
    + rewrite Hs'. intros w Hx. rewrite Hw. auto.
    + rewrite Hp'. intros w Hx. rewrite Hw. auto.
    + rewrite Hl', Ha', <- Ha. apply H7.
    + by rewrite Hl'.
  - by apply (graph_ok_same_kids st).
  - by apply (reduced_same_kids st).
  - congruence.
Qed.

Lemma witness_initialize_wf i386 smp st0 st :
  cold_boot st0 → witness_initialize MAXCPU i386 smp st0 = Ok st → wf st.
Proof.
  intros Hboot. pose proof (cold_boot_wf _ Hboot) as Hwf0.
  unfold witness_initialize.
  set (st1 := set_all_locks _ _ _ _).
  assert (Hwf1 : wf st1).
  { by apply wf_set_all_locks, wf_set_lock. }
  intros (st2 & Hinit & Hk)%outcome_bind_Ok.
  assert (Hwf2 : wf st2).
  { apply witness_init_wf in Hinit; [done|]. by apply wf_set_lock. }
  apply witness_init_cold in Hinit as (Hd2 & Hf2 & Ha2 & Hs2 & Hp2);
    [|by destruct Hboot].
  simpl in Hd2, Hf2, Ha2, Hs2, Hp2.
  apply outcome_bind_Ok in Hk as (st6 & Horder & Hk).
  apply outcome_bind_Ok in Hk as (st7 & Hlocks & Hk). injection Hk as <-.
  rewrite fill_lock_list_pool, fill_child_pool in Horder.
  destruct (fill_witness_pool st2 (seq 0 WITNESS_COUNT)) as [Hfree Hrest].
  set (st3 := foldl _ st2 _) in *.
  specialize (Hrest st3 eq_refl). clearbody st3.
  set (st5 := set_w_lock_list_free _ _) in *.
  assert (Hwf5 : wf st5).
  { apply (wf_filled st2); try done.
    - rewrite Hf2. by destruct Hboot.
    - rewrite Ha2. by destruct Hboot.
    - unfold st5. simpl. by rewrite Hrest.
    - unfold st5. simpl. rewrite Hfree, Hf2. destruct Hboot.
      by rewrite cb_free0, app_nil_r.
    - unfold st5. simpl. rewrite Hrest. simpl. rewrite Ha2. by destruct Hboot.
    - unfold st5. simpl. by rewrite Hrest.
    - unfold st5. simpl. by rewrite Hrest.
    - unfold st5. simpl. by rewrite Hrest.
    - unfold st5. simpl. by rewrite Hrest. }
  assert (Hwf6 : wf st6).
  { apply (order_lists_wf (order_lists i386 smp) st5 st6); try done.
    - apply order_lists_names.
    - intros x. unfold st5. simpl. rewrite Hrest. simpl. rewrite Ha2.
      destruct Hboot. rewrite cb_all0. intros H. by apply not_elem_of_nil in H.
    - apply order_lists_classes. }
  apply (wf_fields st7); try done.
  eapply for_each_wf; [|exact Hwf6|exact Hlocks].
  intros x s s'. apply enroll_lock_wf.
Qed.

(** Every reachable state is well-formed. *)
Lemma reachable_wf st :
  reachable MAXCPU LOCK_NCHILDREN blessed_list st → wf st.
Proof.
  induction 1 as [i386 smp st0 st Hboot Hinit|o st st' _ IH Hok Hstep].
  - by eapply witness_initialize_wf.
  - by eapply step_wf.
Qed.

Lemma run_reachable ops : ∀ st st',
  reachable MAXCPU LOCK_NCHILDREN blessed_list st →
  Forall op_ok ops → run ops st = Ok st' →
  reachable MAXCPU LOCK_NCHILDREN blessed_list st'.
Proof.
  unfold run. induction ops as [|o ops IH]; intros st st' Hr Hok; simpl.
  - by intros [= <-].
  - intros (s & Hs & Hrun)%outcome_bind_Ok.
    apply Forall_cons in Hok as [Ho Hok].
    apply (IH s); [|done|done]. by eapply reachable_step.
Qed.

End Properties.

(** * Reports *)

Section Reports.

Variable MAXCPU : nat.
Variable LOCK_NCHILDREN : nat.
Variable blessed_list : list (string * string).

Local Abbreviation witness_lock := (witness_lock MAXCPU LOCK_NCHILDREN blessed_list).
Local Abbreviation witness_lock_out := (witness_lock_out MAXCPU LOCK_NCHILDREN).
Local Abbreviation witness_lock_check := (witness_lock_check blessed_list).
Local Abbreviation step := (step MAXCPU LOCK_NCHILDREN blessed_list).
Local Abbreviation run := (run MAXCPU LOCK_NCHILDREN blessed_list).

Lemma count_app f l1 l2 : count f (l1 ++ l2) = (count f l1 + count f l2)%nat.
Proof. unfold count. by rewrite List.filter_app, length_app. Qed.

Lemma count_no_report f evs :
  (∀ e, f e = true → is_report e = true) →
  Forall (λ e, is_report e = false) evs → count f evs = O.
Proof.
  intros Hf. unfold count. induction 1 as [|e evs He _ IH]; [done|].
  simpl. destruct (f e) eqn:Hfe; [|done].
  apply Hf in Hfe. congruence.
Qed.

Lemma is_duplicate_report w e : is_duplicate w e = true → is_report e = true.
Proof. by destruct e. Qed.

Lemma is_reversal_report w1 giant e :
  is_reversal w1 giant e = true → is_report e = true.
Proof. by destruct e. Qed.

Lemma budget_le flag st w : (budget flag st w ≤ 1)%nat.
Proof. unfold budget. destruct (_ && _); lia. Qed.

Lemma budget_quiet flag st st' w :
  (w ∉ w_free st → (w ∉ w_free st') ∧ flag (wit st' w) = flag (wit st w)) →
  (budget flag st' w ≤ budget flag st w)%nat.
Proof.
  intros H. unfold budget.
  destruct (decide (w ∈ w_free st)) as [Hin|Hout].
  - rewrite (bool_decide_eq_false_2 (w ∉ w_free st)) by tauto. simpl.
    destruct (_ && _); lia.
  - destruct (H Hout) as [H1 ->].
    by rewrite !bool_decide_eq_true_2.
Qed.

Lemma quiet_refl st : quiet st st.
Proof.
  split; [done|]. exists []. by rewrite app_nil_r.
Qed.

Lemma quiet_trans s1 s2 s3 : quiet s1 s2 → quiet s2 s3 → quiet s1 s3.
Proof.
  intros [H1 (e1 & Hc1 & He1)] [H2 (e2 & Hc2 & He2)]. split.
  - intros x Hx. destruct (H1 x Hx) as (Hx2 & ? & ? & ?).
    destruct (H2 x Hx2) as (? & ? & ? & ?).
    repeat split; [done|congruence..].
  - exists (e1 ++ e2). rewrite Hc2, Hc1, app_assoc. split; [done|].
    by apply Forall_app.
Qed.

Lemma flags_kept_quiet st st' : flags_kept st st' → quiet st st'.
Proof.
  intros [H (evs & Hc & He)]. split; [done|]. exists evs. split; [done|].
  eapply Forall_impl; [exact He|]. by intros e [f ->].
Qed.

Lemma quiet_same st st' evs :
  w_free st' = w_free st →
  (∀ x, w_Giant_squawked (wit st' x) = w_Giant_squawked (wit st x)
        ∧ w_other_squawked (wit st' x) = w_other_squawked (wit st x)
        ∧ w_same_squawked (wit st' x) = w_same_squawked (wit st x)) →
  console st' = console st ++ evs →
  Forall (λ e, is_report e = false) evs →
  quiet st st'.
Proof.
  intros Hf Hx Hc He. split.
  - intros x Hin. rewrite Hf. split; [done|]. apply Hx.
  - by exists evs.
Qed.

Lemma quiet_accounted st st' : quiet st st' → accounted st st'.
Proof.
  intros [H (evs & Hc & He)]. exists evs. split; [done|]. split.
  - intros w. rewrite (count_no_report _ evs); [|apply is_duplicate_report|done].
    apply budget_quiet. intros Hw. destruct (H w Hw) as (? & ? & ? & ?). done.
  - intros w1 giant.
    rewrite (count_no_report _ evs); [|apply is_reversal_report|done].
    apply budget_quiet. intros Hw. destruct (H w1 Hw) as (? & ? & ? & ?).
    split; [done|]. by destruct giant.
Qed.

Lemma accounted_refl st : accounted st st.
Proof. apply quiet_accounted, quiet_refl. Qed.

Lemma accounted_trans s1 s2 s3 :
  accounted s1 s2 → accounted s2 s3 → accounted s1 s3.
Proof.
  intros (e1 & Hc1 & Hd1 & Hr1) (e2 & Hc2 & Hd2 & Hr2).
  exists (e1 ++ e2). rewrite Hc2, Hc1, app_assoc. split; [done|]. split.
  - intros w. rewrite count_app. specialize (Hd1 w). specialize (Hd2 w). lia.
  - intros w1 giant. rewrite count_app.
    specialize (Hr1 w1 giant). specialize (Hr2 w1 giant). lia.
Qed.

Lemma quiet_data st st' evs :
  w_free st' = w_free st → w_data st' = w_data st →
  console st' = console st ++ evs →
  Forall (λ e, is_report e = false) evs →
  quiet st st'.
Proof.
  intros Hf Hd. apply quiet_same; [done|].
  intros x. unfold wit. by rewrite Hd.
Qed.

Lemma quiet_set_wit w v st :
  w_Giant_squawked v = w_Giant_squawked (wit st w) →
  w_other_squawked v = w_other_squawked (wit st w) →
  w_same_squawked v = w_same_squawked (wit st w) →
  quiet st (set_wit w v st).
Proof.
  intros H1 H2 H3. apply (quiet_same _ _ []); [done| |by rewrite app_nil_r|done].
  intros x. repeat split.
  - by apply (wit_set_wit_field w_Giant_squawked).
  - by apply (wit_set_wit_field w_other_squawked).
  - by apply (wit_set_wit_field w_same_squawked).
Qed.

Lemma quiet_fields st st' :
  w_free st' = w_free st → w_data st' = w_data st →
  console st' = console st → quiet st st'.
Proof.
  intros Hf Hd Hc. apply (quiet_data _ _ []); [done|done| |done].
  by rewrite app_nil_r.
Qed.

Lemma quiet_sited lock w file line st : quiet st (sited lock w file line st).
Proof.
  unfold sited.
  apply (quiet_trans _ (set_wit w (with_site (Some file) line (wit st w)) st));
    [by apply quiet_set_wit | by apply quiet_fields].
Qed.

Lemma quiet_witness_lock_out lock w class file line p cpu st st' :
  witness_lock_out lock w class file line p cpu st = Ok st' → quiet st st'.
Proof.
  unfold witness_lock_out.
  pose proof (quiet_sited lock w file line st) as Hs.
  set (st2 := sited lock w file line st) in *. clearbody st2.
  intros H. apply (quiet_trans _ st2); [done|]. clear Hs. revert H.
  destruct (match lock_list_of class p cpu st2 with [] => true | _ => _ end).
  - unfold witness_lock_list_get. destruct (w_lock_list_free st2).
    + intros [= <-].
      apply (quiet_data _ _ [EvExhausted "witness_lock_list_get"]);
        [..|repeat constructor]; unfold set_lock_list;
        by destruct (LC_SLEEPLOCK _).
    + destruct (Nat.leb _ _); [done|]. intros [= <-].
      apply quiet_fields; unfold set_lock_list; by destruct (LC_SLEEPLOCK _).
  - destruct (lock_list_of class p cpu st2); [intros [= <-]; apply quiet_refl|].
    destruct (Nat.leb _ _); [done|]. intros [= <-].
    apply quiet_fields; unfold set_lock_list; by destruct (LC_SLEEPLOCK _).
Qed.

Lemma quiet_witness_unlock lock flags file line p cpu st st' :
  witness_unlock lock flags file line p cpu st = Ok st' → quiet st st'.
Proof.
  unfold witness_unlock.
  destruct (lo_witness (lock_at st lock)) as [w|];
    [|intros [= <-]; apply quiet_refl].
  destruct (_ || _); [intros [= <-]; apply quiet_refl|].
  destruct (LO_RECURSED _).
  { destruct (negb _); [done | intros [= <-]; apply quiet_refl]. }
  destruct (_ && _); [done|].
  destruct (unlock_chain _ _) as [[chain freed]|];
    [|intros [= <-]; apply quiet_refl].
  intros [= <-].
  destruct freed; apply quiet_fields; unfold set_lock_list;
    by destruct (LC_SLEEPLOCK _).
Qed.

Lemma quiet_witness_restore lock file line st :
  quiet st (witness_restore lock file line st).
Proof.
  unfold witness_restore.
  destruct (lo_witness (lock_at st lock)) as [w|]; [|apply quiet_refl].
  apply (quiet_trans _ (set_wit w (with_site file line (wit st w)) st));
    [by apply quiet_set_wit | by apply quiet_fields].
Qed.

Lemma quiet_witness_sleep check_only lock file line p cpu st :
  quiet st (witness_sleep check_only lock file line p cpu st).2.
Proof.
  unfold witness_sleep. destruct (_ || _); [apply quiet_refl|].
  rewrite !sleep_scan_spec. simpl.
  match goal with
  | |- quiet _ (foldl _ _ ?evs) =>
      destruct (foldl_print_fields evs st) as (Hd & Hf & _ & _ & _ & _ & _ & _ & _ & _ & Hc);
      apply (quiet_data _ _ evs); [done|done|done|]
  end.
  apply Forall_app. split; apply Forall_forall; intros e He;
    apply list_elem_of_In, in_map_iff in He as (x & <- & _); done.
Qed.

Lemma quiet_witness_init lock st st' :
  wf st →
  (LO_WITNESS (lo_flags (lock_at st lock)) = true →
   class_ok (lo_class (lock_at st lock))) →
  witness_init lock st = Ok st' → quiet st st'.
Proof.
  intros Hwf Hclass. unfold witness_init.
  destruct (LO_INITIALIZED _); [done|].
  destruct (_ && _); [done|]. destruct (_ && _); [done|].
  set (l1 := lock_with_flags _ _).
  set (st1 := set_all_locks _ _ _ _).
  assert (Hwf1 : wf st1).
  { apply wf_set_all_locks, wf_set_lock; [| |done].
    - simpl. intros w Hw. apply (lock_at_witness st lock); [apply Hwf | done].
    - simpl. intros H. apply (lock_at_class st lock); [apply Hwf | done]. }
  assert (Hq1 : quiet st st1) by by apply quiet_fields.
  destruct (_ && _) eqn:Hcond.
  - apply andb_true_iff in Hcond as [_ HW].
    intros ([w st2] & Henr & Hk)%outcome_bind_Ok. injection Hk as <-.
    destruct (enroll_wf _ _ _ _ _ Hwf1 (Hclass HW) Henr) as (_ & Hk & _).
    apply (quiet_trans _ st1); [done|].
    apply (quiet_trans _ st2); [by apply flags_kept_quiet|].
    by apply quiet_fields.
  - intros [= <-]. apply (quiet_trans _ st1); [done|]. by apply quiet_fields.
Qed.

Lemma quiet_witness_destroy lock st st' :
  witness_destroy lock st = Ok st' → quiet st st'.
Proof.
  unfold witness_destroy.
  destruct (witness_cold st); [done|].
  destruct (negb _); [done|]. destruct (LO_LOCKED _); [done|].
  intros [= <-].
  set (st1 := match lo_witness (lock_at st lock) with
              | Some w => _ | None => st end).
  assert (Hq1 : quiet st st1).
  { unfold st1. destruct (lo_witness (lock_at st lock)) as [w|];
      [|apply quiet_refl].
    apply quiet_set_wit; by destruct (_ =? _). }
  apply (quiet_trans _ st1); [done|]. by apply quiet_fields.
Qed.

(** *** A report sets its flag *)

Lemma budget_set_wit_kept flag w v e st x :
  flag v = flag (wit st w) →
  budget flag (print e (set_wit w v st)) x = budget flag st x.
Proof.
  intros H. unfold budget.
  change (wit (print e (set_wit w v st)) x) with (wit (set_wit w v st) x).
  by rewrite (wit_set_wit_field flag).
Qed.

Lemma budget_set_wit_ne flag w v e st x :
  x ≠ w → budget flag (print e (set_wit w v st)) x = budget flag st x.
Proof.
  intros H. unfold budget.
  change (wit (print e (set_wit w v st)) x) with (wit (set_wit w v st) x).
  by rewrite wit_set_wit_ne.
Qed.

Lemma budget_set_wit_paid flag w v e st :
  w ∉ w_free st → (w < length (w_data st))%nat → flag v = true →
  budget flag (print e (set_wit w v st)) w = O.
Proof.
  intros Hf Hw Hv. unfold budget.
  change (wit (print e (set_wit w v st)) w) with (wit (set_wit w v st) w).
  rewrite wit_set_wit_eq by done. rewrite Hv.
  by rewrite bool_decide_eq_true_2.
Qed.

Lemma budget_unpaid flag st w : flag (wit st w) = false → budget flag st w = 1%nat.
Proof. intros H. unfold budget. rewrite H. by rewrite andb_false_r. Qed.

Lemma w_all_not_free st w : registry_ok st → w ∈ w_all st → w ∉ w_free st.
Proof.
  intros Hreg Hw Hf.
  apply (proj1 (NoDup_app _ _) (reg_nodup _ Hreg)) in Hf as []. done.
Qed.

Lemma accounted_duplicate w name file1 line1 file line st :
  registry_ok st → w ∈ w_all st → w_same_squawked (wit st w) = false →
  accounted st
    (print (EvDuplicate w name file1 line1 file line)
       (set_wit w (with_same_squawked (wit st w)) st)).
Proof.
  intros Hreg Hw Hflag.
  exists [EvDuplicate w name file1 line1 file line]. split; [done|]. split.
  - intros x. unfold count. simpl. destruct (decide (w = x)) as [<-|Hne].
    + rewrite bool_decide_eq_true_2 by done. simpl.
      rewrite budget_set_wit_paid;
        [|by apply w_all_not_free|by apply w_all_in_range|done].
      by rewrite budget_unpaid.
    + rewrite bool_decide_eq_false_2 by done. simpl.
      by rewrite budget_set_wit_ne.
  - intros w1 giant. unfold count. simpl.
    rewrite budget_set_wit_kept; [done|]. by destruct giant.
Qed.

Lemma accounted_reversal w w1 lock1 lock file line st :
  registry_ok st → w1 ∈ w_all st →
  reversal_squawked (bool_decide (lock1 = Giant)) (wit st w1) = false →
  accounted st
    (print (EvReversal w w1 lock1 lock file line)
       (set_wit w1
          (if bool_decide (lock1 = Giant)
           then with_Giant_squawked (wit st w1)
           else with_other_squawked (wit st w1)) st)).
Proof.
  intros Hreg Hw Hflag.
  exists [EvReversal w w1 lock1 lock file line]. split; [done|]. split.
  - intros x. unfold count. simpl.
    rewrite budget_set_wit_kept; [done|]. by destruct (bool_decide _).
  - intros x giant. unfold count. simpl.
    destruct (decide (w1 = x)) as [<-|Hne];
      [|rewrite (bool_decide_eq_false_2 _ Hne); simpl;
        by rewrite budget_set_wit_ne].
    rewrite bool_decide_eq_true_2 by done. simpl.
    destruct (decide (bool_decide (lock1 = Giant) = giant)) as [<-|Hg].
    + rewrite bool_decide_eq_true_2 by done. simpl.
      rewrite budget_set_wit_paid;
        [|by apply w_all_not_free|by apply w_all_in_range
         |by destruct (bool_decide (lock1 = Giant))].
      by rewrite budget_unpaid.
    + rewrite (bool_decide_eq_false_2 _ Hg). simpl.
      rewrite budget_set_wit_kept; [done|].
      destruct (bool_decide (lock1 = Giant)), giant; done.
Qed.

(** *** The reports of one acquisition *)

Lemma witness_lock_check_reports lock w file line chain st st1 :
  wf st → w ∈ w_all st →
  witness_lock_check lock w file line chain st = Ok st1 →
  accounted st st1
  ∧ ∃ evs, console st1 = console st ++ evs
           ∧ Forall (report_ok blessed_list lock w chain st) evs.
Proof.
  intros Hwf Hw Hcheck.
  destruct (witness_lock_check_spec _ _ _ _ _ _ _ _ Hwf Hw Hcheck)
    as [_ [Hfr|[Hdup|Hrev]]].
  - split; [by apply quiet_accounted, flags_kept_quiet, frame_flags_kept|].
    destruct (fr_console _ _ Hfr) as (evs & Hc & He). exists evs.
    split; [done|]. eapply Forall_impl; [exact He|]. by intros e [f ->].
  - destruct Hdup as (lle & rest & lock1 & -> & Hlast & Hw1 & Hflag & Hdup & ->).
    split; [apply accounted_duplicate; [apply Hwf|done|done]|].
    eexists [_]. split; [done|]. constructor; [|done].
    repeat (split; [done|]). by exists lle, rest, lock1.
  - destruct Hrev as (lock1 & w1 & Hin & Hw1 & Htc & Hbl & Hcase).
    assert (Hw1all : w1 ∈ w_all st).
    { apply (lock_at_witness st lock1); [apply Hwf | done]. }
    pose proof (accounted_reversal w w1 lock1 lock file line st
                  (wf_registry _ Hwf) Hw1all) as Hacc.
    destruct Hcase as [(HG & Hflag & ->)|(HG & Hflag & ->)].
    + rewrite bool_decide_eq_true_2 in Hacc by done.
      split; [by apply Hacc|].
      eexists [_]. split; [done|]. constructor; [|done].
      repeat (split; [done|]). by rewrite bool_decide_eq_true_2.
    + rewrite bool_decide_eq_false_2 in Hacc by done.
      split; [by apply Hacc|].
      eexists [_]. split; [done|]. constructor; [|done].
      repeat (split; [done|]). by rewrite bool_decide_eq_false_2.
Qed.

Lemma witness_lock_reports lock flags file line p cpu st st' :
  wf st → witness_lock lock flags file line p cpu st = Ok st' →
  accounted st st'
  ∧ ∃ evs, console st' = console st ++ evs
           ∧ ∀ w, lo_witness (lock_at st lock) = Some w →
               Forall (report_ok blessed_list lock w
                         (lock_list_of (lo_class (lock_at st lock)) p cpu st)
                         st) evs.
Proof.
  intros Hwf. unfold witness_lock.
  assert (Hnone : accounted st st
            ∧ ∃ evs, console st = console st ++ evs
                ∧ ∀ w, lo_witness (lock_at st lock) = Some w →
                    Forall (report_ok blessed_list lock w
                              (lock_list_of (lo_class (lock_at st lock)) p cpu
                                 st) st) evs).
  { split; [apply accounted_refl|]. exists []. by rewrite app_nil_r. }
  destruct (lo_witness (lock_at st lock)) as [w|] eqn:Hw;
    [|by intros [= <-]].
  destruct (_ || _); [by intros [= <-]|].
  destruct (negb _); [done|].
  destruct (LO_RECURSED _).
  { destruct (negb _); [done | by intros [= <-]]. }
  destruct (_ && _); [done|]. clear Hnone.
  intros (st1 & Hcheck & Hout)%outcome_bind_Ok.
  apply quiet_witness_lock_out in Hout.
  assert (H1 : accounted st st1
            ∧ ∃ evs, console st1 = console st ++ evs
                ∧ Forall (report_ok blessed_list lock w
                            (lock_list_of (lo_class (lock_at st lock)) p cpu
                               st) st) evs).
  { destruct (LOP_TRYLOCK flags).
    - injection Hcheck as <-. split; [apply accounted_refl|].
      exists []. by rewrite app_nil_r.
    - apply witness_lock_check_reports in Hcheck; [done|done|].
      apply (lock_at_witness st lock); [apply Hwf | done]. }
  destruct H1 as (Hacc & evs & Hc & He).
  split; [eapply accounted_trans; [exact Hacc | by apply quiet_accounted]|].
  destruct Hout as [_ (evs' & Hc' & He')].
  exists (evs ++ evs'). rewrite Hc', Hc, app_assoc. split; [done|].
  intros ? [= <-]. apply Forall_app. split; [done|].
  eapply Forall_impl; [exact He'|]. intros e. by destruct e.
Qed.

(** *** The reports of a run *)

Lemma step_accounted o st st' :
  wf st → op_ok o → step o st = Ok st' → accounted st st'.
Proof.
  intros Hwf Hok. destruct o as [lock class name flags| | | | | |]; simpl.
  - destruct (bool_decide _) eqn:Hin.
    + apply bool_decide_eq_true_1 in Hin. intros H.
      apply quiet_accounted. eapply quiet_witness_init; [done| |done].
      intros HW. apply (lock_at_class st lock); [apply Hwf | done].
    + intros H. apply quiet_accounted.
      apply (quiet_trans _
               (set_lock lock (LockObject class name None 0 flags None) st));
        [by apply quiet_fields|].
      eapply quiet_witness_init; [|  |done].
      * by apply wf_set_lock.
      * rewrite lock_at_set_lock. simpl. done.
  - intros H. by eapply quiet_accounted, quiet_witness_destroy.
  - intros H. by eapply witness_lock_reports.
  - intros H. by eapply quiet_accounted, quiet_witness_unlock.
  - intros [= <-]. apply quiet_accounted, quiet_witness_sleep.
  - intros [= <-]. apply quiet_accounted, quiet_witness_restore.
  - intros [= <-]. by apply quiet_accounted, quiet_fields.
Qed.

Lemma run_accounted ops : ∀ st st',
  wf st → Forall op_ok ops → run ops st = Ok st' → accounted st st'.
Proof.
  unfold run. induction ops as [|o ops IH]; intros st st' Hwf Hok; simpl.
  - intros [= <-]. apply accounted_refl.
  - intros (s & Hs & Hrun)%outcome_bind_Ok.
    apply Forall_cons in Hok as [Ho Hok].
    apply (accounted_trans _ s); [by eapply step_accounted|].
    apply IH; [|done|done]. by eapply step_wf.
Qed.

Lemma count_pair_le w w1 evs :
  (count (is_reversal_of_pair w w1) evs
   ≤ count (is_reversal w1 true) evs + count (is_reversal w1 false) evs)%nat.
Proof.
  unfold count. induction evs as [|e evs IH]; [done|]. simpl.
  destruct e as [| w' w1' lock1 lock file line | |]; simpl; try done.
  destruct (bool_decide (w1' = w1)); simpl;
    [|rewrite andb_false_r; simpl; lia].
  destruct (bool_decide (lock1 = Giant)); simpl;
    destruct (bool_decide (w' = w)); simpl; lia.
Qed.

Lemma budget_paid flag st w :
  w ∉ w_free st → flag (wit st w) = true → budget flag st w = O.
Proof.
  intros Hf Hv. unfold budget. by rewrite Hv, bool_decide_eq_true_2.
Qed.

(** C4, as the code has it: the flags that silence a reversal belong to
    the held witness alone, one ([w_Giant_squawked]) for a reversal found
    while the held lock is [Giant] and one ([w_other_squawked]) for any other
    held lock.  Over any run from a state of the verifier, for every held
    witness and each of the two kinds at most one reversal is reported, and
    none once the flag is set, whatever the acquired witness and the context
    are; so a pair of an acquired and a held witness is reported at most
    twice.  A line that reports a reversal is printed by an acquisition of a
    lock whose witness reaches the witness of a held lock in the order graph,
    for a pair that is not blessed, while the flag is clear. *)
Theorem C4_reversal_reported_once_per_held_witness_and_kind st :
  reachable MAXCPU LOCK_NCHILDREN blessed_list st →
  (∀ ops st',
     Forall op_ok ops → run ops st = Ok st' →
     ∃ evs, console st' = console st ++ evs
       ∧ ∀ w1,
           (∀ giant,
              (count (is_reversal w1 giant) evs ≤ 1)%nat
              ∧ ((w1 ∉ w_free st) →
                 reversal_squawked giant (wit st w1) = true →
                 count (is_reversal w1 giant) evs = O))
           ∧ ∀ w, (count (is_reversal_of_pair w w1) evs ≤ 2)%nat)
  ∧ (∀ lock flags file line p cpu w st',
       lo_witness (lock_at st lock) = Some w →
       witness_lock lock flags file line p cpu st = Ok st' →
       ∃ evs, console st' = console st ++ evs
         ∧ Forall (report_ok blessed_list lock w
                     (lock_list_of (lo_class (lock_at st lock)) p cpu st) st)
             evs).
Proof.
  intros Hwf%reachable_wf. split.
  - intros ops st' Hok Hrun.
    destruct (run_accounted ops st st' Hwf Hok Hrun) as (evs & Hc & _ & Hr).
    exists evs. split; [done|]. intros w1.
    assert (H1 : ∀ giant, (count (is_reversal w1 giant) evs ≤ 1)%nat).
    { intros giant. specialize (Hr w1 giant).
      pose proof (budget_le (reversal_squawked giant) st w1). lia. }
    split.
    + intros giant. split; [done|]. intros Hf Hflag.
      specialize (Hr w1 giant).
      rewrite (budget_paid _ st w1 Hf Hflag) in Hr. lia.
    + intros w. pose proof (count_pair_le w w1 evs).
      pose proof (H1 true). pose proof (H1 false). lia.
  - intros lock flags file line p cpu w st' Hw Hlock.
    destruct (witness_lock_reports _ _ _ _ _ _ _ _ Hwf Hlock)
      as (_ & evs & Hc & He).
    exists evs. split; [done|]. by apply He.
Qed.


End Reports.

(** * Termination and nesting *)

Section Nesting.

Variable MAXCPU : nat.
Variable LOCK_NCHILDREN : nat.
Variable blessed_list : list (string * string).

Local Abbreviation witness_lock := (witness_lock MAXCPU LOCK_NCHILDREN blessed_list).
Local Abbreviation witness_lock_out := (witness_lock_out MAXCPU LOCK_NCHILDREN).
Local Abbreviation witness_lock_check := (witness_lock_check blessed_list).
Local Abbreviation step := (step MAXCPU LOCK_NCHILDREN blessed_list).
Local Abbreviation run := (run MAXCPU LOCK_NCHILDREN blessed_list).

(** ** The recursions over the order graph come back *)

Lemma bind_not_Diverge {A B} (m : outcome A) (k : A → outcome B) :
  m ≠ Diverge → (∀ a, m = Ok a → k a ≠ Diverge) → m ≫= k ≠ Diverge.
Proof. destruct m; simpl; try done. intros _ H. by apply H. Qed.

Lemma for_each_not_Diverge {A} (I : state → Prop)
    (body : A → state → outcome state) l :
  (∀ x st, x ∈ l → I st → body x st ≠ Diverge) →
  (∀ x st st', x ∈ l → I st → body x st = Ok st' → I st') →
  ∀ st, I st → for_each l body st ≠ Diverge.
Proof.
  induction l as [|x l IH]; intros Hbody Hinv st HI; simpl; [done|].
  apply bind_not_Diverge.
  - apply Hbody; [constructor | done].
  - intros s Hs. apply IH.
    + intros y s' Hy. apply Hbody. by constructor.
    + intros y s1 s2 Hy. apply Hinv. by constructor.
    + eapply Hinv; [constructor | done | done].
Qed.

Lemma for_each_inv {A} (I : state → Prop)
    (body : A → state → outcome state) l :
  (∀ x st st', x ∈ l → I st → body x st = Ok st' → I st') →
  ∀ st st', I st → for_each l body st = Ok st' → I st'.
Proof.
  induction l as [|x l IH]; intros Hinv st st' HI; simpl.
  - by intros [= <-].
  - intros (s & Hs & Hrun)%outcome_bind_Ok. apply (IH) with s; [|by eapply Hinv; [constructor|..]|done].
    intros y s1 s2 Hy. apply Hinv. by constructor.
Qed.

Lemma insert_chain_not_Diverge child chain :
  insert_chain child chain ≠ Diverge.
Proof.
  induction chain as [|wcl rest IH]; simpl; [done|].
  destruct (_ =? _)%nat.
  - apply bind_not_Diverge; done.
  - by destruct (_ <? _)%nat.
Qed.

Lemma insert_child_not_Diverge p c st : insert_child p c st ≠ Diverge.
Proof.
  unfold insert_child. apply bind_not_Diverge; [apply insert_chain_not_Diverge|].
  intros [chain|] _; [done|].
  destruct (witness_child_get st) as [[] st']; done.
Qed.

Lemma itismychild_nested_not_Diverge p c st :
  recursed st = true → (p < length (w_data st))%nat →
  itismychild_nested p c st ≠ Diverge.
Proof.
  intros Hrec Hp. unfold itismychild_nested, itismychild_at.
  destruct (negb _); [done|].
  apply bind_not_Diverge; [apply insert_child_not_Diverge|].
  intros [st1|] Hins; [|done].
  destruct (insert_child_Some _ _ _ _ Hins Hp) as (_ & _ & _ & Hrec1).
  by rewrite Hrec1, Hrec.
Qed.

Lemma prune_pair_not_Diverge c p st :
  registry_ok st → graph_ok st → recursed st = true →
  prune_pair itismychild_nested c p st ≠ Diverge.
Proof.
  intros Hreg Hg Hrec. unfold prune_pair.
  destruct (isitmychild st p c) eqn:E; simpl; [|done].
  apply isitmychild_spec in E.
  destruct (removechild_spec st p c E) as (Hperm & Hoth & Hfr & Hrec1).
  set (st1 := removechild st p c) in *.
  pose proof (edge_removed st st1 p c Hperm (gr_nodup _ Hg p) Hoth) as Hedge1.
  assert (Hsub1 : ∀ x y, edge st1 x y → edge st x y).
  { intros x y H. by apply Hedge1 in H as [H _]. }
  assert (Hnd1 : ∀ x, NoDup (kids st1 x)).
  { intros x. destruct (decide (x = p)) as [->|Hx].
    - pose proof (gr_nodup _ Hg p) as Hnd. rewrite Hperm in Hnd.
      by apply NoDup_cons in Hnd as [_ Hnd].
    - rewrite Hoth by done. apply (gr_nodup _ Hg). }
  assert (Hreg1 : registry_ok st1) by by eapply frame_registry_ok.
  assert (Hg1 : graph_ok st1).
  { apply (graph_ok_sub st); try done; by destruct Hfr. }
  destruct (isitmydescendant_spec st1 p c Hreg1 Hg1) as (b & -> & Hb). simpl.
  destruct b; [done|].
  apply bind_not_Diverge; [|done].
  apply itismychild_nested_not_Diverge; [congruence|].
  rewrite (fr_length _ _ Hfr). by eapply edge_in_range.
Qed.

Lemma prune_pass_not_Diverge L st :
  registry_ok st → graph_ok st → recursed st = true →
  for_each L (λ child, for_each L (prune_pair itismychild_nested child)) st
    ≠ Diverge.
Proof.
  intros Hreg Hg Hrec.
  set (I := λ s, registry_ok s ∧ graph_ok s ∧ recursed s = true).
  assert (Hstep : ∀ c p s s', I s →
            prune_pair itismychild_nested c p s = Ok s' → I s').
  { intros c p s s' (H1 & H2 & H3) Hrun.
    by destruct (prune_pair_spec c p s s' H1 H2 H3 Hrun) as [H _]. }
  apply (for_each_not_Diverge I); [| |done].
  - intros c s _ HI. apply (for_each_not_Diverge I); [| |done].
    + intros p s' _ (H1 & H2 & H3). by apply prune_pair_not_Diverge.
    + intros p s1 s2 _. apply Hstep.
  - intros c s s' _ HI. apply (for_each_inv I); [|done].
    intros p s1 s2 _. apply Hstep.
Qed.

Lemma height_ok_ext g g' n x :
  (∀ y, g' y = g y) → height_ok g n x → height_ok g' n x.
Proof.
  intros Hg. revert x. induction n as [|n IH]; intros x; simpl; [done|].
  intros H c Hc. rewrite Hg in Hc. by apply IH, H.
Qed.

Lemma relabel_graph st st' :
  registry_ok st → graph_ok st → relabel st st' →
  registry_ok st' ∧ graph_ok st'.
Proof.
  intros Hreg Hg Hrel. pose proof (relabel_frame _ _ Hrel) as Hfr. split.
  - by eapply frame_registry_ok.
  - apply (graph_ok_same_kids st); [by apply relabel_kids|..|done];
      by destruct Hfr.
Qed.

Lemma witness_leveldescendents_rec_not_Diverge d p level st :
  height_ok (kids st) d p →
  witness_leveldescendents_rec d p level st ≠ Diverge.
Proof.
  revert p level st. induction d as [|d IH]; intros p level st; [done|].
  intros Hh. simpl.
  set (st1 := if w_level (wit st p) <? level then _ else st).
  assert (Hrel1 : relabel st st1).
  { unfold st1. destruct (_ <? _); [|apply relabel_refl].
    by apply relabel_set_wit. }
  apply (for_each_not_Diverge (relabel st)); [| |done].
  - intros c s Hc Hrel. apply IH.
    apply (height_ok_ext (kids st)); [by apply relabel_kids|].
    apply Hh. exact Hc.
  - intros c s s' _ Hrel Hrun.
    eapply relabel_trans; [exact Hrel|].
    by eapply witness_leveldescendents_rec_relabel.
Qed.

Lemma witness_levelall_not_Diverge st :
  registry_ok st → graph_ok st → witness_levelall st ≠ Diverge.
Proof.
  intros Hreg Hg. unfold witness_levelall.
  assert (Hclear : ∀ l s,
    relabel s (foldl (λ s w, set_wit w (with_level 0 (wit s w)) s) s l)).
  { induction l as [|w l IH]; intros s; simpl; [apply relabel_refl|].
    eapply relabel_trans; [|apply IH]. by apply relabel_set_wit. }
  apply (for_each_not_Diverge (relabel st)); [| |apply Hclear].
  - intros w s _ Hrel. cbv beta. destruct (existsb _ _); [done|].
    destruct (relabel_graph st s Hreg Hg Hrel) as [Hreg' Hg'].
    apply witness_leveldescendents_rec_not_Diverge.
    apply acyclic_height_ok;
      [| apply (gr_acyclic _ Hg') | unfold WITNESS_COUNT; lia].
    intros x c Hc. by apply (edge_valid s).
  - intros w s s' _ Hrel. cbv beta. destruct (existsb _ _).
    + by intros [= <-].
    + intros Hrun. eapply relabel_trans; [exact Hrel|].
      by eapply witness_leveldescendents_rec_relabel.
Qed.

Lemma itismychild_not_Diverge p c st :
  wf st → p ∈ w_all st → c ∈ w_all st →
  p ≠ c → ¬ tc (edge st) c p → ¬ edge st p c →
  itismychild p c st ≠ Diverge.
Proof.
  intros Hwf Hp Hc Hne Hcp Hnpc. pose proof Hwf as [Hreg Hg Hred Hrec].
  unfold itismychild, itismychild_at.
  destruct (same_lock_type _ _) eqn:Hsame; simpl; [|done].
  apply same_lock_type_sleeplock in Hsame.
  apply bind_not_Diverge; [apply insert_child_not_Diverge|].
  intros [st1|] Hins; [|done].
  destruct (insert_child_graph_ok p c st st1)
    as (Hreg1 & Hg1 & Hfr1 & Hrec1 & Hedge1); try done.
  rewrite Hrec1, Hrec.
  set (st2 := set_recursed true st1) in *.
  assert (Hfr12 : frame st1 st2) by apply frame_set_recursed.
  assert (Hreg2 : registry_ok st2) by by eapply frame_registry_ok.
  assert (Hg2 : graph_ok st2) by by apply (graph_ok_same_kids st1).
  apply bind_not_Diverge; [by apply prune_pass_not_Diverge|].
  intros st3 Hpass.
  destruct (prune_pass_spec _ st2 st3 Hreg2 Hg2 eq_refl Hpass)
    as ((Hreg3 & Hg3 & Hrec3) & _).
  apply bind_not_Diverge; [|done].
  apply witness_levelall_not_Diverge.
  - eapply frame_registry_ok; [apply (frame_set_recursed false)|done].
  - by apply (graph_ok_same_kids st3).
Qed.

(** ** The calls into the verifier come back *)










(** ** Nested acquisitions *)

Lemma same_locks_refl st : same_locks st st.
Proof. done. Qed.

Lemma same_locks_trans s1 s2 s3 :
  same_locks s1 s2 → same_locks s2 s3 → same_locks s1 s3.
Proof.
  intros (H1 & H2 & H3) (K1 & K2 & K3). split; [congruence|].
  split; [congruence|]. intros l.
  destruct (H3 l) as (? & ? & ?), (K3 l) as (? & ? & ?).
  repeat split; congruence.
Qed.

Lemma same_locks_fields st st' :
  locks st' = locks st → witness_cold st' = witness_cold st →
  panicstr st' = panicstr st → same_locks st st'.
Proof.
  intros Hl Hc Hp. split; [done|]. split; [done|].
  intros l. unfold lock_at. by rewrite Hl.
Qed.


Lemma same_locks_sited lock w file line st :
  same_locks st (sited lock w file line st).
Proof.
  unfold sited. split; [done|]. split; [done|]. intros l.
  destruct (decide (l = lock)) as [->|Hne].
  - by rewrite lock_at_set_lock.
  - unfold lock_at, set_lock. simpl. by rewrite lookup_insert_ne.
Qed.

Lemma witness_lock_check_lists lock w file line chain st st1 :
  wf st → w ∈ w_all st →
  witness_lock_check lock w file line chain st = Ok st1 →
  same_locks st st1 ∧ p_sleeplocks st1 = p_sleeplocks st
  ∧ spinlocks st1 = spinlocks st.
Proof.
  intros Hwf Hw Hcheck.
  destruct (witness_lock_check_spec _ _ _ _ _ _ _ _ Hwf Hw Hcheck)
    as [_ [Hfr|[Hdup|Hrev]]].
  - destruct Hfr. split; [|done].
    apply same_locks_fields; [done|congruence..].
  - by destruct Hdup as (lle & rest & lock1 & _ & _ & _ & _ & _ & ->).
  - by destruct Hrev as (lock1 & w1 & _ & _ & _ & _ & [(_ & _ & ->)|(_ & _ & ->)]).
Qed.














(** ** The order graph of a reachable state *)

(** C1: in every reachable state the order graph has no cycle, so that no
    two witnesses are each reachable from the other, and has no direct edge
    to a child that is also reached through another child; the insertion of
    an edge by [itismychild], under the conditions that [witness_lock]
    checks before it calls it, comes back, and when it returns it ends in
    such a graph again. *)
Theorem C1_order_graph_is_a_pruned_dag st :
  reachable MAXCPU LOCK_NCHILDREN blessed_list st →
  acyclic st
  ∧ (∀ a b, tc (edge st) a b → ¬ tc (edge st) b a)
  ∧ reduced st
  ∧ (∀ p c,
       p ∈ w_all st → c ∈ w_all st → p ≠ c →
       ¬ tc (edge st) c p → ¬ edge st p c →
       itismychild p c st ≠ Diverge
       ∧ ∀ r st', itismychild p c st = Ok (r, st') →
                  acyclic st' ∧ reduced st').
Proof.
  intros Hwf%reachable_wf.
  pose proof (gr_acyclic _ (wf_graph _ Hwf)) as Hac.
  split; [done|]. split; [|split].
  - intros a b Hab Hba. apply (Hac a). by eapply tc_trans.
  - apply Hwf.
  - intros p c Hp Hc Hne Hcp Hnpc.
    split; [by apply itismychild_not_Diverge|].
    intros r st' Hrun.
    destruct (itismychild_wf p c st r st') as [Hwf' _]; try done.
    split; [apply Hwf' | apply Hwf'].
Qed.

End Nesting.

(** * The tunables *)

Section Config.

Variable MAXCPU : nat.
Variable LOCK_NCHILDREN : nat.
Variable blessed_list : list (string * string).

Local Abbreviation witness_lock := (witness_lock MAXCPU LOCK_NCHILDREN blessed_list).
Local Abbreviation witness_lock_out := (witness_lock_out MAXCPU LOCK_NCHILDREN).
Local Abbreviation witness_lock_check := (witness_lock_check blessed_list).
Local Abbreviation step := (step MAXCPU LOCK_NCHILDREN blessed_list).
Local Abbreviation run := (run MAXCPU LOCK_NCHILDREN blessed_list).

(** No function of the verifier stores into [witness_watch] or
    [witness_skipspin]. *)

Lemma same_config_refl st : same_config st st.
Proof. done. Qed.

Lemma same_config_trans s1 s2 s3 :
  same_config s1 s2 → same_config s2 s3 → same_config s1 s3.
Proof. intros [H1 H2] [K1 K2]. split; congruence. Qed.

Lemma for_each_config {A} (body : A → state → outcome state) l :
  (∀ x st st', body x st = Ok st' → same_config st st') →
  ∀ st st', for_each l body st = Ok st' → same_config st st'.
Proof.
  intros Hbody st st' Hrun.
  apply (for_each_inv (same_config st) body l) with (st := st);
    [|done|done].
  intros x s s' _ Hs Hx. eapply same_config_trans; [exact Hs|]. by eapply Hbody.
Qed.

Lemma enroll_config description class st r st' :
  enroll description class st = Ok (r, st') → same_config st st'.
Proof.
  unfold enroll.
  destruct (_ =? _); [by intros [= <- <-]|].
  destruct (_ && _); [by intros [= <- <-]|].
  destruct (find_witness st description) as [w|].
  - destruct (bool_decide _); [done | by intros [= <- <-]].
  - destruct (_ && _); [done|]. unfold witness_get.
    destruct (w_free st) as [|w rest]; [by intros [= <- <-]|].
    destruct (LC_SPINLOCK _); [by intros [= <- <-]|].
    destruct (LC_SLEEPLOCK _); [by intros [= <- <-] | done].
Qed.

Lemma enroll_Some description class st w st' :
  enroll description class st = Ok (Some w, st') →
  witness_watch st ≠ 0
  ∧ (LC_SPINLOCK (lc_flags class) = true → witness_skipspin st = 0).
Proof.
  unfold enroll.
  destruct (witness_watch st =? 0) eqn:Hw; [done|].
  apply Z.eqb_neq in Hw.
  destruct (LC_SPINLOCK (lc_flags class)); [|done].
  destruct (witness_skipspin st =? 0) eqn:Hk; [|done].
  apply Z.eqb_eq in Hk. done.
Qed.

Lemma insert_child_config p c st st1 :
  insert_child p c st = Ok (Some st1) → same_config st st1.
Proof.
  unfold insert_child. intros (r & _ & H)%outcome_bind_Ok.
  destruct r as [chain|]; [by injection H as <-|].
  unfold witness_child_get in H.
  destruct (w_child_free st); [done | by injection H as <-].
Qed.

Lemma removechild_config st p c : same_config st (removechild st p c).
Proof.
  unfold removechild.
  destruct (removechild_chain _ _) as [[chain []]|]; done.
Qed.

Lemma relabel_config st st' : relabel st st' → same_config st st'.
Proof. intros (E & _). by rewrite E. Qed.

Lemma itismychild_at_config self p c st r st' :
  (∀ p c s r s', self p c s = Ok (r, s') → same_config s s') →
  itismychild_at self p c st = Ok (r, st') → same_config st st'.
Proof.
  intros Hself. unfold itismychild_at.
  destruct (negb _); [done|].
  intros (ins & Hins & Hk)%outcome_bind_Ok.
  destruct ins as [st1|].
  2: { injection Hk as <- <-. unfold witness_child_get.
       by destruct (w_child_free st). }
  apply insert_child_config in Hins.
  destruct (recursed st1); [by injection Hk as <- <-|].
  apply outcome_bind_Ok in Hk as (st3 & Hpass & Hk).
  apply outcome_bind_Ok in Hk as (st4 & Hlev & Hk). injection Hk as <- <-.
  apply witness_levelall_relabel, relabel_config in Hlev.
  eapply same_config_trans; [exact Hins|].
  eapply same_config_trans; [|exact Hlev].
  eapply same_config_trans; [|by apply (same_config_refl st3)].
  assert (H2 : same_config st1 (set_recursed true st1)) by done.
  eapply same_config_trans; [exact H2|].
  eapply for_each_config; [|exact Hpass].
  intros child s s'. apply for_each_config.
  intros parent s1 s2. unfold prune_pair.
  destruct (negb _); [by intros [= <-]|].
  intros (b & _ & Hb)%outcome_bind_Ok.
  pose proof (removechild_config s1 parent child) as Hrm.
  destruct b; [by injection Hb as <-|].
  apply outcome_bind_Ok in Hb as ([r' s3] & Hs & Hb). injection Hb as <-.
  eapply same_config_trans; [exact Hrm|]. by eapply Hself.
Qed.

Lemma itismychild_config p c st r st' :
  itismychild p c st = Ok (r, st') → same_config st st'.
Proof.
  apply itismychild_at_config. intros p' c' s r' s'.
  by apply itismychild_at_config.
Qed.

Lemma witness_lock_check_config lock w file line chain st st1 :
  witness_lock_check lock w file line chain st = Ok st1 → same_config st st1.
Proof.
  unfold witness_lock_check.
  destruct chain as [|lle rest]; [by intros [= <-]|].
  destruct (last lle) as [lock1|]; [|done].
  destruct (lo_witness (lock_at st lock1)) as [w1|]; [|done].
  destruct (bool_decide (w1 = w)).
  { destruct (_ || _); by intros [= <-]. }
  destruct (_ && _); [by intros [= <-]|].
  intros (known & _ & H)%outcome_bind_Ok.
  destruct known; [by injection H as <-|].
  apply outcome_bind_Ok in H as (found & _ & H).
  destruct found as [[l1 w1']|].
  - destruct (blessed blessed_list st w w1'); [by injection H as <-|].
    destruct (bool_decide (l1 = Giant)).
    + destruct (w_Giant_squawked _); by injection H as <-.
    + destruct (w_other_squawked _); by injection H as <-.
  - apply outcome_bind_Ok in H as ([r s] & Hr & H). injection H as <-.
    by eapply itismychild_config.
Qed.

Lemma witness_lock_out_config lock w class file line p cpu st st' :
  witness_lock_out lock w class file line p cpu st = Ok st' →
  same_config st st'.
Proof.
  unfold witness_lock_out.
  set (st2 := sited lock w file line st).
  assert (H2 : same_config st st2) by done. clearbody st2.
  destruct (match lock_list_of class p cpu st2 with [] => true | _ => _ end).
  - unfold witness_lock_list_get. destruct (w_lock_list_free st2).
    + intros [= <-].
      destruct H2. unfold set_lock_list. by destruct (LC_SLEEPLOCK _).
    + destruct (Nat.leb _ _); [done|]. intros [= <-].
      destruct H2. unfold set_lock_list. by destruct (LC_SLEEPLOCK _).
  - destruct (lock_list_of class p cpu st2); [by intros [= <-]|].
    destruct (Nat.leb _ _); [done|]. intros [= <-].
    destruct H2. unfold set_lock_list. by destruct (LC_SLEEPLOCK _).
Qed.

Lemma witness_lock_config lock flags file line p cpu st st' :
  witness_lock lock flags file line p cpu st = Ok st' → same_config st st'.
Proof.
  unfold witness_lock.
  destruct (lo_witness (lock_at st lock)) as [w|]; [|by intros [= <-]].
  destruct (_ || _); [by intros [= <-]|].
  destruct (negb _); [done|].
  destruct (LO_RECURSED _).
  { destruct (negb _); [done | by intros [= <-]]. }
  destruct (_ && _); [done|].
  intros (st1 & Hcheck & Hout)%outcome_bind_Ok.
  apply witness_lock_out_config in Hout.
  eapply same_config_trans; [|exact Hout].
  destruct (LOP_TRYLOCK flags); [by injection Hcheck as <-|].
  by eapply witness_lock_check_config.
Qed.

Lemma witness_unlock_config lock flags file line p cpu st st' :
  witness_unlock lock flags file line p cpu st = Ok st' → same_config st st'.
Proof.
  unfold witness_unlock.
  destruct (lo_witness (lock_at st lock)) as [w|]; [|by intros [= <-]].
  destruct (_ || _); [by intros [= <-]|].
  destruct (LO_RECURSED _).
  { destruct (negb _); [done | by intros [= <-]]. }
  destruct (_ && _); [done|].
  destruct (unlock_chain _ _) as [[chain freed]|]; [|by intros [= <-]].
  intros [= <-].
  destruct freed; unfold set_lock_list; by destruct (LC_SLEEPLOCK _).
Qed.

Lemma foldl_print_config evs st :
  same_config st (foldl (λ s e, print e s) st evs).
Proof.
  revert st. induction evs as [|e evs IH]; intros st; simpl; [done|].
  eapply same_config_trans; [|apply IH]. done.
Qed.

Lemma witness_sleep_config check_only lock file line p cpu st :
  same_config st (witness_sleep check_only lock file line p cpu st).2.
Proof.
  unfold witness_sleep. destruct (_ || _); [done|].
  rewrite !sleep_scan_spec. simpl. apply foldl_print_config.
Qed.

Lemma witness_init_config lock st st' :
  witness_init lock st = Ok st' → same_config st st'.
Proof.
  unfold witness_init.
  destruct (LO_INITIALIZED _); [done|].
  destruct (_ && _); [done|]. destruct (_ && _); [done|].
  destruct (_ && _).
  - intros ([w st2] & Henr & Hk)%outcome_bind_Ok. injection Hk as <-.
    apply enroll_config in Henr. destruct Henr. by split.
  - by intros [= <-].
Qed.

Lemma witness_destroy_config lock st st' :
  witness_destroy lock st = Ok st' → same_config st st'.
Proof.
  unfold witness_destroy.
  destruct (witness_cold st); [done|].
  destruct (negb _); [done|]. destruct (LO_LOCKED _); [done|].
  intros [= <-]. by destruct (lo_witness (lock_at st lock)).
Qed.

Lemma witness_restore_config lock file line st :
  same_config st (witness_restore lock file line st).
Proof.
  unfold witness_restore. by destruct (lo_witness (lock_at st lock)).
Qed.

Lemma step_config o st st' : step o st = Ok st' → same_config st st'.
Proof.
  destruct o as [lock class name flags| | | | | |]; simpl.
  - destruct (bool_decide _); [apply witness_init_config|].
    intros H%witness_init_config. destruct H. by split.
  - apply witness_destroy_config.
  - apply witness_lock_config.
  - apply witness_unlock_config.
  - intros [= <-]. apply witness_sleep_config.
  - intros [= <-]. apply witness_restore_config.
  - by intros [= <-].
Qed.

(** *** A boot that returns has checking enabled and skips no class *)

Lemma order_chain_config l : ∀ w st st',
  order_chain w l st = Ok st' → same_config st st'.
Proof.
  induction l as [|[name class] l IH]; intros w st st'; simpl.
  - by intros [= <-].
  - intros ([r st1] & Henr & H)%outcome_bind_Ok.
    destruct r as [w1|]; [|done].
    apply outcome_bind_Ok in H as ([r3 st3] & Hchild & H).
    apply enroll_config in Henr. apply itismychild_config in Hchild.
    apply IH in H.
    eapply same_config_trans; [exact Henr|].
    eapply same_config_trans; [|exact H].
    eapply same_config_trans; [|exact Hchild]. done.
Qed.

Lemma order_run_config l st st' :
  order_run l st = Ok st' → same_config st st'.
Proof.
  destruct l as [|[name class] l]; simpl; [by intros [= <-]|].
  intros ([r st1] & Henr & H)%outcome_bind_Ok.
  destruct r as [w|]; [|done].
  apply enroll_config in Henr. apply order_chain_config in H.
  eapply same_config_trans; [exact Henr|].
  eapply same_config_trans; [|exact H]. done.
Qed.

Lemma order_run_enabled name class l st st' :
  order_run ((name, class) :: l) st = Ok st' →
  witness_watch st ≠ 0
  ∧ (LC_SPINLOCK (lc_flags class) = true → witness_skipspin st = 0).
Proof.
  simpl. intros ([r st1] & Henr & H)%outcome_bind_Ok.
  destruct r as [w|]; [|done]. by eapply enroll_Some.
Qed.

Lemma enroll_lock_config lock st st' :
  enroll_lock lock st = Ok st' → same_config st st'.
Proof.
  unfold enroll_lock. destruct (LO_WITNESS _); [|by intros [= <-]].
  intros ([w st1] & Henr & H)%outcome_bind_Ok. injection H as <-.
  apply enroll_config in Henr. destruct Henr. by split.
Qed.

Lemma foldl_config {A} (f : state → A → state) l :
  (∀ s x, same_config s (f s x)) → ∀ st, same_config st (foldl f st l).
Proof.
  intros Hf. induction l as [|x l IH]; intros st; simpl; [done|].
  eapply same_config_trans; [apply Hf | apply IH].
Qed.

Lemma witness_initialize_enabled i386 smp st0 st :
  witness_initialize MAXCPU i386 smp st0 = Ok st →
  witness_watch st ≠ 0 ∧ witness_skipspin st = 0.
Proof.
  unfold witness_initialize.
  intros (st2 & _ & H)%outcome_bind_Ok.
  apply outcome_bind_Ok in H as (st6 & Horder & H).
  apply outcome_bind_Ok in H as (st7 & Hlocks & H). injection H as <-.
  apply (for_each_config enroll_lock) in Hlocks;
    [|intros x s s'; apply enroll_lock_config].
  unfold order_lists in Horder.
  change (for_each (?g1 :: ?g2 :: []) order_run ?s)
    with (order_run g1 s ≫= λ s1, order_run g2 s1 ≫= λ s2, Ok s2) in Horder.
  apply outcome_bind_Ok in Horder as (s1 & Hg1 & Horder).
  match type of Horder with
  | order_run ?g _ ≫= _ = _ => set (spin := g) in Horder
  end.
  assert (Hspin : ∃ name l, spin = (name, lock_class_mtx_spin) :: l).
  { unfold spin. destruct i386, smp; simpl; eauto. }
  clearbody spin. destruct Hspin as (name & l & ->).
  apply outcome_bind_Ok in Horder as (s2 & Hg2 & Horder).
  injection Horder as ->.
  pose proof (order_run_config _ _ _ Hg1) as Hc1.
  pose proof (order_run_config _ _ _ Hg2) as Hc2.
  apply order_run_enabled in Hg1 as [Hwatch _].
  assert (Hskip : witness_skipspin s1 = 0).
  { apply order_run_enabled in Hg2 as [_ Hs]. by apply Hs. }
  destruct Hc1 as [Hw1 Hs1], Hc2 as [Hw2 Hs2], Hlocks as [Hw3 Hs3].
  simpl. split; congruence.
Qed.

Lemma reachable_enabled st :
  reachable MAXCPU LOCK_NCHILDREN blessed_list st →
  witness_watch st ≠ 0 ∧ witness_skipspin st = 0.
Proof.
  induction 1 as [i386 smp st0 st Hboot Hinit|o st st' _ IH Hok Hstep].
  - by eapply witness_initialize_enabled.
  - apply step_config in Hstep as [-> ->]. done.
Qed.


End Config.

(** * Further properties of the verifier *)

Section Extras.

Variable MAXCPU : nat.
Variable LOCK_NCHILDREN : nat.
Variable blessed_list : list (string * string).

Local Abbreviation witness_lock := (witness_lock MAXCPU LOCK_NCHILDREN blessed_list).
Local Abbreviation witness_lock_out := (witness_lock_out MAXCPU LOCK_NCHILDREN).
Local Abbreviation witness_lock_check := (witness_lock_check blessed_list).
Local Abbreviation step := (step MAXCPU LOCK_NCHILDREN blessed_list).
Local Abbreviation run := (run MAXCPU LOCK_NCHILDREN blessed_list).
Local Abbreviation reachable := (reachable MAXCPU LOCK_NCHILDREN blessed_list).

(** ** The search of the order graph *)

(** X1: in every reachable state [isitmydescendant] comes back, and it
    returns 1 exactly when [child] is reached from [parent] by one or more
    child links. *)
Theorem X1_isitmydescendant_is_reachability st parent child :
  reachable st →
  ∃ b, isitmydescendant st parent child = Ok b
       ∧ (b = true ↔ tc (edge st) parent child).
Proof.
  intros Hwf%reachable_wf. apply isitmydescendant_spec; apply Hwf.
Qed.


(** ** Blessed pairs *)

Lemma blessed_in_spec tbl n1 n2 :
  blessed_in tbl n1 n2 = true ↔ (n1, n2) ∈ tbl ∨ (n2, n1) ∈ tbl.
Proof.
  induction tbl as [|[b1 b2] tbl IH]; simpl.
  { split; [done|]. intros [H|H]; by apply not_elem_of_nil in H. }
  rewrite !elem_of_cons.
  destruct (String.eqb_spec n1 b1) as [->|H1].
  - destruct (String.eqb_spec n2 b2) as [->|H2].
    { split; [intros _; left; by left | done]. }
    rewrite IH. split; [tauto|].
    intros [[H|H]|[H|H]]; try tauto; congruence.
  - destruct (String.eqb_spec n1 b2) as [->|H3]; simpl.
    + destruct (String.eqb_spec n2 b1) as [->|H4].
      { split; [intros _; right; by left | done]. }
      rewrite IH. split; [tauto|].
      intros [[H|H]|[H|H]]; try tauto; congruence.
    + rewrite IH. split; [tauto|].
      intros [[H|H]|[H|H]]; try tauto; congruence.
Qed.

(** X3: [blessed] returns 1 exactly when the names of the two witnesses
    are an entry of the table of blessed pairs in one order or the other; so
    the order of its two arguments does not matter. *)
Theorem X3_blessed_is_symmetric st w1 w2 :
  (blessed blessed_list st w1 w2 = true
   ↔ (w_name (wit st w1), w_name (wit st w2)) ∈ blessed_list
     ∨ (w_name (wit st w2), w_name (wit st w1)) ∈ blessed_list)
  ∧ blessed blessed_list st w1 w2 = blessed blessed_list st w2 w1.
Proof.
  split; [apply blessed_in_spec|].
  unfold blessed. apply eq_true_iff_eq. rewrite !blessed_in_spec. tauto.
Qed.

(** ** The registry *)

Lemma find_witness_same_names st st' d :
  w_all st' = w_all st →
  (∀ x, w_name (wit st' x) = w_name (wit st x)) →
  find_witness st' d = find_witness st d.
Proof.
  intros Ha Hn. unfold find_witness. rewrite Ha. clear Ha.
  induction (w_all st) as [|x l IH]; simpl; [done|].
  by rewrite Hn, IH.
Qed.

Lemma enroll_found description class st w st' :
  registry_ok st →
  enroll description class st = Ok (Some w, st') →
  find_witness st' description = Some w
  ∧ w_name (wit st' w) = description ∧ w_class (wit st' w) = class
  ∧ (find_witness st description = None →
     w_free st = w :: w_free st' ∧ w_all st' = w :: w_all st
     ∧ w_refcount (wit st' w) = 1 ∧ w_children (wit st' w) = []).
Proof.
  intros Hreg. unfold enroll.
  destruct (_ =? _); [done|]. destruct (_ && _); [done|].
  destruct (find_witness st description) as [w0|] eqn:Hfind.
  - destruct (bool_decide _) eqn:Hclass; [done|]. intros [= <- <-].
    apply bool_decide_eq_false_1 in Hclass.
    destruct (find_witness_Some _ _ _ Hfind) as [Hin Hname].
    split; [|split; [|split; [|done]]].
    + rewrite <- Hfind. apply find_witness_same_names; [done|].
      intros x. by apply (wit_set_wit_field w_name).
    + by rewrite (wit_set_wit_field w_name).
    + by destruct (decide (class = w_class
             (wit (set_wit w0 (with_refcount
                (u_int (w_refcount (wit st w0) + 1)) (wit st w0)) st) w0))).
  - destruct (_ && _); [done|]. unfold witness_get.
    destruct (w_free st) as [|w0 rest] eqn:Hfree; [done|].
    assert (Hw0 : (w0 < length (w_data st))%nat).
    { rewrite (reg_length _ Hreg). apply (reg_valid _ Hreg).
      rewrite Hfree. apply elem_of_app. left. by constructor. }
    set (st1 := set_wit w0 zero_witness (set_w_free rest st)).
    assert (Hlen1 : (w0 < length (w_data st1))%nat).
    { unfold st1, set_wit. simpl. by rewrite length_insert. }
    set (st2 := set_wit w0 _ st1).
    assert (Hwit : wit st2 w0
              = with_refcount 1
                  (Witness description class (w_children (wit st1 w0))
                     (w_file (wit st1 w0)) (w_line (wit st1 w0))
                     (w_level (wit st1 w0)) (w_refcount (wit st1 w0))
                     (w_Giant_squawked (wit st1 w0))
                     (w_other_squawked (wit st1 w0))
                     (w_same_squawked (wit st1 w0)))).
    { unfold st2. by rewrite wit_set_wit_eq. }
    assert (Hkids : w_children (wit st1 w0) = []).
    { unfold st1. by rewrite wit_set_wit_eq. }
    assert (Hres : ∀ s, wit s = wit st2 → w_all s = w0 :: w_all st →
              w_free s = rest →
              find_witness s description = Some w0
              ∧ w_name (wit s w0) = description ∧ w_class (wit s w0) = class
              ∧ (None = None (A:=nat) →
                 w0 :: rest = w0 :: w_free s ∧ w_all s = w0 :: w_all st
                 ∧ w_refcount (wit s w0) = 1 ∧ w_children (wit s w0) = [])).
    { intros s Hs Ha Hf. rewrite Hs, Hwit. simpl. unfold find_witness.
      rewrite Ha, Hs. simpl. rewrite Hwit. simpl.
      rewrite String.eqb_refl. rewrite Hf. done. }
    destruct (LC_SPINLOCK _); [intros [= <- <-]; by apply Hres|].
    destruct (LC_SLEEPLOCK _); [intros [= <- <-]; by apply Hres|done].
Qed.

(** X4: when [enroll] returns a witness in a reachable state, a search of
    the registry for the name finds that witness, which carries the name and
    the class; for a name that was not known it is the head of the free list,
    now the head of [w_all], with reference count 1 and no children; and
    enrolling the name once more with the same class returns the same
    witness with one more reference. *)
Theorem X4_enroll_then_lookup description class st w st' :
  reachable st →
  enroll description class st = Ok (Some w, st') →
  find_witness st' description = Some w
  ∧ w_name (wit st' w) = description ∧ w_class (wit st' w) = class
  ∧ (find_witness st description = None →
     w_free st = w :: w_free st' ∧ w_all st' = w :: w_all st
     ∧ w_refcount (wit st' w) = 1 ∧ w_children (wit st' w) = [])
  ∧ enroll description class st'
    = Ok (Some w,
          set_wit w
            (with_refcount (u_int (w_refcount (wit st' w) + 1)) (wit st' w))
            st').
Proof.
  intros Hr Henr. pose proof (reachable_wf _ _ _ _ Hr) as Hwf.
  destruct (enroll_found _ _ _ _ _ (wf_registry _ Hwf) Henr)
    as (Hfind & Hname & Hclass & Hnew).
  repeat (split; [done|]).
  destruct (enroll_Some _ _ _ _ _ Henr) as [Hwatch Hskip].
  destruct (enroll_config _ _ _ _ _ Henr) as [Hw Hs].
  apply enroll_known_name; [congruence| |done|done].
  intros H. rewrite Hs. by apply Hskip.
Qed.

(** ** Detection *)


(** ** Listing the held locks *)

Lemma list_scan_spec st held n out :
  list_scan st held n out
  = (n + Z.of_nat (length held), out ++ map (held_line_of st) held).
Proof.
  revert n out. induction held as [|lock held IH]; intros n out; simpl.
  - by rewrite Z.add_0_r, app_nil_r.
  - rewrite IH, <- app_assoc. simpl. f_equal. lia.
Qed.

Lemma unsafe_held_length st lock held :
  (length (unsafe_held st lock held) ≤ length held)%nat.
Proof. unfold unsafe_held. apply length_filter. Qed.

Lemma witness_list_spec p curproc cpu st :
  witness_list p curproc cpu st
  = (Z.of_nat (length (held_scan (sleeplocks_of st p)
                       ++ (if bool_decide (p = curproc)
                           then held_scan (spinlocks_of st cpu) else []))),
     map (held_line_of st)
       (held_scan (sleeplocks_of st p)
        ++ (if bool_decide (p = curproc)
            then held_scan (spinlocks_of st cpu) else []))).
Proof.
  unfold witness_list, witness_list_locks.
  rewrite !list_scan_spec. destruct (bool_decide (p = curproc)); simpl.
  - rewrite length_app, map_app. f_equal. lia.
  - by rewrite app_nil_r.
Qed.

(** X6: [witness_list] returns the number of locks on the list of sleep
    locks of the process, plus, for the calling process, the number on the
    list of spin locks of its CPU, and prints one line for each of them in
    the order of the scan (newest chunk first, newest slot first); the count
    that [witness_sleep] returns for the caller is never larger. *)
Theorem X6_witness_list_counts_held_locks p curproc cpu st :
  let sleep := held_scan (sleeplocks_of st p) in
  let spin :=
    if bool_decide (p = curproc) then held_scan (spinlocks_of st cpu)
    else [] in
  witness_list p curproc cpu st
  = (Z.of_nat (length (sleep ++ spin)), map (held_line_of st) (sleep ++ spin))
  ∧ ∀ check_only lock file line,
      (witness_sleep check_only lock file line curproc cpu st).1
      ≤ (witness_list curproc curproc cpu st).1.
Proof.
  intros sleep spin.
  assert (Hlist : witness_list p curproc cpu st
            = (Z.of_nat (length (sleep ++ spin)),
               map (held_line_of st) (sleep ++ spin))).
  { unfold spin, sleep. apply witness_list_spec. }
  split; [done|]. intros check_only lock file line.
  unfold witness_list, witness_list_locks. rewrite !list_scan_spec.
  rewrite bool_decide_eq_true_2 by done. simpl.
  unfold witness_sleep. destruct (_ || _); simpl; [lia|].
  rewrite !sleep_scan_spec. simpl.
  pose proof (unsafe_held_length st lock (held_scan (sleeplocks_of st curproc))).
  pose proof (unsafe_held_length st lock (held_scan (spinlocks_of st cpu))).
  lia.
Qed.





Lemma witness_lock_out_site lock w class file line p cpu st st' :
  witness_lock_out lock w class file line p cpu st = Ok st' →
  lo_file (lock_at st' lock) = Some file ∧ lo_line (lock_at st' lock) = line
  ∧ ((w < length (w_data st))%nat →
     w_file (wit st' w) = Some file ∧ w_line (wit st' w) = line)
  ∧ locks st' !! lock = Some (lock_at st' lock).
Proof.
  unfold witness_lock_out.
  destruct (sited_spec lock w file line st) as (_ & _ & _ & _ & Hw & Hf & Hl).
  assert (Hin : locks (sited lock w file line st) !! lock
                = Some (lock_at (sited lock w file line st) lock)).
  { unfold sited, lock_at, set_lock. simpl. by rewrite lookup_insert_eq. }
  set (st2 := sited lock w file line st) in *. clearbody st2.
  assert (Hkeep : ∀ s, locks s = locks st2 → w_data s = w_data st2 →
            lo_file (lock_at s lock) = Some file
            ∧ lo_line (lock_at s lock) = line
            ∧ ((w < length (w_data st))%nat →
               w_file (wit s w) = Some file ∧ w_line (wit s w) = line)
            ∧ locks s !! lock = Some (lock_at s lock)).
  { intros s Hlk Hd. unfold lock_at, wit in *. by rewrite Hlk, Hd. }
  destruct (match lock_list_of class p cpu st2 with [] => true | _ => _ end).
  - unfold witness_lock_list_get. destruct (w_lock_list_free st2).
    + intros [= <-]. apply Hkeep; unfold set_lock_list;
        by destruct (LC_SLEEPLOCK _).
    + destruct (Nat.leb _ _); [done|]. intros [= <-].
      apply Hkeep; unfold set_lock_list; by destruct (LC_SLEEPLOCK _).
  - destruct (lock_list_of class p cpu st2); [intros [= <-]; by apply Hkeep|].
    destruct (Nat.leb _ _); [done|]. intros [= <-].
    apply Hkeep; unfold set_lock_list; by destruct (LC_SLEEPLOCK _).
Qed.

Lemma tracked_inv st lock :
  tracked st lock = true →
  ∃ w, lo_witness (lock_at st lock) = Some w ∧ witness_cold st = false
       ∧ panicstr st = false
       ∧ LO_RECURSED (lo_flags (lock_at st lock)) = false.
Proof.
  unfold tracked. destruct (lo_witness (lock_at st lock)) as [w|]; [|done].
  destruct (witness_cold st), (panicstr st), (LO_RECURSED _); try done.
  by exists w.
Qed.

Lemma witness_lock_site lock flags file line p cpu st st' :
  tracked st lock = true → witness_dead st = false →
  witness_lock lock flags file line p cpu st = Ok st' →
  lo_file (lock_at st' lock) = Some file ∧ lo_line (lock_at st' lock) = line
  ∧ locks st' !! lock = Some (lock_at st' lock).
Proof.
  intros (w & Hw & Hc & Hp & Hr)%tracked_inv Hd. unfold witness_lock.
  rewrite Hw, Hc, Hd, Hp, Hr. simpl.
  destruct (negb _); [done|]. destruct (_ && _); [done|].
  intros (st1 & _ & Hout)%outcome_bind_Ok.
  apply witness_lock_out_site in Hout as (? & ? & _ & ?). done.
Qed.



(** ** Saving and restoring the site of a lock *)

Lemma set_wit_id w st :
  (w < length (w_data st))%nat → set_wit w (wit st w) st = st.
Proof.
  intros Hw. unfold set_wit, wit.
  rewrite list_insert_id by by apply list_lookup_lookup_total_lt.
  by destruct st.
Qed.

Lemma set_lock_id l st :
  locks st !! l = Some (lock_at st l) → set_lock l (lock_at st l) st = st.
Proof.
  intros Hl. unfold set_lock. rewrite insert_id by done. by destruct st.
Qed.

Lemma with_site_id file line x :
  w_file x = file → w_line x = line → with_site file line x = x.
Proof. intros <- <-. by destruct x. Qed.

Lemma lock_with_site_id file line l :
  lo_file l = file → lo_line l = line → lock_with_site file line l = l.
Proof. intros <- <-. by destruct l. Qed.

Lemma witness_lock_out_same_locks lock w class file line p cpu st st' :
  witness_lock_out lock w class file line p cpu st = Ok st' →
  same_locks st st'.
Proof.
  unfold witness_lock_out.
  pose proof (same_locks_sited lock w file line st) as Hsame.
  set (st2 := sited lock w file line st) in *. clearbody st2.
  intros H. apply (same_locks_trans _ st2); [done|]. revert H.
  destruct (match lock_list_of class p cpu st2 with [] => true | _ => _ end).
  - unfold witness_lock_list_get. destruct (w_lock_list_free st2).
    + intros [= <-]. apply same_locks_fields; unfold set_lock_list;
        by destruct (LC_SLEEPLOCK _).
    + destruct (Nat.leb _ _); [done|]. intros [= <-].
      apply same_locks_fields; unfold set_lock_list;
        by destruct (LC_SLEEPLOCK _).
  - destruct (lock_list_of class p cpu st2); [by intros [= <-]|].
    destruct (Nat.leb _ _); [done|]. intros [= <-].
    apply same_locks_fields; unfold set_lock_list;
      by destruct (LC_SLEEPLOCK _).
Qed.

Lemma witness_lock_witness_site lock flags file line p cpu st st' :
  wf st → tracked st lock = true → witness_dead st = false →
  witness_lock lock flags file line p cpu st = Ok st' →
  ∃ w, lo_witness (lock_at st' lock) = Some w
       ∧ w_file (wit st' w) = Some file ∧ w_line (wit st' w) = line.
Proof.
  intros Hwf (w & Hw & Hc & Hp & Hr)%tracked_inv Hd. unfold witness_lock.
  rewrite Hw, Hc, Hd, Hp, Hr. simpl.
  destruct (negb _); [done|]. destruct (_ && _); [done|].
  intros (st1 & Hcheck & Hout)%outcome_bind_Ok.
  assert (Hin : w ∈ w_all st).
  { by apply (lock_at_witness st lock); [apply Hwf|]. }
  assert (H1 : wf st1 ∧ same_locks st st1).
  { destruct (LOP_TRYLOCK flags); [by injection Hcheck as <-|].
    split.
    - by destruct (witness_lock_check_spec _ _ _ _ _ _ _ _ Hwf Hin Hcheck).
    - by destruct (witness_lock_check_lists _ _ _ _ _ _ _ _ Hwf Hin Hcheck). }
  destruct H1 as [Hwf1 Hsame1].
  pose proof (witness_lock_out_same_locks _ _ _ _ _ _ _ _ _ Hout) as Hsame2.
  destruct (witness_lock_out_site _ _ _ _ _ _ _ _ _ Hout)
    as (_ & _ & Hsite & _).
  exists w. split.
  - destruct Hsame1 as (_ & _ & H1), Hsame2 as (_ & _ & H2).
    destruct (H1 lock) as (E1 & _), (H2 lock) as (E2 & _). congruence.
  - apply Hsite. rewrite (reg_length _ (wf_registry _ Hwf1)).
    apply (reg_valid _ (wf_registry _ Hwf)), elem_of_app. by right.
Qed.

(** X8: [witness_save] hands out the site stored in a watched lock, and
    [witness_restore] of that site, in whatever state the lock is watched,
    puts it back into the lock and into its witness and touches no other
    field of them, no other lock or witness, no list of held locks and not
    the console; for a lock that is not watched both do nothing.  Right
    after an acquisition at [file]:[line] that got as far as the lists, the
    site saved is [file]:[line], and to restore it changes nothing. *)
Theorem X8_witness_save_and_restore lock st :
  reachable st →
  (lo_witness (lock_at st lock) = None →
   witness_save lock st = None
   ∧ ∀ file line, witness_restore lock file line st = st)
  ∧ (∀ w file line,
       lo_witness (lock_at st lock) = Some w →
       let st' := witness_restore lock file line st in
       witness_save lock st' = Some (file, line)
       ∧ w_file (wit st' w) = file ∧ w_line (wit st' w) = line
       ∧ (∀ x, keeps (wit st' x) (wit st x)
               ∧ w_children (wit st' x) = w_children (wit st x)
               ∧ w_level (wit st' x) = w_level (wit st x)
               ∧ w_refcount (wit st' x) = w_refcount (wit st x))
       ∧ (∀ x, x ≠ w → wit st' x = wit st x)
       ∧ (∀ l, l ≠ lock → lock_at st' l = lock_at st l)
       ∧ lock_at st' lock = lock_with_site file line (lock_at st lock)
       ∧ p_sleeplocks st' = p_sleeplocks st ∧ spinlocks st' = spinlocks st
       ∧ console st' = console st)
  ∧ (∀ flags file line p cpu st',
       tracked st lock = true → witness_dead st = false →
       witness_lock lock flags file line p cpu st = Ok st' →
       witness_save lock st' = Some (Some file, line)
       ∧ witness_restore lock (Some file) line st' = st').
Proof.
  intros Hwf%reachable_wf. split; [|split].
  - intros Hw. unfold witness_save, witness_restore. by rewrite Hw.
  - intros w file line Hw st'.
    assert (Hin : (w < length (w_data st))%nat).
    { apply w_all_in_range; [apply Hwf|].
      by apply (lock_at_witness st lock); [apply Hwf|]. }
    unfold st', witness_restore, witness_save. rewrite Hw.
    set (st1 := set_wit w (with_site file line (wit st w)) st).
    assert (Hlock1 : lock_at st1 lock = lock_at st lock) by done.
    rewrite lock_at_set_lock. simpl. rewrite Hlock1, Hw.
    change (wit (set_lock ?l ?o st1)) with (wit st1).
    split; [done|]. unfold st1. rewrite wit_set_wit_eq by done.
    split; [done|]. split; [done|]. split.
    { intros x. repeat split; by apply (wit_set_wit_field _). }
    split; [intros x Hx; by apply wit_set_wit_ne|].
    split; [|done].
    intros l Hl. unfold lock_at, set_lock. simpl.
    by rewrite lookup_insert_ne.
  - intros flags file line p cpu st' Htr Hd Hlock.
    destruct (witness_lock_site _ _ _ _ _ _ _ _ Htr Hd Hlock)
      as (Hf & Hl & Hin).
    pose proof (witness_lock_wf _ _ _ _ _ _ _ _ _ _ _ Hwf Hlock) as Hwf'.
    destruct (witness_lock_witness_site lock flags file line p cpu st st')
      as (w & Hw' & Hwf2 & Hwl); try done.
    unfold witness_save, witness_restore. rewrite Hw'. split; [by rewrite Hf, Hl|].
    assert (Hrange : (w < length (w_data st'))%nat).
    { apply w_all_in_range; [apply Hwf'|].
      by apply (lock_at_witness st' lock); [apply Hwf'|]. }
    rewrite (with_site_id (Some file) line) by done.
    rewrite set_wit_id by done.
    rewrite (lock_with_site_id (Some file) line) by done.
    by apply set_lock_id.
Qed.


(** ** The DDB command `show locks' *)

Lemma typed_in_ddb_digits n :
  0 ≤ n < 100000 →
  ∃ d0 d1 d2 d3 d4,
    0 ≤ d0 < 10 ∧ 0 ≤ d1 < 10 ∧ 0 ≤ d2 < 10 ∧ 0 ≤ d3 < 10 ∧ 0 ≤ d4 < 10
    ∧ n = d0 + d1 * 10 + d2 * 100 + d3 * 1000 + d4 * 10000
    ∧ typed_in_ddb n = d0 + d1 * 16 + d2 * 256 + d3 * 4096 + d4 * 65536.
Proof.
  intros Hn. unfold typed_in_ddb.
  exists (n mod 10), ((n / 10) mod 10), ((n / 100) mod 10),
    ((n / 1000) mod 10), ((n / 10000) mod 10).
  repeat (split; [apply Z.mod_pos_bound; lia|]).
  split; [|done]. Z.div_mod_to_equations. lia.
Qed.

Lemma db_pid_digits d0 d1 d2 d3 d4 :
  0 ≤ d0 < 10 → 0 ≤ d1 < 10 → 0 ≤ d2 < 10 → 0 ≤ d3 < 10 → 0 ≤ d4 < 10 →
  db_pid (d0 + d1 * 16 + d2 * 256 + d3 * 4096 + d4 * 65536)
  = d0 + d1 * 10 + d2 * 100 + d3 * 1000 + d4 * 10000.
Proof.
  intros H0 H1 H2 H3 H4. unfold db_pid.
  rewrite !Z.shiftr_div_pow2 by lia.
  rewrite !Z.rem_mod_nonneg by (try apply Z.div_pos; lia).
  change (2 ^ 4) with 16. change (2 ^ 8) with 256.
  change (2 ^ 12) with 4096. change (2 ^ 16) with 65536.
  Z.div_mod_to_equations. lia.
Qed.

Lemma find_pid_first (allproc pre post : list (nat * Z)) p pid :
  allproc = pre ++ (p, pid) :: post →
  (∀ q, q ∈ pre → q.2 ≠ pid) →
  List.find (λ pp, (pp.2 =? pid)) allproc = Some (p, pid).
Proof.
  intros -> Hpre. induction pre as [|q pre IH]; simpl.
  - by rewrite Z.eqb_refl.
  - destruct (Z.eqb_spec q.2 pid) as [Heq|_].
    + destruct (Hpre q); [constructor | done].
    + apply IH. intros q' Hq'. apply Hpre. by constructor.
Qed.

Lemma find_pid_none (allproc : list (nat * Z)) pid :
  (∀ q, q ∈ allproc → q.2 ≠ pid) →
  List.find (λ pp, (pp.2 =? pid)) allproc = None.
Proof.
  induction allproc as [|q l IH]; intros Hall; simpl; [done|].
  destruct (Z.eqb_spec q.2 pid) as [Heq|_].
  - destruct (Hall q); [constructor | done].
  - apply IH. intros q' Hq'. apply Hall. by constructor.
Qed.

(** X9. The command `show locks' of DDB reads its argument in base 16 and
    makes a process id of its hexadecimal digits read as decimal ones: for
    a process id [n] below 100000 typed in decimal, the id it looks up is
    [n]. It lists the locks of the first process of [allproc] with that id
    (the spin locks only when this is the current process), and when no
    process has the id it prints that the id was not found and lists
    nothing. Without an argument it lists the locks of the current
    process. *)
Theorem X9_show_locks_selects_typed_pid (n : Z) (allproc : list (nat * Z))
    (curproc cpu : nat) (st : state) :
  0 ≤ n < 100000 →
  db_pid (typed_in_ddb n) = n
  ∧ (∀ pre p post,
       allproc = pre ++ (p, n) :: post →
       (∀ q, q ∈ pre → q.2 ≠ n) →
       db_witness_list true (typed_in_ddb n) allproc curproc cpu st
       = DbLocks (map (held_line_of st)
           (held_scan (sleeplocks_of st p)
            ++ (if bool_decide (p = curproc)
                then held_scan (spinlocks_of st cpu) else []))))
  ∧ ((∀ q, q ∈ allproc → q.2 ≠ n) →
     db_witness_list true (typed_in_ddb n) allproc curproc cpu st
     = DbNotFound n)
  ∧ db_witness_list false (typed_in_ddb n) allproc curproc cpu st
    = DbLocks (map (held_line_of st)
        (held_scan (sleeplocks_of st curproc)
         ++ held_scan (spinlocks_of st cpu))).
Proof.
  intros Hn.
  assert (Hpid : db_pid (typed_in_ddb n) = n).
  { destruct (typed_in_ddb_digits n Hn)
      as (d0 & d1 & d2 & d3 & d4 & H0 & H1 & H2 & H3 & H4 & Hsum & ->).
    rewrite db_pid_digits by done. by rewrite Hsum. }
  split; [done|]. unfold db_witness_list. rewrite Hpid.
  split; [|split].
  - intros pre p post Hall Hpre.
    rewrite (find_pid_first allproc pre post p n Hall Hpre). simpl.
    by rewrite witness_list_spec.
  - intros Hnone. by rewrite find_pid_none.
  - rewrite witness_list_spec. simpl.
    by rewrite bool_decide_eq_true_2.
Qed.


(** ** The life of a lock *)

Lemma filter_other_id (l : list nat) x :
  x ∉ l → filter (λ y, y ≠ x) l = l.
Proof.
  induction l as [|y l IH]; intros Hx; [done|].
  apply not_elem_of_cons in Hx as [Hne Hx].
  rewrite filter_cons_True by done. by rewrite IH.
Qed.

Lemma enroll_fresh name class st w rest :
  witness_watch st ≠ 0 →
  LC_SPINLOCK (lc_flags class) = false →
  LC_SLEEPLOCK (lc_flags class) = true →
  find_witness st name = None → w_free st = w :: rest →
  (w < length (w_data st))%nat →
  ∃ st', enroll name class st = Ok (Some w, st')
    ∧ wit st' w = Witness name class [] None 0 0 1 false false false
    ∧ (∀ x, x ≠ w → wit st' x = wit st x)
    ∧ length (w_data st') = length (w_data st)
    ∧ st' = set_w_data (w_data st')
              (set_w_sleep (w :: w_sleep st)
                 (set_w_all (w :: w_all st) (set_w_free rest st))).
Proof.
  intros Hwatch Hspin Hsleep Hfind Hfree Hw. unfold enroll.
  apply Z.eqb_neq in Hwatch. rewrite Hwatch, Hspin, Hfind. simpl.
  unfold witness_get. rewrite Hfree, Hsleep.
  set (st1 := set_wit w zero_witness (set_w_free rest st)).
  assert (Hw1 : (w < length (w_data st1))%nat).
  { unfold st1, set_wit. simpl. by rewrite length_insert. }
  assert (Hz : wit st1 w = zero_witness).
  { unfold st1. by rewrite wit_set_wit_eq. }
  rewrite Hz. simpl.
  eexists. split; [done|].
  change (wit (set_w_sleep ?a (set_w_all ?b ?s))) with (wit s).
  split; [|split; [|split]].
  - by rewrite wit_set_wit_eq.
  - intros x Hx. rewrite wit_set_wit_ne by done.
    unfold st1. by rewrite wit_set_wit_ne.
  - simpl. by rewrite !length_insert.
  - done.
Qed.

(** X12: a lock with a name that no witness carries costs a witness for
    good.  In a reachable state that is neither cold nor dead, the
    initialization of a watched lock of a sleep class under a new name
    takes the head of the free list as its witness; the destruction of the
    lock then drops the one reference, renames the witness and its site
    to "(dead)" and leaves it in [w_all]: the slot does not go back to the
    free list and the name is unknown again.  The list and the count of
    the locks are as before, and the lock keeps its witness pointer and
    its [LO_INITIALIZED] bit. *)
Theorem X12_init_then_destroy_retires_a_witness
    lock class name flags st w rest :
  reachable st →
  witness_cold st = false → witness_dead st = false →
  lock ∉ all_locks st →
  LC_SLEEPLOCK (lc_flags class) = true →
  LC_SPINLOCK (lc_flags class) = false →
  LO_WITNESS flags = true → LO_INITIALIZED flags = false →
  LO_LOCKED flags = false →
  (LO_RECURSABLE flags = true → LC_RECURSABLE (lc_flags class) = true) →
  (LO_SLEEPABLE flags = true → LC_SLEEPABLE (lc_flags class) = true) →
  find_witness st name = None → name ≠ "(dead)" →
  w_free st = w :: rest →
  ∃ st1 st2,
    step (OpInit lock class name flags) st = Ok st1
    ∧ step (OpDestroy lock) st1 = Ok st2
    ∧ lo_witness (lock_at st1 lock) = Some w
    ∧ wit st1 w = Witness name class [] None 0 0 1 false false false
    ∧ find_witness st1 name = Some w
    ∧ wit st2 w
      = Witness "(dead)" class [] (Some "(dead)") 0 0 0 false false false
    ∧ (∀ x, x ≠ w → wit st2 x = wit st x)
    ∧ w_free st2 = rest ∧ w_all st2 = w :: w_all st
    ∧ find_witness st2 name = None
    ∧ all_locks st2 = all_locks st ∧ lock_cur_cnt st2 = lock_cur_cnt st
    ∧ lo_witness (lock_at st2 lock) = Some w
    ∧ lo_flags (lock_at st2 lock)
      = ObjectFlags true false false false false false.
Proof.
  intros Hr Hcold Hdead Hnew Hsleep Hspin Hwit Hinit Hlocked Hrec Hslp
    Hfind Hname Hfree.
  pose proof (reachable_wf _ _ _ _ Hr) as Hwf.
  pose proof (wf_registry _ Hwf) as Hreg.
  destruct (reachable_enabled _ _ _ _ Hr) as [Hwatch _].
  assert (Hw : (w < length (w_data st))%nat).
  { rewrite (reg_length _ Hreg). apply (reg_valid _ Hreg).
    rewrite Hfree. apply elem_of_app. left. by constructor. }
  unfold step. rewrite bool_decide_eq_false_2 by done.
  set (obj := LockObject class name None 0 flags None).
  unfold witness_init. rewrite lock_at_set_lock.
  change (lo_flags obj) with flags. change (lo_class obj) with class.
  rewrite Hinit.
  assert (Hr' : LO_RECURSABLE flags && negb (LC_RECURSABLE (lc_flags class))
                = false).
  { destruct (LO_RECURSABLE flags); [|done]. by rewrite Hrec. }
  assert (Hs' : LO_SLEEPABLE flags && negb (LC_SLEEPABLE (lc_flags class))
                = false).
  { destruct (LO_SLEEPABLE flags); [|done]. by rewrite Hslp. }
  rewrite Hr', Hs'. cbv zeta.
  set (l1 := lock_with_flags _ obj).
  set (sa := set_all_locks _ _ _ (set_lock lock l1 (set_lock lock obj st))).
  change (witness_cold sa) with (witness_cold st).
  change (witness_dead sa) with (witness_dead st).
  rewrite Hcold, Hdead, Hwit. simpl negb. simpl andb. cbv iota.
  change (lo_name l1) with name.
  destruct (enroll_fresh name class sa w rest)
    as (sb & Henr & Hwb & Hob & Hlen & Hsb); try done.
  rewrite Henr. simpl.
  assert (Hlb : lock_at sb lock = l1).
  { rewrite Hsb. unfold lock_at. simpl. by rewrite lookup_insert_eq. }
  rewrite Hlb.
  set (st1 := set_lock lock (lock_with_witness (Some w) l1) sb).
  exists st1.
  assert (Hl1 : lock_at st1 lock = lock_with_witness (Some w) l1)
    by apply lock_at_set_lock.
  assert (Hw1 : wit st1 w
            = Witness name class [] None 0 0 1 false false false) by done.
  unfold witness_destroy. rewrite Hl1.
  change (witness_cold st1) with (witness_cold sb).
  assert (Hcb : witness_cold sb = false) by by rewrite Hsb.
  rewrite Hcb. simpl lo_flags. simpl LO_INITIALIZED. simpl negb.
  simpl LO_LOCKED. rewrite Hlocked. simpl lo_witness. cbv iota.
  rewrite Hw1. simpl w_refcount. change (u_int (1 - 1)) with 0.
  simpl (0 =? 0). cbv iota. cbv zeta.
  set (st2 := set_lock lock _ _).
  exists st2. split; [done|]. split; [done|].
  split; [done|]. split; [done|].
  assert (Hwlen : (w < length (w_data st1))%nat).
  { change (w_data st1) with (w_data sb). by rewrite Hlen. }
  assert (Hw2 : wit st2 w
            = Witness "(dead)" class [] (Some "(dead)") 0 0 0
                false false false).
  { unfold st2.
    change (wit (set_lock ?l ?v (set_all_locks ?a ?b ?c ?s))) with (wit s).
    by rewrite wit_set_wit_eq. }
  assert (Hoth : ∀ x, x ≠ w → wit st2 x = wit st x).
  { intros x Hx. unfold st2.
    change (wit (set_lock ?l ?v (set_all_locks ?a ?b ?c ?s))) with (wit s).
    rewrite wit_set_wit_ne by done. change (wit st1 x) with (wit sb x).
    by rewrite Hob. }
  assert (Hall : w_all st2 = w :: w_all st).
  { change (w_all st2) with (w_all sb). by rewrite Hsb. }
  split; [|split; [done|split; [done|split; [|split; [done|]]]]].
  - unfold find_witness. change (w_all st1) with (w_all sb).
    rewrite Hsb. simpl. change (wit st1) with (wit sb). rewrite Hwb. simpl.
    by rewrite String.eqb_refl.
  - change (w_free st2) with (w_free sb). by rewrite Hsb.
  - split; [|split; [|split; [|split]]].
    + apply find_witness_None. rewrite Hall.
      intros x [->|Hx]%elem_of_cons.
      * rewrite Hw2. simpl. congruence.
      * assert (Hxw : x ≠ w).
        { intros ->. pose proof (reg_nodup _ Hreg) as Hnd.
          rewrite Hfree in Hnd. simpl in Hnd.
          apply NoDup_cons in Hnd as [Hnd _]. apply Hnd.
          apply elem_of_app. by right. }
        rewrite Hoth by done. intros Hn.
        unfold find_witness in Hfind.
        pose proof (find_none _ _ Hfind x
                      (proj1 (list_elem_of_In _ _) Hx)) as Hf.
        cbv beta in Hf. by rewrite Hn, String.eqb_refl in Hf.
    + change (all_locks st2)
        with (filter (λ x, x ≠ lock) (all_locks sb)).
      rewrite Hsb.
      change (all_locks (set_w_data ?d (set_w_sleep ?a (set_w_all ?b
                (set_w_free ?c sa)))))
        with (all_locks st ++ [lock]).
      rewrite filter_app, filter_cons_False by tauto.
      rewrite filter_nil, app_nil_r.
      by apply filter_other_id.
    + change (lock_cur_cnt st2) with (lock_cur_cnt sb - 1).
      rewrite Hsb.
      change (lock_cur_cnt (set_w_data ?d (set_w_sleep ?a (set_w_all ?b
                (set_w_free ?c sa)))))
        with (lock_cur_cnt st + 1).
      lia.
    + unfold st2. by rewrite lock_at_set_lock.
    + unfold st2. by rewrite lock_at_set_lock.
Qed.

End Extras.

(** * The levels of the order graph *)

Section Levels.

Variable MAXCPU : nat.
Variable LOCK_NCHILDREN : nat.
Variable blessed_list : list (string * string).

Local Abbreviation reachable := (reachable MAXCPU LOCK_NCHILDREN blessed_list).
Local Abbreviation lev := (λ (s : state) (x : nat), w_level (wit s x)).

Local Ltac lev_lia := cbv beta in *; lia.

(** ** States that differ in levels *)

Lemma relevelled_refl st : relevelled st st.
Proof.
  split; [by destruct st|]. split; [done|].
  intros x. by destruct (wit st x).
Qed.

Lemma relevelled_trans s1 s2 s3 :
  relevelled s1 s2 → relevelled s2 s3 → relevelled s1 s3.
Proof.
  intros (E1 & L1 & K1) (E2 & L2 & K2). split; [|split].
  - rewrite E2. rewrite E1. done.
  - congruence.
  - intros x. etrans; [apply K2|]. by rewrite (K1 x).
Qed.

Lemma relevelled_set_wit w n st :
  relevelled st (set_wit w (with_level n (wit st w)) st).
Proof.
  split; [done|]. split; [apply length_insert|].
  intros x. destruct (decide (w = x)) as [<-|Hne].
  - destruct (decide (w < length (w_data st))%nat).
    + by rewrite wit_set_wit_eq.
    + rewrite wit_set_wit_ge by lia. by destruct (wit st w).
  - rewrite wit_set_wit_ne by done. by destruct (wit st x).
Qed.

Lemma relevelled_relabel st st' : relevelled st st' → relabel st st'.
Proof.
  intros (E & L & K). split; [done|]. split; [done|].
  intros x. rewrite (K x). by repeat split.
Qed.

Lemma relevelled_kids st st' :
  relevelled st st' → ∀ x, kids st' x = kids st x.
Proof. intros H. by apply relabel_kids, relevelled_relabel. Qed.

Lemma relevelled_lists st st' :
  relevelled st st' →
  w_all st' = w_all st ∧ w_sleep st' = w_sleep st ∧ w_spin st' = w_spin st.
Proof. intros (E & _). by rewrite E. Qed.

(** ** Loops that come back *)

Lemma for_each_total {A} (I : state → Prop) (R : relation state)
    (Q : A → state → Prop) (body : A → state → outcome state) l :
  (∀ st, R st st) → (∀ s1 s2 s3, R s1 s2 → R s2 s3 → R s1 s3) →
  (∀ x st, x ∈ l → I st →
           ∃ st', body x st = Ok st' ∧ I st' ∧ R st st' ∧ Q x st') →
  (∀ x st st', R st st' → Q x st → Q x st') →
  ∀ st, I st →
    ∃ st', for_each l body st = Ok st' ∧ I st' ∧ R st st'
           ∧ ∀ x, x ∈ l → Q x st'.
Proof.
  intros Hrefl Htrans Hbody Hkeep.
  induction l as [|x l IH]; intros st HI; simpl.
  - exists st. split; [done|]. split; [done|]. split; [done|].
    intros x Hx. by apply not_elem_of_nil in Hx.
  - destruct (Hbody x st) as (s & Hs & HI1 & HR1 & HQ1); [by left | done |].
    rewrite Hs. simpl.
    destruct IH with (st := s) as (st' & Hrun & HI2 & HR2 & HQ2); [|done|].
    { intros y s0 Hy. apply Hbody. by right. }
    exists st'. split; [done|]. split; [done|].
    split; [by eapply Htrans|].
    intros y [->|Hy]%elem_of_cons; [by eapply Hkeep | by apply HQ2].
Qed.

(** ** One descent *)

Section Descent.

Variable s0 : state.
Hypothesis s0_registry : registry_ok s0.
Hypothesis s0_graph : graph_ok s0.

Lemma witness_leveldescendents_rec_spec d p l s :
  relevelled s0 s → height_ok (kids s0) d p →
  (p < length (w_data s0))%nat →
  ∃ s', witness_leveldescendents_rec d p l s = Ok s'
        ∧ relevelled s s'
        ∧ (∀ x, lev s x ≤ lev s' x)
        ∧ (∀ x n, nsteps (edge s0) n p x → l + Z.of_nat n ≤ lev s' x)
        ∧ (∀ x, lev s' x = lev s x
                ∨ ∃ n, nsteps (edge s0) n p x ∧ lev s' x = l + Z.of_nat n).
Proof.
  revert p l s. induction d as [|d IH]; intros p l s Hrel Hh Hp; [done|].
  simpl.
  set (s1 := if w_level (wit s p) <? l
             then set_wit p (with_level l (wit s p)) s else s).
  assert (Hlen : length (w_data s) = length (w_data s0)) by apply Hrel.
  assert (Hrel1 : relevelled s s1).
  { unfold s1. destruct (_ <? _); [apply relevelled_set_wit|].
    apply relevelled_refl. }
  assert (Hp1 : l ≤ lev s1 p).
  { unfold s1. destruct (Z.ltb_spec (w_level (wit s p)) l); [|done].
    rewrite wit_set_wit_eq by lia. done. }
  assert (Hmono1 : ∀ x, lev s x ≤ lev s1 x).
  { intros x. unfold s1. destruct (Z.ltb_spec (w_level (wit s p)) l); [|done].
    destruct (decide (p = x)) as [<-|Hne].
    - rewrite wit_set_wit_eq by lia. simpl. lev_lia.
    - by rewrite wit_set_wit_ne. }
  assert (Hwhich1 : ∀ x, lev s1 x = lev s x ∨ (x = p ∧ lev s1 x = l)).
  { intros x. unfold s1. destruct (Z.ltb_spec (w_level (wit s p)) l); [|by left].
    destruct (decide (p = x)) as [<-|Hne].
    - right. by rewrite wit_set_wit_eq by lev_lia.
    - left. by rewrite wit_set_wit_ne. }
  clearbody s1.
  assert (Hkids : concat (w_children (wit s p)) = kids s0 p).
  { by rewrite <- (relevelled_kids s0 s Hrel p). }
  rewrite Hkids.
  destruct (for_each_total
              (λ a, relevelled s0 a)
              (λ a b, relevelled a b
                 ∧ (∀ x, lev a x ≤ lev b x)
                 ∧ (∀ x, lev b x = lev a x
                         ∨ ∃ c n, c ∈ kids s0 p ∧ nsteps (edge s0) n c x
                                  ∧ lev b x = l + 1 + Z.of_nat n))
              (λ c a, ∀ x n, nsteps (edge s0) n c x →
                             l + 1 + Z.of_nat n ≤ lev a x)
              (λ c, witness_leveldescendents_rec d c (l + 1))
              (kids s0 p)) with (st := s1)
    as (s' & Hrun & _ & (Hrel' & Hmono' & Hwhich') & Hlow').
  - intros a. split; [apply relevelled_refl|]. split; [done | by left].
  - intros a b c (R1 & M1 & W1) (R2 & M2 & W2).
    split; [by eapply relevelled_trans|]. split.
    + intros x. specialize (M1 x). specialize (M2 x). lev_lia.
    + intros x. destruct (W2 x) as [->|W]; [apply W1 | by right].
  - intros c a Hc Ha.
    destruct (IH c (l + 1) a) as (a' & Hrun & Hrel' & Hmono' & Hlow' & Hwhich');
      [done | by apply Hh | |].
    { rewrite (reg_length _ s0_registry).
      by apply (edge_valid s0 p c). }
    exists a'. split; [done|]. split; [by eapply relevelled_trans|].
    split; [|done]. split; [done|]. split; [done|].
    intros x. destruct (Hwhich' x) as [->|(n & Hn & ->)]; [by left|].
    right. by exists c, n.
  - intros c a b (_ & M & _) HQ x n Hn.
    specialize (HQ x n Hn). specialize (M x). lev_lia.
  - by eapply relevelled_trans.
  - exists s'. split; [done|]. split; [by eapply relevelled_trans|].
    split; [|split].
    + intros x. specialize (Hmono1 x). specialize (Hmono' x). lev_lia.
    + intros x n Hn. inversion Hn as [|m ? c ? Hpc Hcx]; subst.
      * cbv beta in *.
        match goal with |- _ ≤ w_level (wit _ ?y) => specialize (Hmono' y) end.
        lia.
      * specialize (Hlow' c Hpc x m Hcx). lev_lia.
    + intros x. destruct (Hwhich' x) as [->|(c & n & Hc & Hn & ->)].
      * destruct (Hwhich1 x) as [->|[-> ->]]; [by left|].
        right. exists O. split; [constructor | lev_lia].
      * right. exists (S n). split; [by eapply nsteps_l | lev_lia].
Qed.

End Descent.

(** ** The first loop of [witness_levelall] *)

Lemma clear_levels_spec l s :
  let s1 := foldl (λ s w, set_wit w (with_level 0 (wit s w)) s) s l in
  relevelled s s1
  ∧ ∀ x, (x < length (w_data s))%nat →
         lev s1 x = if decide (x ∈ l) then 0 else lev s x.
Proof.
  revert s. induction l as [|w l IH]; intros s; simpl.
  - split; [apply relevelled_refl|]. intros x _.
    destruct (decide (x ∈ [])) as [H|_]; [|done].
    by apply not_elem_of_nil in H.
  - set (s' := set_wit w (with_level 0 (wit s w)) s).
    destruct (IH s') as [Hrel Hlev].
    assert (Hrel' : relevelled s s') by apply relevelled_set_wit.
    split; [by eapply relevelled_trans|].
    intros x Hx. rewrite Hlev.
    2: { destruct Hrel' as (_ & -> & _). done. }
    destruct (decide (x ∈ l)) as [Hin|Hin].
    + rewrite decide_True; [done | by right].
    + destruct (decide (x = w)) as [->|Hne].
      * rewrite decide_True by by left.
        unfold s'. by rewrite wit_set_wit_eq.
      * rewrite decide_False.
        -- unfold s'. by rewrite wit_set_wit_ne.
        -- by intros [->|H]%elem_of_cons.
Qed.

(** ** The witnesses without parents *)

Lemma parent_in_type_list st p w :
  registry_ok st → graph_ok st → edge st p w →
  p ∈ (if LC_SLEEPLOCK (lc_flags (w_class (wit st w)))
       then w_sleep st else w_spin st)
  ∧ p ∈ w_all st ∧ w ∈ w_all st.
Proof.
  intros Hreg Hg He.
  destruct (gr_edges _ Hg _ _ He) as [[Hp Hw]|[Hp Hw]].
  - rewrite (reg_sleep _ Hreg _ Hw).
    split; [done|]. split; apply (reg_typelists _ Hreg); by left.
  - rewrite (reg_spin _ Hreg _ Hw).
    split; [done|]. split; apply (reg_typelists _ Hreg); by right.
Qed.

Lemma root_test st s w :
  registry_ok st → graph_ok st → relevelled st s →
  existsb (λ w1, isitmychild s w1 w)
    (if LC_SLEEPLOCK (lc_flags (w_class (wit s w)))
     then w_sleep s else w_spin s) = false
  ↔ parentless st w.
Proof.
  intros Hreg Hg Hrel.
  pose proof (relevelled_kids _ _ Hrel) as Hk.
  destruct (relevelled_lists _ _ Hrel) as (_ & -> & ->).
  assert (Hcl : w_class (wit s w) = w_class (wit st w)).
  { destruct Hrel as (_ & _ & K). by rewrite (K w). }
  rewrite Hcl. split.
  - intros Hex p He.
    destruct (parent_in_type_list st p w Hreg Hg He) as (Hp & _).
    assert (Ht : existsb (λ w1, isitmychild s w1 w)
              (if LC_SLEEPLOCK (lc_flags (w_class (wit st w)))
               then w_sleep st else w_spin st) = true).
    { apply existsb_exists. exists p. split; [by apply list_elem_of_In|].
      apply isitmychild_spec. by apply (edge_same_kids st s). }
    congruence.
  - intros Hroot. destruct (existsb _ _) eqn:Hex; [|done].
    apply existsb_exists in Hex as (p & _ & Hp).
    apply isitmychild_spec, (edge_same_kids st s) in Hp; [|done].
    by destruct (Hroot p).
Qed.

Lemma tc_parents st x y :
  tc (λ a b, b ∈ parents st a) x y → tc (edge st) y x.
Proof.
  induction 1 as [a b Hab|a b c Hab _ IH].
  - apply tc_once. unfold parents in Hab.
    by apply list_elem_of_filter in Hab as [Hab _].
  - eapply tc_r; [exact IH|]. unfold parents in Hab.
    by apply list_elem_of_filter in Hab as [Hab _].
Qed.

Lemma parents_nil_parentless st x :
  registry_ok st → graph_ok st → parents st x = [] → parentless st x.
Proof.
  intros Hreg Hg Hps p He.
  assert (Hin : p ∈ parents st x).
  { unfold parents. apply list_elem_of_filter. split; [done|].
    apply elem_of_seq. destruct (edge_valid st p x Hreg Hg He). lia. }
  rewrite Hps in Hin. by apply not_elem_of_nil in Hin.
Qed.

Lemma root_ancestor st x :
  registry_ok st → graph_ok st → x ∈ w_all st →
  ∃ r n, r ∈ w_all st ∧ parentless st r ∧ nsteps (edge st) n r x.
Proof.
  intros Hreg Hg Hx.
  assert (Hh : height_ok (parents st) WITNESS_COUNT x).
  { apply acyclic_height_ok; [| |unfold WITNESS_COUNT; lia].
    - intros a p Hp. unfold parents in Hp.
      apply list_elem_of_filter in Hp as [Hp _].
      destruct (edge_valid st p a Hreg Hg Hp). done.
    - intros a Ha%tc_parents. by apply (gr_acyclic _ Hg a). }
  revert Hx Hh. generalize WITNESS_COUNT at 1. intros n. revert x.
  induction n as [|n IH]; intros x Hx Hh; [done|].
  destruct (parents st x) as [|p l] eqn:Hps.
  - exists x, O. split; [done|]. split; [|constructor].
    by apply parents_nil_parentless.
  - assert (Hin : p ∈ parents st x) by (rewrite Hps; by left).
    pose proof Hin as He. unfold parents in He.
    apply list_elem_of_filter in He as [He _].
    destruct (parent_in_type_list st p x Hreg Hg He) as (_ & Hp & _).
    destruct (IH p Hp) as (r & m & Hr & Hroot & Hsteps).
    { simpl in Hh. by apply Hh. }
    exists r, (S m). split; [done|]. split; [done|].
    by eapply nsteps_r.
Qed.

Lemma nsteps_start_in_all st n r x :
  registry_ok st → graph_ok st → x ∈ w_all st →
  nsteps (edge st) n r x → r ∈ w_all st.
Proof.
  intros Hreg Hg Hx Hn. inversion Hn as [|m ? c ? He _]; subst; [done|].
  by destruct (parent_in_type_list st r c Hreg Hg He) as (_ & H & _).
Qed.

(** ** [witness_levelall] *)

Lemma witness_levelall_spec st :
  registry_ok st → graph_ok st →
  ∃ st', witness_levelall st = Ok st'
    ∧ relevelled st st'
    ∧ (∀ x, x ∉ w_all st → lev st' x = lev st x)
    ∧ (∀ x r n, x ∈ w_all st → parentless st r →
                nsteps (edge st) n r x → Z.of_nat n ≤ lev st' x)
    ∧ (∀ x, x ∈ w_all st →
            ∃ r n, r ∈ w_all st ∧ parentless st r
                   ∧ nsteps (edge st) n r x ∧ lev st' x = Z.of_nat n).
Proof.
  intros Hreg Hg. unfold witness_levelall.
  destruct (clear_levels_spec (w_all st) st) as [Hrel1 Hlev1].
  set (s1 := foldl _ st (w_all st)) in *. clearbody s1.
  destruct (for_each_total
              (λ a, relevelled st a)
              (λ a b, (∀ x, lev a x ≤ lev b x)
                 ∧ (∀ x, lev b x = lev a x
                         ∨ ∃ r n, r ∈ w_all st ∧ parentless st r
                                  ∧ nsteps (edge st) n r x
                                  ∧ lev b x = Z.of_nat n))
              (λ r a, parentless st r →
                      ∀ x n, nsteps (edge st) n r x → Z.of_nat n ≤ lev a x)
              (λ w s,
                 let list :=
                   if LC_SLEEPLOCK (lc_flags (w_class (wit s w)))
                   then w_sleep s else w_spin s in
                 if existsb (λ w1, isitmychild s w1 w) list then Ok s
                 else witness_leveldescendents w 0 s)
              (w_all st)) with (st := s1)
    as (st' & Hrun & Hrel' & (Hmono & Hwhich) & Hlow).
  - intros a. split; [done | by left].
  - intros a b c (M1 & W1) (M2 & W2). split.
    + intros x. specialize (M1 x). specialize (M2 x). lev_lia.
    + intros x. destruct (W2 x) as [->|W]; [apply W1 | by right].
  - intros w a Hw Ha. cbv zeta.
    destruct (existsb _ _) eqn:Hex.
    + exists a. split; [done|]. split; [done|].
      split; [split; [done | by left]|].
      intros Hroot. apply (root_test st a w Hreg Hg Ha) in Hroot. congruence.
    + apply (root_test st a w Hreg Hg Ha) in Hex.
      destruct (witness_leveldescendents_rec_spec st Hreg Hg
                  WITNESS_COUNT w 0 a)
        as (a' & Hrun & Hrel' & Hmono & Hlow & Hwhich); [done | |  |].
      { apply acyclic_height_ok;
          [| apply (gr_acyclic _ Hg) | unfold WITNESS_COUNT; lia].
        intros x c Hc. by apply (edge_valid st). }
      { by apply w_all_in_range. }
      exists a'. split; [done|]. split; [by eapply relevelled_trans|].
      split; [split; [done|]|].
      * intros x. destruct (Hwhich x) as [->|(n & Hn & ->)]; [by left|].
        right. exists w, n. split; [done|]. split; [done|].
        split; [done | lia].
      * intros _ x n Hn. specialize (Hlow x n Hn). lev_lia.
  - intros r a b (M & _) HQ Hroot x n Hn.
    specialize (HQ Hroot x n Hn). specialize (M x). lev_lia.
  - done.
  - exists st'. split; [done|]. split; [done|].
    assert (Hzero : ∀ x, x ∈ w_all st → lev s1 x = 0).
    { intros x Hx. rewrite Hlev1 by by apply w_all_in_range.
      by rewrite decide_True. }
    assert (Hlower : ∀ x r n, x ∈ w_all st → parentless st r →
              nsteps (edge st) n r x → Z.of_nat n ≤ lev st' x).
    { intros x r n Hx Hroot Hn. apply (Hlow r); [|done|done].
      by eapply nsteps_start_in_all. }
    split; [|split; [done|]].
    + intros x Hx. destruct (Hwhich x) as [->|(r & n & Hr & _ & Hn & _)].
      * destruct (decide (x < length (w_data st))%nat) as [Hlt|Hge].
        -- rewrite Hlev1 by done. by rewrite decide_False.
        -- destruct Hrel1 as (_ & Hl & K). unfold wit.
           rewrite !list_lookup_total_alt, !lookup_ge_None_2 by lia. done.
      * exfalso. destruct n as [|n].
        -- inversion Hn; by subst.
        -- apply nsteps_inv_r in Hn as (y & _ & He).
           by destruct (parent_in_type_list st y x Hreg Hg He) as (_ & _ & H).
    + intros x Hx. destruct (Hwhich x) as [Heq|(r & n & Hr & Hroot & Hn & Hl)].
      * rewrite (Hzero x Hx) in Heq.
        destruct (root_ancestor st x Hreg Hg Hx) as (r & n & Hr & Hroot & Hn).
        exists r, n. split; [done|]. split; [done|]. split; [done|].
        pose proof (Hlower x r n Hx Hroot Hn) as Hle.
        pose proof (Hmono x) as Hm. rewrite (Hzero x Hx) in Hm. lev_lia.
      * by exists r, n.
Qed.

(** X10: in every reachable state [witness_levelall] comes back and
    changes nothing but levels; afterwards the level of every witness of
    [w_all] is the number of links of the longest chain that leads to it
    from a witness without parents. So a witness without parents has level
    0 and every child has a higher level than each of its parents. *)
Theorem X10_levelall_levels_are_longest_chains st :
  reachable st →
  ∃ st', witness_levelall st = Ok st'
    ∧ relevelled st st'
    ∧ (∀ x, x ∈ w_all st →
         (∀ r n, parentless st r → nsteps (edge st) n r x →
                 Z.of_nat n ≤ w_level (wit st' x))
         ∧ ∃ r n, parentless st r ∧ nsteps (edge st) n r x
                  ∧ w_level (wit st' x) = Z.of_nat n)
    ∧ (∀ x, x ∈ w_all st → parentless st x → w_level (wit st' x) = 0)
    ∧ (∀ p c, edge st p c → w_level (wit st' p) < w_level (wit st' c)).
Proof.
  intros Hwf%reachable_wf.
  pose proof (wf_registry _ Hwf) as Hreg. pose proof (wf_graph _ Hwf) as Hg.
  destruct (witness_levelall_spec st Hreg Hg)
    as (st' & Hrun & Hrel & _ & Hlow & Hex).
  exists st'. split; [done|]. split; [done|].
  split; [|split].
  - intros x Hx. split; [intros r n; by apply Hlow|].
    destruct (Hex x Hx) as (r & n & _ & Hroot & Hn & Hl). by exists r, n.
  - intros x Hx Hroot.
    destruct (Hex x Hx) as (r & n & _ & _ & Hn & Hl).
    destruct n as [|n]; [done|].
    apply nsteps_inv_r in Hn as (y & _ & He). by destruct (Hroot y).
  - intros p c He.
    destruct (parent_in_type_list st p c Hreg Hg He) as (_ & Hp & Hc).
    destruct (Hex p Hp) as (r & n & _ & Hroot & Hn & Hl).
    assert (Hn' : nsteps (edge st) (S n) r c) by by eapply nsteps_r.
    pose proof (Hlow c r (S n) Hc Hroot Hn'). lev_lia.
Qed.

(** ** The display *)

Lemma display_each_spec {A} (l : list A)
    (body : A → outcome (list display_event)) :
  (∀ x, x ∈ l → ∃ out, body x = Ok out) →
  ∃ out, display_each l body = Ok out
         ∧ ∀ e, e ∈ out ↔ ∃ x outx, x ∈ l ∧ body x = Ok outx ∧ e ∈ outx.
Proof.
  induction l as [|x l IH]; intros Hbody; simpl.
  - exists []. split; [done|]. intros e. split.
    + intros H. by apply not_elem_of_nil in H.
    + intros (x & _ & H & _). by apply not_elem_of_nil in H.
  - destruct (Hbody x) as (outx & Hx); [by left|].
    destruct IH as (rest & Hrest & Hin).
    { intros y Hy. apply Hbody. by right. }
    rewrite Hx. simpl. rewrite Hrest. simpl.
    exists (outx ++ rest). split; [done|].
    intros e. rewrite elem_of_app, Hin. split.
    + intros [He|(y & outy & Hy & Hby & He)].
      * exists x, outx. split; [by left | done].
      * exists y, outy. split; [by right | done].
    + intros (y & outy & [->|Hy]%elem_of_cons & Hby & He).
      * left. congruence.
      * right. by exists y, outy.
Qed.

Lemma witness_displaydescendants_rec_spec st d p :
  height_ok (kids st) d p →
  ∃ rest, witness_displaydescendants_rec d st p
          = Ok (display_line st p :: rest)
    ∧ ∀ e, e ∈ display_line st p :: rest
           ↔ ∃ x, rtc (edge st) p x ∧ e = display_line st x.
Proof.
  revert p. induction d as [|d IH]; intros p Hh; [done|]. simpl.
  destruct (display_each_spec (concat (w_children (wit st p)))
              (witness_displaydescendants_rec d st))
    as (rest & -> & Hin).
  { intros c Hc. destruct (IH c) as (r & Hr & _); [by apply Hh|].
    by eexists. }
  simpl. exists rest. split; [done|].
  intros e. rewrite elem_of_cons, Hin. split.
  - intros [->|(c & outc & Hc & Hrun & He)].
    + by exists p.
    + destruct (IH c) as (r & Hr & Hreach); [by apply Hh|].
      rewrite Hr in Hrun. injection Hrun as <-.
      apply Hreach in He as (x & Hx & ->).
      exists x. split; [|done]. by eapply rtc_l.
  - intros (x & Hx & ->).
    apply rtc_inv in Hx as [->|(c & Hc & Hx)]; [by left|].
    right. destruct (IH c) as (r & Hr & Hreach); [by apply Hh|].
    exists c, (display_line st c :: r). split; [done|]. split; [done|].
    apply Hreach. by exists x.
Qed.

Lemma witness_display_list_spec st (sleep : bool) :
  registry_ok st → graph_ok st →
  let list := if sleep then w_sleep st else w_spin st in
  ∃ out, witness_display_list st list = Ok out
    ∧ ∀ e, e ∈ out
           ↔ ∃ r x, r ∈ list ∧ w_file (wit st r) ≠ None
                    ∧ parentless st r ∧ rtc (edge st) r x
                    ∧ e = display_line st x.
Proof.
  intros Hreg Hg list.
  assert (Hlist : ∀ w, w ∈ list →
            (if LC_SLEEPLOCK (lc_flags (w_class (wit st w)))
             then w_sleep st else w_spin st) = list).
  { intros w Hw. unfold list in *. destruct sleep.
    - by rewrite (reg_sleep _ Hreg _ Hw).
    - by rewrite (reg_spin _ Hreg _ Hw). }
  assert (Hroot : ∀ w, w ∈ list →
            existsb (λ w1, isitmychild st w1 w) list = false
            ↔ parentless st w).
  { intros w Hw.
    pose proof (root_test st st w Hreg Hg (relevelled_refl st)) as H.
    by rewrite (Hlist w Hw) in H. }
  assert (Hdesc : ∀ w, w ∈ list →
            ∃ rest, witness_displaydescendants st w
                    = Ok (display_line st w :: rest)
              ∧ ∀ e, e ∈ display_line st w :: rest
                     ↔ ∃ x, rtc (edge st) w x ∧ e = display_line st x).
  { intros w Hw. apply witness_displaydescendants_rec_spec.
    apply acyclic_height_ok;
      [| apply (gr_acyclic _ Hg) | unfold WITNESS_COUNT; lia].
    intros x c Hc. by apply (edge_valid st). }
  unfold witness_display_list.
  destruct (display_each_spec list
              (λ w, match w_file (wit st w) with
                    | None => Ok []
                    | Some _ =>
                        if existsb (λ w1, isitmychild st w1 w) list
                        then Ok []
                        else witness_displaydescendants st w
                    end))
    as (out & -> & Hin).
  { intros w Hw. destruct (w_file (wit st w)); [|by eexists].
    destruct (existsb _ _); [by eexists|].
    destruct (Hdesc w Hw) as (rest & -> & _). by eexists. }
  exists out. split; [done|]. intros e. rewrite Hin. split.
  - intros (w & outw & Hw & Hrun & He).
    destruct (w_file (wit st w)) as [f|] eqn:Hf.
    2: { injection Hrun as <-. by apply not_elem_of_nil in He. }
    destruct (existsb _ _) eqn:Hex.
    { injection Hrun as <-. by apply not_elem_of_nil in He. }
    apply (Hroot w Hw) in Hex.
    destruct (Hdesc w Hw) as (rest & Hr & Hreach).
    rewrite Hr in Hrun. injection Hrun as <-.
    apply Hreach in He as (x & Hx & ->).
    exists w, x. split; [done|]. split; [by rewrite Hf|]. done.
  - intros (r & x & Hr & Hf & Hp & Hx & ->).
    destruct (Hdesc r Hr) as (rest & Hrun & Hreach).
    exists r, (display_line st r :: rest). split; [done|]. split.
    + destruct (w_file (wit st r)); [|done].
      apply (Hroot r Hr) in Hp. by rewrite Hp.
    + apply Hreach. by exists x.
Qed.

Lemma rtc_same_kids st st' :
  (∀ x, kids st' x = kids st x) →
  ∀ x y, rtc (edge st') x y ↔ rtc (edge st) x y.
Proof.
  intros Hk x y. split; induction 1 as [|a b c Hab _ IH]; try done.
  - eapply rtc_l; [|exact IH]. by apply (edge_same_kids st st').
  - eapply rtc_l; [|exact IH]. by apply (edge_same_kids st st').
Qed.

(** X11: in every reachable state [witness_display] comes back, with the
    levels of [witness_levelall]. Under each heading of a list it prints
    the lines of exactly the witnesses that are reached, by any number of
    links, from a witness of that list that has a site and no parent, so
    that a witness below parents that were never acquired is not shown
    there; under the last heading it prints the names of the witnesses
    without a site, in the order of [w_all]. *)
Theorem X11_display_shows_what_acquired_roots_reach st :
  reachable st →
  ∃ st' sleep spin,
    witness_levelall st = Ok st'
    ∧ witness_display st
      = Ok (DisplaySleepLocks :: sleep
            ++ DisplaySpinLocks :: spin
            ++ DisplayNeverAcquired
               :: map (λ w, DisplayName (w_name (wit st w)))
                    (filter (λ w, w_file (wit st w) = None) (w_all st)),
            st')
    ∧ (∀ e, e ∈ sleep
            ↔ ∃ r x, r ∈ w_sleep st ∧ w_file (wit st r) ≠ None
                     ∧ parentless st r ∧ rtc (edge st) r x
                     ∧ e = display_line st' x)
    ∧ (∀ e, e ∈ spin
            ↔ ∃ r x, r ∈ w_spin st ∧ w_file (wit st r) ≠ None
                     ∧ parentless st r ∧ rtc (edge st) r x
                     ∧ e = display_line st' x).
Proof.
  intros Hwf%reachable_wf.
  pose proof (wf_registry _ Hwf) as Hreg. pose proof (wf_graph _ Hwf) as Hg.
  destruct (witness_levelall_spec st Hreg Hg) as (st' & Hrun & Hrel & _).
  destruct (relabel_graph st st' Hreg Hg (relevelled_relabel _ _ Hrel))
    as [Hreg' Hg'].
  pose proof (relevelled_kids _ _ Hrel) as Hk.
  destruct (relevelled_lists _ _ Hrel) as (Hall & Hsl & Hsp).
  assert (Hsame : ∀ x, w_file (wit st' x) = w_file (wit st x)
                       ∧ w_name (wit st' x) = w_name (wit st x)).
  { intros x. destruct Hrel as (_ & _ & K). by rewrite (K x). }
  assert (Hroot : ∀ r, parentless st' r ↔ parentless st r).
  { intros r. unfold parentless. split; intros H p He; apply (H p);
      by apply (edge_same_kids st st'). }
  destruct (witness_display_list_spec st' true Hreg' Hg')
    as (sleep & Hsleep & Hin1).
  destruct (witness_display_list_spec st' false Hreg' Hg')
    as (spin & Hspin & Hin2).
  exists st', sleep, spin. split; [done|]. split; [|split].
  - unfold witness_display. rewrite Hrun. simpl.
    rewrite Hsleep. simpl. rewrite Hspin. simpl. rewrite Hall.
    assert (Hnever :
      map (λ w, DisplayName (w_name (wit st' w)))
        (filter (λ w, w_file (wit st' w) = None) (w_all st))
      = map (λ w, DisplayName (w_name (wit st w)))
          (filter (λ w, w_file (wit st w) = None) (w_all st))).
    { clear -Hsame. induction (w_all st) as [|w l IH]; [done|].
      rewrite !filter_cons. destruct (Hsame w) as [Hf Hn].
      destruct (decide (w_file (wit st' w) = None)) as [H1|H1];
        destruct (decide (w_file (wit st w) = None)) as [H2|H2];
        try congruence.
      simpl. by rewrite Hn, IH. }
    by rewrite Hnever.
  - intros e. rewrite Hin1, Hsl. split.
    + intros (r & x & Hr & Hf & Hp & Hx & ->). exists r, x.
      split; [done|]. split; [by rewrite <- (proj1 (Hsame r))|].
      split; [by apply Hroot|]. split; [by apply (rtc_same_kids st st')|].
      done.
    + intros (r & x & Hr & Hf & Hp & Hx & ->). exists r, x.
      split; [done|]. split; [by rewrite (proj1 (Hsame r))|].
      split; [by apply Hroot|]. split; [by apply (rtc_same_kids st st')|].
      done.
  - intros e. rewrite Hin2, Hsp. split.
    + intros (r & x & Hr & Hf & Hp & Hx & ->). exists r, x.
      split; [done|]. split; [by rewrite <- (proj1 (Hsame r))|].
      split; [by apply Hroot|]. split; [by apply (rtc_same_kids st st')|].
      done.
    + intros (r & x & Hr & Hf & Hp & Hx & ->). exists r, x.
      split; [done|]. split; [by rewrite (proj1 (Hsame r))|].
      split; [by apply Hroot|]. split; [by apply (rtc_same_kids st st')|].
      done.
Qed.

End Levels.

(** * The properties at concrete states *)

Ltac by_compute :=
  match goal with
  | |- ?P => apply (bool_decide_eq_true_1 P); vm_compute; reflexivity
  end.

Lemma cold_boot_boot_state : cold_boot boot_state.
Proof.
  split; done.
Qed.

Lemma reachable_booted : reachable 1 6 [] booted.
Proof.
  apply (reachable_boot 1 6 [] false false boot_state);
    [apply cold_boot_boot_state|].
  unfold booted.
  destruct (witness_initialize 1 false false boot_state) eqn:E;
    [reflexivity | | |]; vm_compute in E; discriminate.
Qed.

Lemma reachable_after ops : Forall op_ok ops → reachable 1 6 [] (after ops).
Proof.
  intros Hok. unfold after.
  destruct (run 1 6 [] ops booted) as [st| | |] eqn:E;
    try apply reachable_booted.
  exact (run_reachable 1 6 [] ops booted st reachable_booted Hok E).
Qed.

Lemma run_after ops :
  returns (λ _, True) (run 1 6 [] ops booted) →
  run 1 6 [] ops booted = Ok (after ops).
Proof. unfold after. by destruct (run 1 6 [] ops booted). Qed.

Lemma C1_order_graph_witness :
  acyclic c1_state ∧ reduced c1_state ∧ edge c1_state 186%nat 185%nat.
Proof.
  destruct (C1_order_graph_is_a_pruned_dag 1 6 [] c1_state)
    as (H1 & _ & H3 & _).
  - apply reachable_after. repeat constructor; intros _; by_compute.
  - split; [exact H1 | ]. split; [exact H3 | unfold edge; by_compute].
Defined.

Lemma C2_exhaustion_witness :
  witness_get boot_state
    = (None, print (EvExhausted "witness_get") (set_dead boot_state))
  ∧ witness_child_get boot_state
    = (false, print (EvExhausted "witness_child_get") (set_dead boot_state))
  ∧ witness_lock_list_get boot_state
    = (false,
       print (EvExhausted "witness_lock_list_get") (set_dead boot_state))
  ∧ witness_lock 1 6 [] 10 no_flags "a.c" 1 0 0 (set_dead c10_state)
    = Ok (set_dead c10_state)
  ∧ witness_unlock 10 no_flags "a.c" 1 0 0 (set_dead c10_state)
    = Ok (set_dead c10_state).
Proof.
  destruct (C2_exhaustion_sets_dead_and_dead_is_inert 1 6 [] boot_state)
    as (H1 & H2 & H3 & _).
  destruct (C2_exhaustion_sets_dead_and_dead_is_inert 1 6 []
              (set_dead c10_state)) as (_ & _ & _ & _ & H5).
  split; [apply H1; reflexivity|].
  split; [apply H2; reflexivity|].
  split; [apply H3; reflexivity|].
  apply (H5 eq_refl).
Defined.

(** C3 as stated fails: the release of the watched lock at address 10,
    which is not recursed and is on no list of held locks, returns and
    leaves the state as it was. *)
Lemma C3_counterexample :
  lo_witness (lock_at c3_state 10) = Some 186%nat
  ∧ LO_RECURSED (lo_flags (lock_at c3_state 10)) = false
  ∧ witness_cold c3_state = false ∧ witness_dead c3_state = false
  ∧ sleeplocks_of c3_state 0 = [] ∧ spinlocks_of c3_state 0 = []
  ∧ witness_unlock 10 no_flags "a.c" 1 0 0 c3_state = Ok c3_state.
Proof. vm_compute. repeat split. Qed.

Lemma C3_release_not_held_witness :
  witness_unlock 10 no_flags "a.c" 1 0 0 c3_state = Ok c3_state.
Proof.
  apply (C3_release_not_held_returns 10 no_flags "a.c" 1 0 0 c3_state
           186%nat).
  - vm_compute. reflexivity.
  - vm_compute. reflexivity.
  - by_compute.
  - intros _ _. vm_compute. reflexivity.
Defined.

(** C10 as stated fails: the list of process 0 holds the mutex at
    address 10, which is marked recursed, and its release returns with the
    entry still on the list. *)
Lemma C10_counterexample :
  reachable 1 6 [] c10_recursed_state
  ∧ let st := c10_recursed_state in
    sleeplocks_of st 0 = [[10%nat]] ∧ witness_dead st = false
    ∧ returns (λ st', sleeplocks_of st' 0 = [[10%nat]])
        (witness_unlock 10 no_flags "a.c" 3 0 0 st).
Proof.
  split.
  - apply reachable_after. repeat constructor; intros _; by_compute.
  - vm_compute. repeat split.
Qed.

Lemma C10_unlock_witness :
  ∃ pre lle post i st',
    witness_unlock 10 no_flags "a.c" 2 0 0 c10_state = Ok st'
    ∧ lock_list_of (lo_class (lock_at c10_state 10)) 0 0 c10_state
      = pre ++ (lle :: post)
    ∧ slot_of 10%nat lle = Some i
    ∧ concat (lock_list_of (lo_class (lock_at c10_state 10)) 0 0 st')
      = delete (length (concat pre) + i)%nat
          (concat (lock_list_of (lo_class (lock_at c10_state 10)) 0 0
                     c10_state)).
Proof.
  destruct (C10_unlock_removes_first_match 10 no_flags "a.c" 2 0 0 c10_state
              186%nat) as (pre & lle & post & i & st' & H).
  - vm_compute. reflexivity.
  - vm_compute. reflexivity.
  - vm_compute. reflexivity.
  - vm_compute. reflexivity.
  - vm_compute. reflexivity.
  - intros _ _. vm_compute. reflexivity.
  - by_compute.
  - exists pre, lle, post, i, st'. cbv zeta in H.
    destruct H as (H1 & H2 & _ & H4 & _ & H6 & _).
    split; [exact H1 | ]. split; [exact H2 | ]. split; [exact H4 | exact H6].
Defined.

(** C6 as stated fails: process 0 holds [Giant], which is not the lock
    passed in and is not sleepable, and [witness_sleep] returns 0. *)
Lemma C6_counterexample :
  witness_dead c6_Giant_state = false
  ∧ sleeplocks_of c6_Giant_state 0 = [[Giant]]
  ∧ LO_SLEEPABLE (lo_flags (lock_at c6_Giant_state Giant)) = false
  ∧ length (unsafe_held_with_Giant c6_Giant_state None
              (held_scan (sleeplocks_of c6_Giant_state 0)
               ++ held_scan (spinlocks_of c6_Giant_state 0))) = 1%nat
  ∧ (witness_sleep false None "s.c" 1 0 0 c6_Giant_state).1 = 0.
Proof. vm_compute. repeat split. Qed.

Lemma C6_sleep_witness :
  (witness_sleep false None "s.c" 1 0 0 c6_state).1
    = Z.of_nat (length (unsafe_held c6_state None
                          (held_scan (sleeplocks_of c6_state 0)
                           ++ held_scan (spinlocks_of c6_state 0))))
  ∧ (witness_sleep false None "s.c" 1 0 0 c6_state).1 = 1.
Proof.
  destruct (C6_sleep_counts_unsafe_locks false None "s.c" 1 0 0 c6_state)
    as (H1 & _ & H3).
  - vm_compute. reflexivity.
  - vm_compute. reflexivity.
  - split; [exact H1|].
    apply (H3 12%nat 11%nat); try (vm_compute; reflexivity); by_compute.
Defined.


(** C9 as stated fails: the pool of lock-list chunks is empty, process
    3000 holds nothing and takes the sx lock with [LOP_TRYLOCK]: the lock is
    not put on its list and the verifier goes dead. *)
Lemma C9_counterexample :
  let st := c9_state in
  lo_witness (lock_at st 20) = Some 197%nat
  ∧ witness_cold st = false ∧ witness_dead st = false
  ∧ LO_LOCKED (lo_flags (lock_at st 20)) = true
  ∧ LO_RECURSED (lo_flags (lock_at st 20)) = false
  ∧ w_lock_list_free st = 0%nat
  ∧ sleeplocks_of st 3000 = []
  ∧ returns (λ st', sleeplocks_of st' 3000 = [] ∧ witness_dead st' = true)
      (witness_lock 1 6 [] 20 try_flags "b.c" 2 3000 0 st).
Proof.
  vm_compute. repeat split.
Qed.

Lemma C9_trylock_witness :
  witness_lock 1 6 [] 10 try_flags "b.c" 2 0 0 c3_state
    = Ok (set_lock_list lock_class_mtx_sleep 0 0 [[10%nat]]
            (set_w_lock_list_free 2049 (sited 10 186 "b.c" 2 c3_state))).
Proof.
  destruct (C9_trylock_skips_checks 1 6 [] 10 try_flags "b.c" 2 0 0 c3_state
              186%nat) as (_ & _ & _ & H & _).
  - vm_compute. reflexivity.
  - vm_compute. reflexivity.
  - vm_compute. reflexivity.
  - vm_compute. reflexivity.
  - vm_compute. reflexivity.
  - vm_compute. reflexivity.
  - intros _. vm_compute. reflexivity.
  - reflexivity.
  - apply (H 2049%nat); [vm_compute; exact I | vm_compute; reflexivity | lia].
Defined.

(** C4 as stated fails: the pair of the acquired witness 186 ("foo") and
    the held witness 199 ("Giant") is reported twice, once while [Giant] is
    held and once while the other lock of its name is held. *)
Lemma C4_counterexample :
  returns
    (λ st, console st = [EvReversal 186 199 Giant 10 "b.c" 2;
                         EvReversal 186 199 30 10 "c.c" 2]
           ∧ count (is_reversal_of_pair 186 199) (console st) = 2%nat
           ∧ blessed [] st 186 199 = false)
    (run 1 6 [] c4_ops booted).
Proof. vm_compute. repeat split. Qed.

Lemma C4_reversal_witness :
  (∃ evs, console (after c4_ops) = console booted ++ evs
     ∧ ∀ w1,
         (∀ giant,
            (count (is_reversal w1 giant) evs ≤ 1)%nat
            ∧ ((w1 ∉ w_free booted) →
               reversal_squawked giant (wit booted w1) = true →
               count (is_reversal w1 giant) evs = O))
         ∧ ∀ w, (count (is_reversal_of_pair w w1) evs ≤ 2)%nat)
  ∧ ∃ evs,
      console (after (c4_learn ++ [OpLock 10 no_flags "b.c" 2 2 0]))
        = console c4_state ++ evs
      ∧ Forall (report_ok [] 10 186
                  (lock_list_of (lo_class (lock_at c4_state 10)) 2 0 c4_state)
                  c4_state) evs.
Proof.
  split.
  - destruct (C4_reversal_reported_once_per_held_witness_and_kind 1 6 []
                booted reachable_booted) as [Hrun _].
    apply (Hrun c4_ops (after c4_ops)).
    + repeat constructor; intros _; by_compute.
    + apply run_after. vm_compute. exact I.
  - destruct (C4_reversal_reported_once_per_held_witness_and_kind 1 6 []
                c4_state) as [_ Hcall].
    + apply reachable_after. repeat constructor; intros _; by_compute.
    + apply (Hcall 10%nat no_flags "b.c" 2 2%nat 0%nat 186%nat
               (after (c4_learn ++ [OpLock 10 no_flags "b.c" 2 2 0]))).
      * vm_compute. reflexivity.
      * vm_compute. reflexivity.
Defined.







(** * The further properties at concrete states *)

Lemma op_ok_c1_ops : Forall op_ok c1_ops.
Proof. repeat constructor; intros _; by_compute. Qed.

Lemma reachable_c1_state : reachable 1 6 [] c1_state.
Proof. apply reachable_after, op_ok_c1_ops. Qed.



Lemma reachable_c10_state : reachable 1 6 [] c10_state.
Proof. apply reachable_after. repeat constructor; intros _; by_compute. Qed.


(** "uidinfo struct" is reached from "Giant" in the order graph after
    boot. *)
Lemma X1_isitmydescendant_witness :
  ∃ b, isitmydescendant c1_state 199 194 = Ok b
       ∧ (b = true ↔ tc (edge c1_state) 199%nat 194%nat).
Proof.
  exact (X1_isitmydescendant_is_reachability 1 6 [] c1_state
           199%nat 194%nat reachable_c1_state).
Defined.


(** The new name "baz" gets the witness 184. *)
Lemma X4_enroll_witness :
  returns (λ r, r.1 = Some 184%nat ∧ find_witness r.2 "baz" = Some 184%nat
                ∧ w_free c1_state = 184%nat :: w_free r.2)
    (enroll "baz" lock_class_mtx_sleep c1_state).
Proof.
  destruct (enroll "baz" lock_class_mtx_sleep c1_state) as [[w st']| | |]
    eqn:E; try (vm_compute in E; discriminate).
  assert (Hw : w = Some 184%nat).
  { pose proof E as E'. vm_compute in E'. injection E' as <- _.
    reflexivity. }
  subst w.
  destruct (X4_enroll_then_lookup 1 6 [] "baz" lock_class_mtx_sleep
              c1_state 184%nat st' reachable_c1_state E)
    as (H1 & _ & _ & H4 & _).
  unfold returns. split; [reflexivity|]. split; [exact H1|].
  apply H4. vm_compute. reflexivity.
Defined.



(** The site of the held mutex "foo" is set and read back; the mutex
    [all_mtx] is not watched. *)
Lemma X8_save_restore_witness :
  witness_save 10 (witness_restore 10 (Some "x.c") 7 c10_state)
    = Some (Some "x.c", 7)
  ∧ witness_save all_mtx c10_state = None.
Proof.
  destruct (X8_witness_save_and_restore 1 6 [] 10%nat c10_state
              reachable_c10_state) as (_ & H & _).
  destruct (H 186%nat (Some "x.c") 7) as [H1 _]; [vm_compute; reflexivity|].
  destruct (X8_witness_save_and_restore 1 6 [] all_mtx c10_state
              reachable_c10_state) as (H0 & _).
  destruct H0 as [H0 _]; [vm_compute; reflexivity|].
  split; [exact H1 | exact H0].
Defined.

(** The pid 1234 is typed, and no process has it. *)
Lemma X9_show_locks_witness :
  db_pid (typed_in_ddb 1234) = 1234
  ∧ db_witness_list true (typed_in_ddb 1234) [(0%nat, 1); (1%nat, 2)]
      0 0 c10_state
    = DbNotFound 1234.
Proof.
  destruct (X9_show_locks_selects_typed_pid 1234 [(0%nat, 1); (1%nat, 2)]
              0%nat 0%nat c10_state) as (H1 & _ & H3 & _); [lia|].
  split; [exact H1|]. refine (H3 _). intros q Hq.
  inversion Hq as [|? ? ? Hq1]; subst; [simpl; lia|].
  inversion Hq1 as [|? ? ? Hq2]; subst; [simpl; lia|]. inversion Hq2.
Defined.

(** After the levels are computed "bar" is below "foo", and "Giant", which
    has no parent, has level 0. *)
Lemma X10_levelall_witness :
  ∃ st', witness_levelall c1_state = Ok st'
    ∧ w_level (wit st' 186) < w_level (wit st' 185)
    ∧ w_level (wit st' 199) = 0.
Proof.
  pose proof (reachable_wf 1 6 [] c1_state reachable_c1_state) as Hwf.
  destruct (X10_levelall_levels_are_longest_chains 1 6 [] c1_state
              reachable_c1_state)
    as (st' & Hrun & _ & _ & Hroot & Hedge).
  exists st'. split; [exact Hrun|]. split.
  - refine (Hedge 186%nat 185%nat _). unfold edge. by_compute.
  - refine (Hroot 199%nat _ _); [by_compute|].
    apply parents_nil_parentless; [apply Hwf | apply Hwf |].
    vm_compute. reflexivity.
Defined.

(** The display shows "bar" below "foo", which has a site and no parent. *)
Lemma X11_display_witness :
  ∃ st' sleep spin,
    witness_display c1_state
    = Ok (DisplaySleepLocks :: sleep
          ++ DisplaySpinLocks :: spin
          ++ DisplayNeverAcquired
             :: map (λ w, DisplayName (w_name (wit c1_state w)))
                  (filter (λ w, w_file (wit c1_state w) = None)
                     (w_all c1_state)),
          st')
    ∧ display_line st' 185 ∈ sleep.
Proof.
  pose proof (reachable_wf 1 6 [] c1_state reachable_c1_state) as Hwf.
  destruct (X11_display_shows_what_acquired_roots_reach 1 6 [] c1_state
              reachable_c1_state)
    as (st' & sleep & spin & _ & Hdisp & Hsl & _).
  exists st', sleep, spin. split; [exact Hdisp|].
  apply Hsl. exists 186%nat, 185%nat.
  split; [by_compute|]. split; [by_compute|]. split.
  - apply parents_nil_parentless; [apply Hwf | apply Hwf |].
    vm_compute. reflexivity.
  - split; [|reflexivity]. apply rtc_once. unfold edge. by_compute.
Defined.

(** The mutex "baz" at address 12 is initialized and destroyed: its
    witness 184 is dead and does not go back to the free list. *)
Lemma X12_init_then_destroy_witness :
  ∃ st1 st2,
    step 1 6 [] (OpInit 12 lock_class_mtx_sleep "baz" new_flags) c1_state
    = Ok st1
    ∧ step 1 6 [] (OpDestroy 12) st1 = Ok st2
    ∧ w_name (wit st2 184) = "(dead)"
    ∧ find_witness st2 "baz" = None
    ∧ w_free st2 = tail (w_free c1_state).
Proof.
  destruct (X12_init_then_destroy_retires_a_witness 1 6 [] 12%nat
              lock_class_mtx_sleep "baz" new_flags c1_state 184%nat
              (tail (w_free c1_state)) reachable_c1_state)
    as (st1 & st2 & H1 & H2 & _ & _ & _ & Hw2 & _ & Hfree & _ & Hfind & _).
  - vm_compute. reflexivity.
  - vm_compute. reflexivity.
  - by_compute.
  - reflexivity.
  - reflexivity.
  - reflexivity.
  - reflexivity.
  - reflexivity.
  - intros H. discriminate H.
  - intros H. discriminate H.
  - vm_compute. reflexivity.
  - discriminate.
  - vm_compute. reflexivity.
  - exists st1, st2. split; [exact H1|]. split; [exact H2|].
    split; [by rewrite Hw2|]. split; [exact Hfind | exact Hfree].
Defined.
